(** * robodm: the trajectory container (robodm/trajectory.py)

    A shallow embedding of the [Trajectory] class: the writer ([add],
    [add_by_dict], [_on_new_stream], [close], [_transcode_pickled_images]),
    the reader ([load], [_load_from_container], [_write_to_cache]), the
    codec selector and the bulk constructors, over an explicit model of
    the file store, the wall clock and the media container.

    Python objects are mutable and exceptions leave the mutations made so
    far in place, so every method is a function from a state to an outcome
    (an exception or a value) paired with the state it leaves behind. *)

From Stdlib Require Import ZArith NArith Lia Bool List Ascii String.
From Stdlib Require Import DecimalString DecimalN.
From stdpp Require Import base option list strings gmap fin_maps sorting.

Set Warnings "-register-all".


(** ** Exceptions *)

Inductive Exn :=
| ValueError (msg : string)
| KeyError (key : string)
| IndexError
| TypeError
| AttributeError
| FileNotFoundError (p : string)
| InvalidDataError
| UnpicklingError
| UnboundLocalError.

(** ** State and exception monad

    [M S A] is a computation over a state [S] that returns an [A] or raises;
    the state after a raise is the state at the point of the raise. *)

Definition M (S A : Type) : Type := S -> (Exn + A) * S.

Definition ret {S A} (a : A) : M S A := fun s => (inr a, s).
Definition raise {S A} (e : Exn) : M S A := fun s => (inl e, s).
Definition bind {S A B} (m : M S A) (k : A -> M S B) : M S B :=
  fun s => match m s with
           | (inr a, s') => k a s'
           | (inl e, s') => (inl e, s')
           end.
Definition get {S} : M S S := fun s => (inr s, s).
Definition gets {S A} (f : S -> A) : M S A := fun s => (inr (f s), s).
Definition put {S} (s : S) : M S unit := fun _ => (inr tt, s).
Definition modify {S} (f : S -> S) : M S unit := fun s => (inr tt, f s).

(** [try: m except Exception: h] *)
Definition try_except {S A} (m : M S A) (h : Exn -> M S A) : M S A :=
  fun s => match m s with
           | (inr a, s') => (inr a, s')
           | (inl e, s') => h e s'
           end.

(** A pure step that may raise. *)
Definition lift {S A} (r : Exn + A) : M S A := fun s => (r, s).

Declare Scope py_scope.
Delimit Scope py_scope with py.
Notation "x <- m ;; k" := (bind m (fun x => k))
  (at level 100, m at next level, right associativity) : py_scope.
Notation "m ;;; k" := (bind m (fun _ => k))
  (at level 100, right associativity) : py_scope.

(** [for x in l: body x] *)
Fixpoint for_each {S A} (l : list A) (body : A -> M S unit) : M S unit :=
  match l with
  | [] => ret tt
  | x :: rest => bind (body x) (fun _ => for_each rest body)
  end.

(** ** Python values *)

(** A numpy array or a Python number: its dtype name, its shape and its
    elements in row-major order.  An element is kept as the integer that
    represents it in its dtype: the value for the integer and bool dtypes,
    the IEEE bit pattern for the float dtypes. *)
Record ndarray := {
  nd_dtype : string;
  nd_shape : list N;
  nd_data : list Z
}.

Inductive PyVal :=
| VArr (a : ndarray)
| VStr (s : string)
| VNone
| VList (items : list PyVal)
| VDict (items : list (string * PyVal)).

(** A Python [dict] is an association list in insertion order with unique
    keys: [d[k] = v] replaces in place or appends. *)
Fixpoint dict_set {V} (d : list (string * V)) (k : string) (v : V)
  : list (string * V) :=
  match d with
  | [] => [(k, v)]
  | (k', v') :: rest =>
      if String.eqb k' k then (k', v) :: rest else (k', v') :: dict_set rest k v
  end.

Fixpoint dict_get {V} (d : list (string * V)) (k : string) : option V :=
  match d with
  | [] => None
  | (k', v') :: rest => if String.eqb k' k then Some v' else dict_get rest k
  end.

(** [for k, v in items: d[k] = v] *)
Definition dict_update {V} (d items : list (string * V)) : list (string * V) :=
  fold_left (fun d kv => dict_set d (fst kv) (snd kv)) items d.

(** [dict(items)] *)
Definition dict_of_items {V} (items : list (string * V)) : list (string * V) :=
  dict_update [] items.

(** ** [_flatten_dict] *)

Definition new_key (parent_key sep k : string) : string :=
  if String.eqb parent_key EmptyString then k else parent_key +:+ sep +:+ k.

Fixpoint flatten_value (key sep : string) (v : PyVal) {struct v}
  : list (string * PyVal) :=
  match v with
  | VDict d =>
      dict_of_items
        ((fix items (d : list (string * PyVal)) : list (string * PyVal) :=
            match d with
            | [] => []
            | (k, v') :: rest =>
                flatten_value (new_key key sep k) sep v' ++ items rest
            end) d)
  | _ => [(key, v)]
  end.

Definition _flatten_dict (d : list (string * PyVal)) (parent_key sep : string)
  : list (string * PyVal) :=
  flatten_value parent_key sep (VDict d).

(** ** FeatureType *)

Record FeatureType := {
  dtype : string;
  shape : list N
}.

(** Modelled from the spec: [robodm/feature.py] is not among the sources.
    [FeatureType.from_data]: an n-d array gives its dtype and shape, a
    scalar has shape [()], a string is [(string, ())].  A Python list is
    read as the array [np.array] makes of it, which this model leaves to
    the caller: a list that reaches [from_data] has the type of an object
    scalar. *)
Definition from_data (v : PyVal) : FeatureType :=
  match v with
  | VArr a => {| dtype := nd_dtype a; shape := nd_shape a |}
  | VStr _ => {| dtype := "string"; shape := [] |}
  | _ => {| dtype := "object"; shape := [] |}
  end.

(** ** Codec selector: [_get_encoding_of_feature] *)

Definition rawvideo : string := "rawvideo".
Definition ffv1 : string := "ffv1".
(** The AV1 codec is selected by the name of its encoder. *)
Definition av1 : string := "libaom-av1".

Definition _get_encoding_of_feature (lossy_compression : bool)
    (feature_value : PyVal) (feature_type : option FeatureType) : string :=
  let feature_type :=
    match feature_type with
    | None => from_data feature_value
    | Some ft => ft
    end in
  let data_shape := shape feature_type in
  match data_shape with
  | d0 :: d1 :: _ =>
      if (100 <=? d0)%N && (100 <=? d1)%N then
        if lossy_compression then av1 else ffv1
      else rawvideo
  | _ => rawvideo
  end.

(** Modelled from the spec: the textual form of a FeatureType, kept in the
    [FEATURE_TYPE] stream metadata, is part of [robodm/feature.py], which is
    not among the sources.  The form used here is
    [dtype=<dtype>; shape=(<d0>, <d1>)], the shape printed as a Python
    tuple. *)
Definition string_of_N (n : N) : string :=
  NilZero.string_of_uint (N.to_uint n).

Fixpoint string_of_dims (l : list N) : string :=
  match l with
  | [] => EmptyString
  | [d] => string_of_N d
  | d :: rest => string_of_N d +:+ ", " +:+ string_of_dims rest
  end.

Definition string_of_shape (l : list N) : string :=
  match l with
  | [d] => "(" +:+ string_of_N d +:+ ",)"
  | _ => "(" +:+ string_of_dims l +:+ ")"
  end.

Definition FeatureType_str (ft : FeatureType) : string :=
  "dtype=" +:+ dtype ft +:+ "; shape=" +:+ string_of_shape (shape ft).

Definition digit_of_ascii (c : ascii) : option N :=
  let n := N_of_ascii c in
  if (48 <=? n)%N && (n <=? 57)%N then Some (n - 48)%N else None.

(** The numbers of a string, in order: runs of decimal digits. *)
Fixpoint dims_of_string (s : string) (acc : option N) : list N :=
  match s with
  | EmptyString => match acc with Some n => [n] | None => [] end
  | String c rest =>
      match digit_of_ascii c with
      | Some d =>
          dims_of_string rest
            (Some (match acc with Some n => 10 * n + d | None => d end)%N)
      | None =>
          match acc with
          | Some n => n :: dims_of_string rest None
          | None => dims_of_string rest None
          end
      end
  end.

(** [s.split(sep, 1)] for a one-character separator. *)
Fixpoint split_once (sep : ascii) (s : string) : option (string * string) :=
  match s with
  | EmptyString => None
  | String c rest =>
      if Ascii.eqb c sep then Some (EmptyString, rest)
      else match split_once sep rest with
           | Some (a, b) => Some (String c a, b)
           | None => None
           end
  end.

Definition FeatureType_from_str (s : option string) : Exn + FeatureType :=
  match s with
  | None => inl AttributeError
  | Some s =>
      match split_once ";" s with
      | Some (d, sh) =>
          match split_once "=" d with
          | Some (_, dt) => inr {| dtype := dt; shape := dims_of_string sh None |}
          | None => inl IndexError
          end
      | None => inl (ValueError "not enough values to unpack")
      end
  end.

(** ** The media container

    The PyAV calls are idealised: a container is its list of streams and
    the list of packets muxed into it, in mux order; demuxing returns the
    stored packets of the chosen streams in that order and then one empty
    packet without timestamps per chosen stream; numpy conversions, frame
    construction, encoders and the muxer do not fail: the muxer takes every
    packet of one of its streams, with the timestamps the writer gave it.
    What the model's own data decides does fail: a missing file, key or
    index, a packet of an unknown stream, a reshape to another size. *)

Definition Fraction : Type := Z * Z.

Record VideoFrame := {
  fr_format : string;
  fr_height : N;
  fr_width : N;
  fr_samples : list Z;
  fr_pts : option Z;
  fr_dts : option Z;
  fr_time_base : option Fraction;
  fr_pict_type : string
}.

Inductive Body :=
| BEmpty
| BPickle (v : PyVal)
| BVideo (f : VideoFrame).

Record Packet := {
  pkt_pts : option Z;
  pkt_dts : option Z;
  pkt_time_base : option Fraction;
  pkt_stream : nat;
  pkt_body : Body
}.

Record Stream := {
  st_owner : nat;
  index : nat;
  codec_name : string;
  width : option N;
  height : option N;
  options : list (string * string);
  metadata : list (string * string);
  time_base : option Fraction;
  pending : list VideoFrame
}.

Record Container := {
  c_id : nat;
  c_path : string;
  c_mode : string;
  streams : list Stream;
  packets : list Packet;
  c_closed : bool
}.

(** ** The decoded arrays and the cache file *)

(** A preallocated array [np.empty((length,) + shape, dtype)]: one slot per
    step, [None] while nothing was stored in it. *)
Record DenseArray := {
  arr_dtype : string;
  arr_shape : list N;
  arr_slots : list (option PyVal)
}.

(** What [load] returns, and an HDF5 group: a map whose values are arrays
    or maps. *)
Inductive Tree :=
| Leaf (a : DenseArray)
| Node (children : list (string * Tree)).

(** ** Files and the world *)

Inductive File :=
| MkvFile (ss : list Stream) (ps : list Packet) (trailer : bool)
| H5File (root : list (string * Tree)).

Record World := {
  fs : gmap string File;
  tick : nat;
  next_id : nat
}.

Definition set_fs (f : gmap string File → gmap string File) (w : World) : World :=
  {| fs := f (fs w); tick := tick w; next_id := next_id w |}.

Record StreamInfo := {
  info_feature_name : string;
  info_feature_type : FeatureType;
  info_encoding : string
}.

Record Trajectory := {
  path : string;
  feature_name_separator : string;
  cache_file_name : string;
  feature_name_to_stream : gmap string Stream;
  feature_name_to_feature_type : gmap string FeatureType;
  trajectory_data : option Tree;
  start_time : Z;
  mode : string;
  stream_id_to_info : gmap nat StreamInfo;
  is_closed : bool;
  lossy_compression : bool;
  container_file : option Container
}.

Record Env := {
  world : World;
  self : Trajectory
}.

Definition set_feature_name_to_stream (m : gmap string Stream) (t : Trajectory) :=
  {| path := path t; feature_name_separator := feature_name_separator t;
     cache_file_name := cache_file_name t; feature_name_to_stream := m;
     feature_name_to_feature_type := feature_name_to_feature_type t;
     trajectory_data := trajectory_data t; start_time := start_time t;
     mode := mode t; stream_id_to_info := stream_id_to_info t;
     is_closed := is_closed t; lossy_compression := lossy_compression t;
     container_file := container_file t |}.

Definition set_feature_name_to_feature_type (m : gmap string FeatureType)
    (t : Trajectory) :=
  {| path := path t; feature_name_separator := feature_name_separator t;
     cache_file_name := cache_file_name t;
     feature_name_to_stream := feature_name_to_stream t;
     feature_name_to_feature_type := m;
     trajectory_data := trajectory_data t; start_time := start_time t;
     mode := mode t; stream_id_to_info := stream_id_to_info t;
     is_closed := is_closed t; lossy_compression := lossy_compression t;
     container_file := container_file t |}.

Definition set_trajectory_data (d : option Tree) (t : Trajectory) :=
  {| path := path t; feature_name_separator := feature_name_separator t;
     cache_file_name := cache_file_name t;
     feature_name_to_stream := feature_name_to_stream t;
     feature_name_to_feature_type := feature_name_to_feature_type t;
     trajectory_data := d; start_time := start_time t;
     mode := mode t; stream_id_to_info := stream_id_to_info t;
     is_closed := is_closed t; lossy_compression := lossy_compression t;
     container_file := container_file t |}.

Definition set_stream_id_to_info (m : gmap nat StreamInfo) (t : Trajectory) :=
  {| path := path t; feature_name_separator := feature_name_separator t;
     cache_file_name := cache_file_name t;
     feature_name_to_stream := feature_name_to_stream t;
     feature_name_to_feature_type := feature_name_to_feature_type t;
     trajectory_data := trajectory_data t; start_time := start_time t;
     mode := mode t; stream_id_to_info := m;
     is_closed := is_closed t; lossy_compression := lossy_compression t;
     container_file := container_file t |}.

Definition set_is_closed (b : bool) (t : Trajectory) :=
  {| path := path t; feature_name_separator := feature_name_separator t;
     cache_file_name := cache_file_name t;
     feature_name_to_stream := feature_name_to_stream t;
     feature_name_to_feature_type := feature_name_to_feature_type t;
     trajectory_data := trajectory_data t; start_time := start_time t;
     mode := mode t; stream_id_to_info := stream_id_to_info t;
     is_closed := b; lossy_compression := lossy_compression t;
     container_file := container_file t |}.

Definition set_container_file (c : option Container) (t : Trajectory) :=
  {| path := path t; feature_name_separator := feature_name_separator t;
     cache_file_name := cache_file_name t;
     feature_name_to_stream := feature_name_to_stream t;
     feature_name_to_feature_type := feature_name_to_feature_type t;
     trajectory_data := trajectory_data t; start_time := start_time t;
     mode := mode t; stream_id_to_info := stream_id_to_info t;
     is_closed := is_closed t; lossy_compression := lossy_compression t;
     container_file := c |}.

Definition set_streams (ss : list Stream) (c : Container) : Container :=
  {| c_id := c_id c; c_path := c_path c; c_mode := c_mode c; streams := ss;
     packets := packets c; c_closed := c_closed c |}.

Definition set_packets (ps : list Packet) (c : Container) : Container :=
  {| c_id := c_id c; c_path := c_path c; c_mode := c_mode c;
     streams := streams c; packets := ps; c_closed := c_closed c |}.

Definition set_c_closed (b : bool) (c : Container) : Container :=
  {| c_id := c_id c; c_path := c_path c; c_mode := c_mode c;
     streams := streams c; packets := packets c; c_closed := b |}.

Definition set_metadata (m : list (string * string)) (s : Stream) : Stream :=
  {| st_owner := st_owner s; index := index s; codec_name := codec_name s;
     width := width s; height := height s; options := options s;
     metadata := m; time_base := time_base s; pending := pending s |}.

Definition set_pending (q : list VideoFrame) (s : Stream) : Stream :=
  {| st_owner := st_owner s; index := index s; codec_name := codec_name s;
     width := width s; height := height s; options := options s;
     metadata := metadata s; time_base := time_base s; pending := q |}.

Definition set_stamp (ts : option Z) (tb : option Fraction) (p : Packet) : Packet :=
  {| pkt_pts := ts; pkt_dts := ts; pkt_time_base := tb;
     pkt_stream := pkt_stream p; pkt_body := pkt_body p |}.

Definition set_pkt_stream (i : nat) (p : Packet) : Packet :=
  {| pkt_pts := pkt_pts p; pkt_dts := pkt_dts p;
     pkt_time_base := pkt_time_base p; pkt_stream := i;
     pkt_body := pkt_body p |}.

(** ** File store *)

Definition temp_suffix : string := ".temp".

(** [os.rename(src, dst)] *)
Definition os_rename (src dst : string) : M World unit :=
  fun w =>
    match fs w !! src with
    | Some f => (inr tt, set_fs (fun m => <[dst := f]> (delete src m)) w)
    | None => (inl (FileNotFoundError src), w)
    end.

(** [os.remove(p)] *)
Definition os_remove (p : string) : M World unit :=
  fun w =>
    match fs w !! p with
    | Some _ => (inr tt, set_fs (delete p) w)
    | None => (inl (FileNotFoundError p), w)
    end.

Definition os_path_exists (p : string) : M World bool :=
  gets (fun w => bool_decide (is_Some (fs w !! p))).

Definition fresh_id : M World nat :=
  fun w => (inr (next_id w),
            {| fs := fs w; tick := tick w; next_id := S (next_id w) |}).

(** [av.open(p, mode="w", format="matroska")]: the file is created, or
    emptied, when the container is opened. *)
Definition av_open_w (p : string) : M World Container :=
  bind fresh_id (fun i =>
  bind (modify (set_fs (insert p (MkvFile [] [] false)))) (fun _ =>
  ret {| c_id := i; c_path := p; c_mode := "w"; streams := [];
         packets := []; c_closed := false |})).

Definition retag (i : nat) (s : Stream) : Stream :=
  {| st_owner := i; index := index s; codec_name := codec_name s;
     width := width s; height := height s; options := options s;
     metadata := metadata s; time_base := time_base s; pending := [] |}.

(** [av.open(p, mode="r", format="matroska")] *)
Definition av_open_r (p : string) : M World Container :=
  bind (gets (fun w => fs w !! p)) (fun f =>
  match f with
  | Some (MkvFile ss ps _) =>
      bind fresh_id (fun i =>
      ret {| c_id := i; c_path := p; c_mode := "r";
             streams := map (retag i) ss; packets := ps; c_closed := false |})
  | Some (H5File _) => raise InvalidDataError
  | None => raise (FileNotFoundError p)
  end).

(** [container.close()]: closing twice is harmless; closing an output
    container writes the trailer. *)
Definition container_close (c : Container) : M World Container :=
  if c_closed c then ret c
  else if String.eqb (c_mode c) "w" then
    bind (modify (set_fs (insert (c_path c)
                    (MkvFile (map (set_pending []) (streams c)) (packets c) true))))
      (fun _ => ret (set_c_closed true c))
  else ret (set_c_closed true c).

(** [container.demux(streams)], the streams given by their indexes. *)
Definition flush_packet (i : nat) : Packet :=
  {| pkt_pts := None; pkt_dts := None; pkt_time_base := None;
     pkt_stream := i; pkt_body := BEmpty |}.

Definition demux (c : Container) (selected : list nat) : list Packet :=
  filter (fun p => pkt_stream p ∈ selected) (packets c)
    ++ map flush_packet selected.

(** [container.mux(packet)] *)
Definition mux (p : Packet) : M Container unit :=
  fun c =>
    if decide (pkt_stream p < length (streams c))
    then (inr tt, set_packets (packets c ++ [p]) c)
    else (inl (ValueError "Bad Packet stream_index"), c).

Definition is_packet_valid (p : Packet) : bool :=
  bool_decide (is_Some (pkt_pts p)) && bool_decide (is_Some (pkt_dts p)).

(** ** The platform

    What the model takes from the libraries and from the machine as given
    functions. *)
Class Platform := {
  (** The [k]-th reading of [time.time()], in milliseconds: the float
      arithmetic of [(time.time() - start_time) * 1000] and its conversion
      to the integer timestamp of a packet are read as an integer
      difference. *)
  wall_clock : nat → Z;
  (** [hex(abs(hash(path)))[2:]] *)
  path_hash : string → string;
  (** How many frames the encoder of a codec holds back before it emits
      the first packet. *)
  codec_delay : string → nat;
  (** What decoding after encoding with a codec makes of the samples of a
      frame: the identity for a lossless codec. *)
  codec_samples : string → list Z → list Z;
  (** [np.array(x, dtype=np.uint8)] on one element of the given dtype. *)
  astype_uint8 : string → Z → Z;
  (** [(x * 255).astype(np.uint8)] on one float32 element. *)
  mul255_astype_uint8 : Z → Z;
  (** The pixel format conversion of [frame.to_ndarray(format=...)], from
      the format of the frame to the requested one. *)
  reformat : string → string → list Z → list Z;
  (** [str(x)] of a value that is neither a string nor [None]. *)
  py_repr : PyVal → string
}.

Section Robodm.

Context {platform : Platform}.

Local Open Scope py_scope.

Definition in_world {A} (m : M World A) : M Env A :=
  fun e => let '(r, w) := m (world e) in (r, {| world := w; self := self e |}).

Definition self_get {A} (f : Trajectory → A) : M Env A :=
  gets (fun e => f (self e)).

Definition self_set (f : Trajectory → Trajectory) : M Env unit :=
  modify (fun e => {| world := world e; self := f (self e) |}).

Definition time_time : M World Z :=
  fun w => (inr (wall_clock (tick w)),
            {| fs := fs w; tick := S (tick w); next_id := next_id w |}).

Definition _get_current_timestamp : M Env Z :=
  now <- in_world time_time ;;
  start <- self_get start_time ;;
  ret (now - start)%Z.

(** ** [_add_stream_to_container]

    The stream is added to the container first and configured afterwards,
    so a raise leaves the unconfigured stream in the container. *)

Definition is_video (encoding : string) : bool :=
  String.eqb encoding ffv1 || String.eqb encoding av1.

Definition _add_stream_to_container (feature_name encoding : string)
    (feature_type : FeatureType) : M Container Stream :=
  fun container =>
    let stream :=
      {| st_owner := c_id container; index := length (streams container);
         codec_name := encoding; width := None; height := None; options := [];
         metadata := []; time_base := None; pending := [] |} in
    let sized :=
      if is_video encoding then
        match shape feature_type !! 1, shape feature_type !! 0 with
        | Some w, Some h =>
            inr {| st_owner := st_owner stream; index := index stream;
                   codec_name := encoding; width := Some w; height := Some h;
                   options := if String.eqb encoding av1
                              then [("g", "2"); ("crf", "23")] else [];
                   metadata := []; time_base := None; pending := [] |}
        | _, _ => inl IndexError
        end
      else inr stream in
    match sized with
    | inl e => (inl e, set_streams (streams container ++ [stream]) container)
    | inr stream =>
        let stream :=
          {| st_owner := st_owner stream; index := index stream;
             codec_name := codec_name stream; width := width stream;
             height := height stream; options := options stream;
             metadata :=
               dict_set (dict_set (metadata stream) "FEATURE_NAME" feature_name)
                 "FEATURE_TYPE" (FeatureType_str feature_type);
             time_base := Some (1, 1000)%Z; pending := [] |} in
        (inr stream, set_streams (streams container ++ [stream]) container)
    end.

(** ** Frame codec *)

Definition np_array (v : PyVal) : ndarray :=
  match v with
  | VArr a => a
  | _ => {| nd_dtype := "object"; nd_shape := []; nd_data := [] |}
  end.

Definition np_array_uint8 (v : PyVal) : ndarray :=
  let a := np_array v in
  {| nd_dtype := "uint8"; nd_shape := nd_shape a;
     nd_data := map (astype_uint8 (nd_dtype a)) (nd_data a) |}.

(** [av.VideoFrame.from_ndarray(array, format)] *)
Definition from_ndarray (a : ndarray) (format : string) : VideoFrame :=
  {| fr_format := format;
     fr_height := default 0%N (nd_shape a !! 0);
     fr_width := default 0%N (nd_shape a !! 1);
     fr_samples := nd_data a;
     fr_pts := None; fr_dts := None; fr_time_base := None;
     fr_pict_type := EmptyString |}.

Definition set_pict_type (t : string) (tb : option Fraction) (f : VideoFrame) :=
  {| fr_format := fr_format f; fr_height := fr_height f; fr_width := fr_width f;
     fr_samples := fr_samples f; fr_pts := fr_pts f; fr_dts := fr_dts f;
     fr_time_base := tb; fr_pict_type := t |}.

Definition set_frame_stamp (ts : Z) (tb : option Fraction) (f : VideoFrame) :=
  {| fr_format := fr_format f; fr_height := fr_height f; fr_width := fr_width f;
     fr_samples := fr_samples f; fr_pts := Some ts; fr_dts := Some ts;
     fr_time_base := tb; fr_pict_type := fr_pict_type f |}.

Definition _create_frame (image_array : PyVal) (stream : Stream) : VideoFrame :=
  let frame := from_ndarray (np_array_uint8 image_array) "rgb24" in
  set_pict_type "NONE" (fr_time_base frame) frame.

(** [image_array[:, :, 0]] on the row-major elements of an array whose last
    axis has [c] entries: [k] elements are skipped before the next one is
    taken. *)
Fixpoint first_channel (c k : nat) (l : list Z) : list Z :=
  match l with
  | [] => []
  | x :: rest =>
      match k with
      | 0 => x :: first_channel c (c - 1) rest
      | S k' => first_channel c k' rest
      end
  end.

Definition _create_frame_depth (image_array : PyVal) (stream : Stream)
  : VideoFrame :=
  let image_array := np_array image_array in
  let image_array :=
    if String.eqb (nd_dtype image_array) "float32" then
      {| nd_dtype := "uint8"; nd_shape := nd_shape image_array;
         nd_data := map mul255_astype_uint8 (nd_data image_array) |}
    else image_array in
  let image_array :=
    match nd_shape image_array with
    | [h; w; c] =>
        {| nd_dtype := nd_dtype image_array; nd_shape := [h; w];
           nd_data := first_channel (N.to_nat c) 0 (nd_data image_array) |}
    | _ => image_array
    end in
  let frame := from_ndarray image_array "gray" in
  set_pict_type "NONE" (time_base stream) frame.

(** The packet an encoder makes of a frame. *)
Definition packet_of_frame (s : Stream) (f : VideoFrame) : Packet :=
  {| pkt_pts := fr_pts f; pkt_dts := fr_dts f; pkt_time_base := time_base s;
     pkt_stream := index s;
     pkt_body :=
       BVideo {| fr_format := fr_format f; fr_height := fr_height f;
                 fr_width := fr_width f;
                 fr_samples := codec_samples (codec_name s) (fr_samples f);
                 fr_pts := fr_pts f; fr_dts := fr_dts f;
                 fr_time_base := fr_time_base f;
                 fr_pict_type := fr_pict_type f |} |}.

(** [stream.encode(frame)]; [stream.encode(None)] drains the encoder. *)
Definition stream_encode (s : Stream) (frame : option VideoFrame)
  : list Packet * Stream :=
  match frame with
  | Some f =>
      let q := pending s ++ [f] in
      if decide (length q ≤ codec_delay (codec_name s)) then ([], set_pending q s)
      else match q with
           | f0 :: q' => ([packet_of_frame s f0], set_pending q' s)
           | [] => ([], s)
           end
  | None => (map (packet_of_frame s) (pending s), set_pending [] s)
  end.

Definition _encode_frame (data : PyVal) (stream : Stream) (timestamp : Z)
  : list Packet * Stream :=
  let encoding := codec_name stream in
  let feature_type := from_data data in
  let '(packets, stream) :=
    if is_video encoding then
      let frame :=
        if String.eqb (dtype feature_type) "float32"
        then _create_frame_depth data stream
        else _create_frame data stream in
      stream_encode stream
        (Some (set_frame_stamp timestamp (time_base stream) frame))
    else
      ([ {| pkt_pts := Some timestamp; pkt_dts := Some timestamp;
            pkt_time_base := time_base stream; pkt_stream := index stream;
            pkt_body := BPickle data |} ], stream) in
  (map (set_stamp (Some timestamp) (time_base stream)) packets, stream).

(** ** Running a computation on a part of the state *)

(** On a local variable: a raise loses the local value. *)
Definition run_local {S T A} (m : M T A) (t : T) : M S (A * T) :=
  fun s => match m t with
           | (inr a, t') => (inr (a, t'), s)
           | (inl e, _) => (inl e, s)
           end.

(** On [self.container_file]; [None] has no attributes. *)
Definition on_container_file {A} (m : M Container A) : M Env A :=
  fun e =>
    match container_file (self e) with
    | None => (inl AttributeError, e)
    | Some c =>
        let '(r, c') := m c in
        (r, {| world := world e;
               self := set_container_file (Some c') (self e) |})
    end.

(** [self.container_file.close()] *)
Definition close_container_file : M Env unit :=
  c <- on_container_file get ;;
  c' <- in_world (container_close c) ;;
  self_set (set_container_file (Some c')).

(** ** Draining the encoders *)

Definition restamp (ts : Z) (p : Packet) : Packet :=
  set_stamp (Some ts) (pkt_time_base p) p.

(** [packets = stream.encode(None)] and the loop that muxes them, for the
    stream at position [i]. *)
Definition flush_stream (ts : Z) (i : nat) : M Container unit :=
  fun c =>
    match streams c !! i with
    | None => (inr tt, c)
    | Some s =>
        let '(pkts, s') := stream_encode s None in
        for_each (map (restamp ts) pkts) mux
          (set_streams (<[i := s']> (streams c)) c)
    end.

Definition stream_positions : M Container (list nat) :=
  gets (fun c => seq 0 (length (streams c))).

(** The loop of [close]: a failing stream is logged and skipped. *)
Definition flush_streams_logged (ts : Z) : M Container unit :=
  l <- stream_positions ;;
  for_each l (fun i => try_except (flush_stream ts i) (fun _ => ret tt)).

(** The loop of [_transcode_pickled_images]. *)
Definition flush_streams (ts : Z) : M Container unit :=
  l <- stream_positions ;;
  for_each l (flush_stream ts).

(** ** [_transcode_pickled_images] *)

(** [for key, value in stream.metadata.items(): new.metadata[key] = value],
    on the stream at position [j]. *)
Definition copy_metadata (src : Stream) (j : nat) : M Container unit :=
  modify (fun c =>
    set_streams
      (alter (fun s => set_metadata (dict_update (metadata s) (metadata src)) s)
         j (streams c)) c).

Definition transcode_stream (lossy : bool) (ftypes : gmap string FeatureType)
    (d : gmap nat nat) (stream : Stream) : M Container (gmap nat nat) :=
  match dict_get (metadata stream) "FEATURE_NAME" with
  | None => ret d
  | Some stream_feature =>
      match ftypes !! stream_feature with
      | None => raise (KeyError stream_feature)
      | Some stream_feature_type =>
          let stream_encoding :=
            _get_encoding_of_feature lossy VNone (Some stream_feature_type) in
          s_new <- _add_stream_to_container stream_feature stream_encoding
                     stream_feature_type ;;
          copy_metadata stream (index s_new) ;;;
          ret (<[index stream := index s_new]> d)
      end
  end.

Fixpoint fold_streams {S} (f : gmap nat nat → Stream → M S (gmap nat nat))
    (d : gmap nat nat) (l : list Stream) : M S (gmap nat nat) :=
  match l with
  | [] => ret d
  | s :: rest => d' <- f d s ;; fold_streams f d' rest
  end.

(** [pickle.loads(bytes(packet))] *)
Definition pickle_loads (b : Body) : Exn + PyVal :=
  match b with
  | BPickle v => inr v
  | _ => inl UnpicklingError
  end.

Definition set_stream_at (j : nat) (s : Stream) : M Container unit :=
  modify (fun c => set_streams (<[j := s]> (streams c)) c).

Definition transcode_packet (d : gmap nat nat) (packet : Packet)
  : M Container unit :=
  if is_packet_valid packet then
    match d !! pkt_stream packet with
    | None => raise (KeyError "stream index")
    | Some j =>
        ss <- gets streams ;;
        match ss !! j with
        | None => raise IndexError
        | Some s =>
            if is_video (codec_name s) then
              data <- lift (pickle_loads (pkt_body packet)) ;;
              let r := _encode_frame data s (default 0%Z (pkt_pts packet)) in
              set_stream_at j (snd r) ;;;
              for_each (fst r) mux
            else mux (set_pkt_stream j packet)
        end
    end
  else ret tt.

Definition _transcode_pickled_images (ending_timestamp : Z) : M Env unit :=
  p <- self_get path ;;
  let temp_path := p +:+ temp_suffix in
  in_world (os_rename p temp_path) ;;;
  original_container <- in_world (av_open_r temp_path) ;;
  let original_streams := streams original_container in
  new_container <- in_world (av_open_w p) ;;
  ftypes <- self_get feature_name_to_feature_type ;;
  lossy <- self_get lossy_compression ;;
  r <- run_local
         (d <- fold_streams (transcode_stream lossy ftypes) ∅ original_streams ;;
          for_each (demux original_container (map index original_streams))
            (transcode_packet d) ;;;
          flush_streams ending_timestamp)
         new_container ;;
  in_world (container_close original_container) ;;;
  in_world (os_remove temp_path) ;;;
  self_set (set_container_file (Some (snd r))).

(** ** [close] *)

Definition close (compact : bool) : M Env unit :=
  closed <- self_get is_closed ;;
  if closed : bool then raise (ValueError "The container file is already closed")
  else
    ts <- _get_current_timestamp ;;
    on_container_file (flush_streams_logged ts) ;;;
    close_container_file ;;;
    (if compact then _transcode_pickled_images ts else ret tt) ;;;
    close_container_file ;;;
    self_set (set_trajectory_data None) ;;;
    self_set (set_container_file None) ;;;
    self_set (set_is_closed true).

(** ** [_on_new_stream] *)

Definition remux_stream (ftypes : gmap string FeatureType)
    (d : gmap nat nat) (stream : Stream) : M Container (gmap nat nat) :=
  match dict_get (metadata stream) "FEATURE_NAME" with
  | None => ret d
  | Some stream_feature =>
      let stream_encoding := codec_name stream in
      match ftypes !! stream_feature with
      | None => raise (KeyError stream_feature)
      | Some stream_feature_type =>
          s_new <- _add_stream_to_container stream_feature stream_encoding
                     stream_feature_type ;;
          copy_metadata stream (index s_new) ;;;
          ret (<[index stream := index s_new]> d)
      end
  end.

Definition remux_packet (d : gmap nat nat) (packet : Packet) : M Container unit :=
  if is_packet_valid packet then
    match d !! pkt_stream packet with
    | None => raise (KeyError "stream index")
    | Some j => mux (set_pkt_stream j packet)
    end
  else ret tt.

Definition _on_new_stream (new_feature new_encoding : string)
    (new_feature_type : FeatureType) : M Env unit :=
  known <- self_get feature_name_to_stream ;;
  if bool_decide (is_Some (known !! new_feature)) then ret tt
  else if bool_decide (known = ∅) then
    s <- on_container_file
           (_add_stream_to_container new_feature new_encoding new_feature_type) ;;
    self_set (fun t =>
      set_feature_name_to_stream (<[new_feature := s]> (feature_name_to_stream t)) t)
  else
    close false ;;;
    p <- self_get path ;;
    let temp_path := p +:+ temp_suffix in
    in_world (os_rename p temp_path) ;;;
    original_container <- in_world (av_open_r temp_path) ;;
    let original_streams := streams original_container in
    new_container <- in_world (av_open_w p) ;;
    ftypes <- self_get feature_name_to_feature_type ;;
    r <- run_local
           (d <- fold_streams (remux_stream ftypes) ∅ original_streams ;;
            new_stream <- _add_stream_to_container new_feature new_encoding
                            new_feature_type ;;
            ret (<[index new_stream := index new_stream]> d, new_stream))
           new_container ;;
    let d := fst (fst r) in
    let new_stream := snd (fst r) in
    self_set (fun t =>
      set_stream_id_to_info
        (<[index new_stream :=
             {| info_feature_name := new_feature;
                info_feature_type := new_feature_type;
                info_encoding := new_encoding |}]> (stream_id_to_info t)) t) ;;;
    r' <- run_local
            (for_each (demux original_container (map index original_streams))
               (remux_packet d))
            (snd r) ;;
    in_world (container_close original_container) ;;;
    in_world (os_remove temp_path) ;;;
    self_set (set_container_file (Some (snd r'))) ;;;
    self_set (fun t =>
      set_feature_name_to_stream
        (<[new_feature := new_stream]> (feature_name_to_stream t)) t) ;;;
    self_set (set_is_closed false).

(** ** [add] and [add_by_dict] *)

Definition is_dict (v : PyVal) : bool :=
  match v with VDict _ => true | _ => false end.

(** The encoder of a stream is part of the stream object: when the stream
    that [add] encodes with is a stream of the live container, the
    container sees what the encoder holds back. *)
Definition store_stream (feature : string) (s : Stream) : M Env unit :=
  self_set (fun t =>
    let t := set_feature_name_to_stream
               (<[feature := s]> (feature_name_to_stream t)) t in
    match container_file t with
    | Some c =>
        if decide (c_id c = st_owner s) then
          set_container_file
            (Some (set_streams
                     (alter (set_pending (pending s)) (index s) (streams c)) c)) t
        else t
    | None => t
    end).

Definition add (feature : string) (data : PyVal) (timestamp : option Z)
  : M Env unit :=
  if is_dict data then raise (ValueError "Use add_by_dict for dictionary")
  else
    let feature_type := from_data data in
    self_set (fun t =>
      set_feature_name_to_feature_type
        (<[feature := feature_type]> (feature_name_to_feature_type t)) t) ;;;
    known <- self_get feature_name_to_stream ;;
    (if bool_decide (is_Some (known !! feature)) then ret tt
     else _on_new_stream feature rawvideo feature_type) ;;;
    known <- self_get feature_name_to_stream ;;
    match known !! feature with
    | None => raise (KeyError feature)
    | Some stream =>
        timestamp <- match timestamp with
                     | None => _get_current_timestamp
                     | Some ts => ret ts
                     end ;;
        let r := _encode_frame data stream timestamp in
        store_stream feature (snd r) ;;;
        for_each (fst r) (fun packet => on_container_file (mux packet))
    end.

Definition add_by_dict (data : PyVal) (timestamp : option Z) : M Env unit :=
  match data with
  | VDict d =>
      sep <- self_get feature_name_separator ;;
      let _flatten_dict_data := _flatten_dict d EmptyString sep in
      timestamp <- match timestamp with
                   | None => _get_current_timestamp
                   | Some ts => ret ts
                   end ;;
      for_each _flatten_dict_data
        (fun kv => add (fst kv) (snd kv) (Some timestamp))
  | _ => raise (ValueError "Use add for non-dictionary data")
  end.

(** ** [__init__]

    Directories are not modelled: [os.makedirs] has no effect on the file
    store. *)

Definition default_cache_dir : string := "/tmp/robodm/cache/".

Definition __init__ (path mode cache_dir : string) (lossy_compression : bool)
    (feature_name_separator : string) : M World Trajectory :=
  now <- time_time ;;
  let t :=
    {| path := path; feature_name_separator := feature_name_separator;
       cache_file_name := cache_dir +:+ path_hash path +:+ ".cache";
       feature_name_to_stream := ∅; feature_name_to_feature_type := ∅;
       trajectory_data := None; start_time := now; mode := mode;
       stream_id_to_info := ∅; is_closed := false;
       lossy_compression := lossy_compression; container_file := None |} in
  if String.eqb mode "w" then
    c <- av_open_w path ;;
    ret (set_container_file (Some c) t)
  else if String.eqb mode "r" then
    exists_ <- os_path_exists path ;;
    if exists_ : bool then ret t else raise (FileNotFoundError path)
  else raise (ValueError "Invalid mode, must be 'r' or 'w'").

(** ** Bulk constructors *)

(** Running methods of a trajectory held in a local variable. *)
Definition with_self {A} (t : Trajectory) (m : M Env A) : M World (A * Trajectory) :=
  fun w =>
    match m {| world := w; self := t |} with
    | (inr a, e) => (inr (a, self e), world e)
    | (inl x, e) => (inl x, world e)
    end.

Definition from_list_of_dicts (data : list PyVal) (path : string)
    (lossy_compression : bool) : M World Trajectory :=
  traj <- __init__ path "w" default_cache_dir lossy_compression "/" ;;
  r <- with_self traj
         (for_each data (fun step => add_by_dict step None) ;;;
          close true) ;;
  ret (snd r).

(** [len(v)] *)
Definition py_len (v : PyVal) : Exn + nat :=
  match v with
  | VList l => inr (length l)
  | VStr s => inr (String.length s)
  | VDict d => inr (length d)
  | VArr a =>
      match nd_shape a with
      | [] => inl TypeError
      | n :: _ => inr (N.to_nat n)
      end
  | VNone => inl TypeError
  end.

Definition shape_size (sh : list N) : N := fold_right N.mul 1%N sh.

(** [v[i]] for [0 <= i] *)
Definition py_getitem (v : PyVal) (i : nat) : Exn + PyVal :=
  match v with
  | VList l =>
      match l !! i with Some x => inr x | None => inl IndexError end
  | VStr s =>
      match String.get i s with
      | Some c => inr (VStr (String c EmptyString))
      | None => inl IndexError
      end
  | VArr a =>
      match nd_shape a with
      | [] => inl IndexError
      | n :: rest =>
          if decide (i < N.to_nat n) then
            let k := N.to_nat (shape_size rest) in
            inr (VArr {| nd_dtype := nd_dtype a; nd_shape := rest;
                         nd_data := take k (drop (i * k) (nd_data a)) |})
          else inl IndexError
      end
  | VDict _ => inl (KeyError "index")
  | VNone => inl TypeError
  end.

(** [[f(x) for x in l]] where [f] may raise. *)
Fixpoint map_exn {A B} (f : A → Exn + B) (l : list A) : Exn + list B :=
  match l with
  | [] => inr []
  | x :: rest =>
      match f x with
      | inl e => inl e
      | inr y =>
          match map_exn f rest with
          | inl e => inl e
          | inr ys => inr (y :: ys)
          end
      end
  end.

Definition from_dict_of_lists (data : list (string * PyVal)) (path : string)
    (feature_name_separator : string) (lossy_compression : bool)
  : M World Trajectory :=
  traj <- __init__ path "w" default_cache_dir lossy_compression
            feature_name_separator ;;
  let _flatten_dict_data := _flatten_dict data EmptyString (feature_name_separator) in
  list_lengths <- lift (map_exn (fun kv => py_len (snd kv)) _flatten_dict_data) ;;
  if negb (length (remove_dups list_lengths) =? 1) then
    raise (ValueError "All lists must have the same length")
  else
    match list_lengths with
    | [] => raise IndexError
    | l0 :: _ =>
        r <- with_self traj
               (for_each (seq 0 l0) (fun i =>
                  step <- lift (map_exn
                            (fun kv =>
                               match py_getitem (snd kv) i with
                               | inl e => inl e
                               | inr x => inr (fst kv, x)
                               end) _flatten_dict_data) ;;
                  add_by_dict (VDict step) None) ;;;
                close true) ;;
        ret (snd r)
    end.

(** ** [_load_from_container] *)

(** [_get_length_of_stream] *)
Definition _get_length_of_stream (container : Container) (stream : Stream) : nat :=
  length (filter (fun p => is_Some (pkt_dts p)) (demux container [index stream])).

Definition np_empty (length : nat) (ft : FeatureType) : DenseArray :=
  {| arr_dtype := if String.eqb (dtype ft) "string" then "object" else dtype ft;
     arr_shape := N.of_nat length :: shape ft;
     arr_slots := replicate length None |}.

(** The preallocation loop; [self.feature_name_to_feature_type] is updated
    on the way. *)
Fixpoint preallocate (length : nat) (l : list Stream)
    (arrays : list (string * DenseArray)) : M Env (list (string * DenseArray)) :=
  match l with
  | [] => ret arrays
  | stream :: rest =>
      match dict_get (metadata stream) "FEATURE_NAME" with
      | None => preallocate length rest arrays
      | Some feature_name =>
          feature_type <- lift (FeatureType_from_str
                                  (dict_get (metadata stream) "FEATURE_TYPE")) ;;
          self_set (fun t =>
            set_feature_name_to_feature_type
              (<[feature_name := feature_type]> (feature_name_to_feature_type t)) t) ;;;
          preallocate length rest
            (dict_set arrays feature_name (np_empty length feature_type))
      end
  end.

Record Decoding := {
  np_cache : list (string * DenseArray);
  d_feature_length : gmap string nat;
  last_feature_name : option (option string)
}.

(** [np_cache[feature_name][d_feature_length[feature_name]] = data] and the
    increment of the cursor. *)
Definition store_decoded (feature_name : string) (data : PyVal) : M Decoding unit :=
  fun st =>
    match d_feature_length st !! feature_name, dict_get (np_cache st) feature_name with
    | Some cursor, Some arr =>
        if decide (cursor < length (arr_slots arr)) then
          (inr tt,
           {| np_cache :=
                dict_set (np_cache st) feature_name
                  {| arr_dtype := arr_dtype arr; arr_shape := arr_shape arr;
                     arr_slots := <[cursor := Some data]> (arr_slots arr) |};
              d_feature_length := <[feature_name := S cursor]> (d_feature_length st);
              last_feature_name := last_feature_name st |})
        else (inl IndexError, st)
    | _, _ => (inl (KeyError feature_name), st)
    end.

(** [packet.decode()] *)
Definition packet_decode (b : Body) : Exn + list VideoFrame :=
  match b with
  | BVideo f => inr [f]
  | BEmpty => inr []
  | BPickle _ => inl InvalidDataError
  end.

(** [frame.to_ndarray(format=...)] *)
Definition to_ndarray (f : VideoFrame) (format : string) : ndarray :=
  {| nd_dtype := "uint8";
     nd_shape := if String.eqb format "gray" then [fr_height f; fr_width f]
                 else [fr_height f; fr_width f; 3%N];
     nd_data := if String.eqb (fr_format f) format then fr_samples f
                else reformat (fr_format f) format (fr_samples f) |}.

(** [array.reshape(shape)] *)
Definition reshape (a : ndarray) (sh : list N) : Exn + ndarray :=
  if decide (shape_size sh = N.of_nat (length (nd_data a))) then
    inr {| nd_dtype := nd_dtype a; nd_shape := sh; nd_data := nd_data a |}
  else inl (ValueError "cannot reshape array").

(** What the reader makes of one decoded frame. *)
Definition decode_frame (feature_type : FeatureType) (frame : VideoFrame)
  : Exn + PyVal :=
  let a := if String.eqb (dtype feature_type) "float32"
           then to_ndarray frame "gray"
           else to_ndarray frame "rgb24" in
  match reshape a (shape feature_type) with
  | inl e => inl e
  | inr data => inr (VArr data)
  end.

Definition set_last (n : option string) : M Decoding unit :=
  modify (fun st =>
    {| np_cache := np_cache st; d_feature_length := d_feature_length st;
       last_feature_name := Some n |}).

Definition body_is_empty (b : Body) : bool :=
  match b with BEmpty => true | _ => false end.

Definition decode_packet (ss : list Stream) (packet : Packet) : M Decoding unit :=
  match ss !! pkt_stream packet with
  | None => raise IndexError
  | Some stream =>
      let feature_name := dict_get (metadata stream) "FEATURE_NAME" in
      set_last feature_name ;;;
      match feature_name with
      | None => ret tt
      | Some feature_name =>
          feature_type <- lift (FeatureType_from_str
                                  (dict_get (metadata stream) "FEATURE_TYPE")) ;;
          let feature_codec := codec_name stream in
          if String.eqb feature_codec rawvideo then
            if body_is_empty (pkt_body packet) then ret tt
            else
              data <- lift (pickle_loads (pkt_body packet)) ;;
              store_decoded feature_name data
          else
            frames <- lift (packet_decode (pkt_body packet)) ;;
            for_each frames (fun frame =>
              data <- lift (decode_frame feature_type frame) ;;
              store_decoded feature_name data)
      end
  end.

(** The debug line after the loop reads [d_feature_length[feature_name]]
    with the name the loops left in [feature_name]. *)
Definition last_length : M Decoding unit :=
  st <- get ;;
  match last_feature_name st with
  | None => raise UnboundLocalError
  | Some None => raise (KeyError "None")
  | Some (Some n) =>
      if bool_decide (is_Some (d_feature_length st !! n)) then ret tt
      else raise (KeyError n)
  end.

Definition _load_from_container : M Env (list (string * DenseArray)) :=
  p <- self_get path ;;
  container_to_get_length <- in_world (av_open_r p) ;;
  first <- lift (match streams container_to_get_length !! 0 with
                 | Some s => inr s
                 | None => inl IndexError
                 end) ;;
  let length := _get_length_of_stream container_to_get_length first in
  in_world (container_close container_to_get_length) ;;;
  container <- in_world (av_open_r p) ;;
  let ss := streams container in
  arrays <- preallocate length ss [] ;;
  let named := omap (fun s => dict_get (metadata s) "FEATURE_NAME") ss in
  r <- run_local
         (for_each (demux container (map index ss)) (decode_packet ss) ;;;
          last_length)
         {| np_cache := arrays;
            d_feature_length := list_to_map (map (fun n => (n, 0)) named);
            last_feature_name :=
              option_map (fun s => dict_get (metadata s) "FEATURE_NAME") (last ss) |} ;;
  in_world (container_close container) ;;;
  ret (np_cache (snd r)).

(** ** The decoded cache *)

Definition py_str (v : option PyVal) : string :=
  match v with
  | Some (VStr s) => s
  | Some VNone | None => "None"
  | Some v => py_repr v
  end.

(** The components of an HDF5 path: the name split at [/], empty components
    dropped. *)
Fixpoint split_on (sep : ascii) (s cur : string) : list string :=
  match s with
  | EmptyString => [cur]
  | String c rest =>
      if Ascii.eqb c sep then cur :: split_on sep rest EmptyString
      else split_on sep rest (cur +:+ String c EmptyString)
  end.

Definition h5_components (name : string) : list string :=
  filter (fun x => x ≠ EmptyString) (split_on "/" name EmptyString).

(** [group.create_dataset(name, data=data)]: the groups on the way are
    created; a name that is taken, or that passes through a dataset, is
    refused. *)
Fixpoint h5_insert (comps : list string) (a : DenseArray)
    (g : list (string * Tree)) : Exn + list (string * Tree) :=
  match comps with
  | [] => inl (ValueError "no name")
  | [k] =>
      match dict_get g k with
      | Some _ => inl (ValueError "name already exists")
      | None => inr (g ++ [(k, Leaf a)])
      end
  | k :: rest =>
      match dict_get g k with
      | None =>
          match h5_insert rest a [] with
          | inl e => inl e
          | inr sub => inr (g ++ [(k, Node sub)])
          end
      | Some (Node children) =>
          match h5_insert rest a children with
          | inl e => inl e
          | inr sub => inr (dict_set g k (Node sub))
          end
      | Some (Leaf _) => inl (ValueError "not a group")
      end
  end.

Definition create_dataset (name : string) (data : DenseArray)
  : M (list (string * Tree)) unit :=
  fun g =>
    match h5_insert (h5_components name) data g with
    | inl e => (inl e, g)
    | inr g' => (inr tt, g')
    end.

(** The state of [_write_to_cache]: the arrays of [np_cache], which the
    loop coerces in place, and the file being written. *)
Record CacheWrite := {
  cw_arrays : list (string * DenseArray);
  cw_file : list (string * Tree)
}.

Definition on_cw_file {A} (m : M (list (string * Tree)) A) : M CacheWrite A :=
  fun st =>
    let '(r, g) := m (cw_file st) in
    (r, {| cw_arrays := cw_arrays st; cw_file := g |}).

(** [for i in range(len(data)): data[i] = str(data[i])] *)
Definition coerce_to_str (a : DenseArray) : DenseArray :=
  {| arr_dtype := arr_dtype a; arr_shape := arr_shape a;
     arr_slots := map (fun x => Some (VStr (py_str x))) (arr_slots a) |}.

Definition write_feature (feature_name : string) : M CacheWrite unit :=
  st <- get ;;
  match dict_get (cw_arrays st) feature_name with
  | None => raise (KeyError feature_name)
  | Some data =>
      if String.eqb (arr_dtype data) "object" then
        let data := coerce_to_str data in
        put {| cw_arrays := dict_set (cw_arrays st) feature_name data;
               cw_file := cw_file st |} ;;;
        try_except (on_cw_file (create_dataset feature_name data))
          (fun _ => ret tt)
      else on_cw_file (create_dataset feature_name data)
  end.

(** [_write_to_cache]: the file is created when it is opened for writing,
    and holds the datasets created before a raise.  The arrays are coerced
    in place, so the caller sees them as the loop left them, also after a
    raise: they are returned next to the outcome. *)
Definition _write_to_cache (arrays : list (string * DenseArray))
  : M Env ((Exn + unit) * list (string * DenseArray)) :=
  name <- self_get cache_file_name ;;
  in_world (modify (set_fs (insert name (H5File [])))) ;;;
  let '(r, st) := for_each (map fst arrays) write_feature
                    {| cw_arrays := arrays; cw_file := [] |} in
  in_world (modify (set_fs (insert name (H5File (cw_file st))))) ;;;
  ret (r, cw_arrays st).

(** Modelled from the spec: [recursively_read_hdf5_group] is part of
    [robodm/utils.py], which is not among the sources.  It traverses the
    hierarchy and materialises each dataset as a dense array, a group as a
    nested map. *)
Fixpoint recursively_read_hdf5_group (g : Tree) : Tree :=
  match g with
  | Leaf a => Leaf a
  | Node children =>
      Node ((fix read (l : list (string * Tree)) : list (string * Tree) :=
               match l with
               | [] => []
               | (k, v) :: rest => (k, recursively_read_hdf5_group v) :: read rest
               end) children)
  end.

(** [h5py.File(name, "r")] *)
Definition h5_open_r (name : string) : M World (list (string * Tree)) :=
  f <- gets (fun w => fs w !! name) ;;
  match f with
  | Some (H5File root) => ret root
  | Some (MkvFile _ _ _) => raise InvalidDataError
  | None => raise (FileNotFoundError name)
  end.

(** ** [load] *)

Inductive Loaded :=
| LNumpy (d : list (string * Tree))
| LHdf5 (root : list (string * Tree))
| LName (s : string)
| LTensor (d : list (string * Tree)).

(** [_convert_h5_cache_to_tensor]: a dataset becomes a tensor, a group a
    map of the tensors of its datasets; a group inside a group is not a
    tensor. *)
Fixpoint tensors_of_group (l : list (string * Tree)) : Exn + list (string * Tree) :=
  match l with
  | [] => inr []
  | (k, Leaf a) :: rest =>
      match tensors_of_group rest with
      | inl e => inl e
      | inr r => inr ((k, Leaf a) :: r)
      end
  | (_, Node _) :: _ => inl TypeError
  end.

Fixpoint _convert_h5_cache_to_tensor (l out : list (string * Tree))
  : Exn + list (string * Tree) :=
  match l with
  | [] => inr out
  | (k, Leaf a) :: rest => _convert_h5_cache_to_tensor rest (dict_set out k (Leaf a))
  | (k, Node []) :: rest => _convert_h5_cache_to_tensor rest out
  | (k, Node g) :: rest =>
      match tensors_of_group g with
      | inl e => inl e
      | inr sub => _convert_h5_cache_to_tensor rest (dict_set out k (Node sub))
      end
  end.

Definition flat (arrays : list (string * DenseArray)) : list (string * Tree) :=
  map (fun kv => (fst kv, Leaf (snd kv))) arrays.

Definition read_cache : M Env (list (string * Tree)) :=
  name <- self_get cache_file_name ;;
  h5_cache <- in_world (h5_open_r name) ;;
  match recursively_read_hdf5_group (Node h5_cache) with
  | Node d => ret d
  | Leaf _ => raise TypeError
  end.

(** The part of [load] after the cache was filled; [np_cache] is [None] or
    the arrays decoded in this call. *)
Definition load_return (return_type : string)
    (arrays : option (list (string * DenseArray))) : M Env Loaded :=
  if String.eqb return_type "hdf5" then
    name <- self_get cache_file_name ;;
    root <- in_world (h5_open_r name) ;;
    ret (LHdf5 root)
  else if String.eqb return_type "numpy" then
    match arrays with
    | Some (kv :: rest) => ret (LNumpy (flat (kv :: rest)))
    | _ =>
        d <- try_except read_cache
               (fun _ => a <- _load_from_container ;; ret (flat a)) ;;
        ret (LNumpy d)
    end
  else if String.eqb return_type "cache_name" then
    name <- self_get cache_file_name ;;
    ret (LName name)
  else if String.eqb return_type "container" then
    p <- self_get path ;;
    ret (LName p)
  else if String.eqb return_type "tensor" then
    name <- self_get cache_file_name ;;
    h5_cache <- in_world (h5_open_r name) ;;
    output_traj <- lift (_convert_h5_cache_to_tensor h5_cache []) ;;
    ret (LTensor output_traj)
  else raise (ValueError "Invalid return_type").

Definition load (save_to_cache : bool) (return_type : string) : M Env Loaded :=
  name <- self_get cache_file_name ;;
  cached <- in_world (os_path_exists name) ;;
  if cached : bool then load_return return_type None
  else
    arrays <- _load_from_container ;;
    if save_to_cache then
      written <- _write_to_cache arrays ;;
      match fst written with
      | inl _ => ret (LNumpy (flat (snd written)))
      | inr _ => load_return return_type (Some (snd written))
      end
    else load_return return_type (Some arrays).

End Robodm.

(** * The other methods of [Trajectory] *)

Section Methods.

Context {platform : Platform}.

Local Open Scope py_scope.

(** ** [init_feature_streams]

    [feature_spec] is a dict of feature types.  The stream of a feature is
    recorded once [_add_stream_to_container] has returned it; the type of
    the feature is not recorded. *)
Definition init_feature_streams (feature_spec : list (string * FeatureType))
  : M Env unit :=
  for_each feature_spec (fun kv =>
    let feature := fst kv in
    let feature_type := snd kv in
    lossy <- self_get lossy_compression ;;
    let encoding := _get_encoding_of_feature lossy VNone (Some feature_type) in
    s <- on_container_file
           (_add_stream_to_container feature encoding feature_type) ;;
    self_set (fun t =>
      set_feature_name_to_stream (<[feature := s]> (feature_name_to_stream t)) t)).

(** ** [__getitem__]

    [self.trajectory_data = self.load()]: [load] is called with its default
    arguments, for which it returns a map; the cache name and the path,
    which other return types give, are not data. *)
Definition as_data (r : Loaded) : option Tree :=
  match r with
  | LNumpy d | LHdf5 d | LTensor d => Some (Node d)
  | LName _ => None
  end.

Definition __getitem__ (key : string) : M Env Tree :=
  data <- self_get trajectory_data ;;
  match data with
  | None =>
      r <- load true "numpy" ;;
      self_set (set_trajectory_data (as_data r))
  | Some _ => ret tt
  end ;;;
  data <- self_get trajectory_data ;;
  match data with
  | Some (Node d) =>
      match dict_get d key with
      | Some v => ret v
      | None => raise (KeyError key)
      end
  | Some (Leaf _) => raise IndexError
  | None => raise TypeError
  end.

(** ** [to_hdf5]

    [if not self.trajectory_data]: [None] and the empty map are false.  The
    map [load] returns is dropped. *)
Definition is_falsy (data : option Tree) : bool :=
  match data with
  | None | Some (Node []) => true
  | Some _ => false
  end.

Definition to_hdf5 (path : string) : M Env unit :=
  data <- self_get trajectory_data ;;
  (if is_falsy data then load true "numpy" ;;; ret tt else ret tt) ;;;
  name <- self_get cache_file_name ;;
  in_world (os_rename name path).

(** ** [_load_from_cache] *)
Definition _load_from_cache : M Env (list (string * Tree)) :=
  name <- self_get cache_file_name ;;
  in_world (h5_open_r name).

End Methods.

(** * Specification

    The predicates the properties below are stated with. *)

Section Specification.

Context {platform : Platform}.

Local Open Scope py_scope.

(** ** The writer's invariant *)

Definition raw_stream (owner i : nat) (name ty : string) : Stream :=
  {| st_owner := owner; index := i; codec_name := rawvideo; width := None;
     height := None; options := [];
     metadata := [("FEATURE_NAME", name); ("FEATURE_TYPE", ty)];
     time_base := Some (1, 1000)%Z; pending := [] |}.

Fixpoint raw_streams (owner k : nat) (descr : list (string * string))
  : list Stream :=
  match descr with
  | [] => []
  | (n, ty) :: rest => raw_stream owner k n ty :: raw_streams owner (S k) rest
  end.

(** A packet of the capture phase: a pickled value with both timestamps,
    in one of the [n] streams. *)
Definition raw_packet (n : nat) (p : Packet) : Prop :=
  pkt_stream p < n ∧ is_Some (pkt_pts p) ∧ pkt_dts p = pkt_pts p
  ∧ ∃ v, pkt_body p = BPickle v.

(** The state of a writer between two calls: the live container [c] holds
    one [rawvideo] stream per feature of [descr], a list of feature names
    with the textual form of their types, in the order of their first
    write. *)
Record writer_ok (e : Env) (descr : list (string * string)) (c : Container)
  : Prop := {
  ok_open : is_closed (self e) = false;
  ok_live : container_file (self e) = Some c;
  ok_mode : c_mode c = "w";
  ok_path : c_path c = path (self e);
  ok_not_closed : c_closed c = false;
  ok_streams : streams c = raw_streams (c_id c) 0 descr;
  ok_packets : Forall (raw_packet (length descr)) (packets c);
  ok_known : ∀ f s, feature_name_to_stream (self e) !! f = Some s →
      ∃ owner i ty, s = raw_stream owner i f ty ∧ descr !! i = Some (f, ty);
  ok_named : ∀ i n ty, descr !! i = Some (n, ty) →
      is_Some (feature_name_to_stream (self e) !! n)
      ∧ is_Some (feature_name_to_feature_type (self e) !! n)
}.

(** The trajectory after [close]. *)
Definition closed_self (t : Trajectory) : Trajectory :=
  set_is_closed true (set_container_file None (set_trajectory_data None t)).

Definition tick_world (f : gmap string File → gmap string File) (n : nat)
    (w : World) : World :=
  {| fs := f (fs w); tick := n + tick w; next_id := next_id w |}.

(** What a call of the writer leaves as it was. *)
Record unchanged (e e' : Env) : Prop := {
  un_path : path (self e') = path (self e);
  un_sep : feature_name_separator (self e') = feature_name_separator (self e);
  un_cache : cache_file_name (self e') = cache_file_name (self e);
  un_start : start_time (self e') = start_time (self e);
  un_mode : mode (self e') = mode (self e);
  un_lossy : lossy_compression (self e') = lossy_compression (self e);
  un_tick : tick (world e) ≤ tick (world e')
}.

(** The packet [add] muxes for a value. *)
Definition pickled (i : nat) (stamp : Z) (data : PyVal) : Packet :=
  {| pkt_pts := Some stamp; pkt_dts := Some stamp;
     pkt_time_base := Some (1, 1000)%Z; pkt_stream := i;
     pkt_body := BPickle data |}.

(** The part of [add] after the stream of the feature exists. *)
Definition add_tail (feature : string) (data : PyVal) (timestamp : option Z)
  : M Env unit :=
  known <- self_get feature_name_to_stream ;;
  match known !! feature with
  | None => raise (KeyError feature)
  | Some stream =>
      timestamp <- match timestamp with
                   | None => _get_current_timestamp
                   | Some ts => ret ts
                   end ;;
      let r := _encode_frame data stream timestamp in
      store_stream feature (snd r) ;;;
      for_each (fst r) (fun packet => on_container_file (mux packet))
  end.

(** The timestamp [add] uses: the one it is given, or a reading of the
    clock made during the call. *)
Definition stamp_of (e e' : Env) (timestamp : option Z) (stamp : Z) : Prop :=
  match timestamp with
  | Some ts => stamp = ts
  | None => ∃ k, tick (world e) ≤ k < tick (world e')
                 ∧ stamp = (wall_clock k - start_time (self e))%Z
  end.

(** The stream the close-time transcoder makes for a feature of type [ft]
    whose stream carried the type string [ty]. *)
Definition transcoded_stream (lossy : bool) (owner k : nat) (n ty : string)
    (ft : FeatureType) : Stream :=
  let enc := _get_encoding_of_feature lossy VNone (Some ft) in
  {| st_owner := owner; index := k; codec_name := enc;
     width := if is_video enc then shape ft !! 1 else None;
     height := if is_video enc then shape ft !! 0 else None;
     options := if String.eqb enc av1 then [("g", "2"); ("crf", "23")] else [];
     metadata := [("FEATURE_NAME", n); ("FEATURE_TYPE", ty)];
     time_base := Some (1, 1000)%Z; pending := [] |}.

Fixpoint transcoded_streams (lossy : bool) (ftypes : gmap string FeatureType)
    (owner k : nat) (descr : list (string * string)) : list Stream :=
  match descr with
  | [] => []
  | (n, ty) :: rest =>
      match ftypes !! n with
      | Some ft =>
          transcoded_stream lossy owner k n ty ft
            :: transcoded_streams lossy ftypes owner (S k) rest
      | None => []
      end
  end.

(** Every stream sits at the position its index names. *)
Definition indexed (ss : list Stream) : Prop :=
  ∀ k s, ss !! k = Some s → index s = k.

(** The packets the transcoder muxes while it handles the packet [p]: they
    belong to the stream of [p] and carry its pts as pts and dts. *)
Definition reencoded (p : Packet) (new : list Packet) : Prop :=
  Forall (fun q => pkt_stream q = pkt_stream p ∧ pkt_pts q = pkt_pts p
                   ∧ pkt_dts q = pkt_pts p) new.

(** The packets muxed when the encoders of [n] streams are drained at [ts]. *)
Definition drained (n : nat) (ts : Z) (new : list Packet) : Prop :=
  Forall (fun q => pkt_stream q < n ∧ pkt_pts q = Some ts
                   ∧ pkt_dts q = Some ts) new.

(** The packets of a transcoded file, from the packets [src] of the capture
    phase: what was muxed for each packet in turn, then what the drain at
    [ts] gave. *)
Definition transcoded_packets (src : list Packet) (n : nat) (ts : Z)
    (out : list Packet) : Prop :=
  ∃ groups fl,
    Forall2 reencoded src groups ∧ drained n ts fl ∧ out = concat groups ++ fl.

(** Two states of a container that differ in the muxed packets and in
    what its encoders hold back only. *)
Record same_shell (c c' : Container) : Prop := {
  sh_id : c_id c' = c_id c;
  sh_path : c_path c' = c_path c;
  sh_mode : c_mode c' = c_mode c;
  sh_closed : c_closed c' = c_closed c;
  sh_streams : map (set_pending []) (streams c') = map (set_pending []) (streams c)
}.

(** The packets a list of leaves gives: one pickled value per leaf, at the
    same timestamp, each in the stream of its feature. *)
Definition leaf_packets (descr : list (string * string)) (ts : Z)
    (l : list (string * PyVal)) (news : list Packet) : Prop :=
  Forall2 (fun kv q => ∃ i ty, q = pickled i ts kv.2
                               ∧ descr !! i = Some (kv.1, ty)) l news.

(** ** Programs of the writer

    The calls a client makes on a trajectory opened for writing.  A client
    may catch what a call raises and go on: the next call starts from the
    state the raise left. *)
Inductive Call :=
| CallAdd (feature : string) (data : PyVal) (timestamp : option Z)
| CallAddByDict (data : PyVal) (timestamp : option Z).

Definition call (k : Call) : M Env unit :=
  match k with
  | CallAdd feature data timestamp => add feature data timestamp
  | CallAddByDict data timestamp => add_by_dict data timestamp
  end.

Fixpoint run_calls (l : list Call) (e : Env) : Env :=
  match l with
  | [] => e
  | k :: rest => run_calls rest (snd (call k e))
  end.

(** The call leaves the timestamp to the clock. *)
Definition clock_only (k : Call) : Prop :=
  match k with
  | CallAdd _ _ timestamp => timestamp = None
  | CallAddByDict _ timestamp => timestamp = None
  end.

(** The state of a trajectory that [__init__] returned in the world [w]. *)
Definition opened (path mode cache_dir : string) (lossy : bool) (sep : string)
    (w : World) (e : Env) : Prop :=
  ∃ t w', __init__ path mode cache_dir lossy sep w = (inr t, w')
          ∧ e = {| world := w'; self := t |}.

(** The clock does not run backwards. *)
Definition monotone_clock : Prop :=
  ∀ i j, i ≤ j → (wall_clock i ≤ wall_clock j)%Z.

(** [p] is muxed before [q] and its pts is not above the pts of [q]. *)
Definition pts_le (p q : Packet) : Prop :=
  ∃ a b, pkt_pts p = Some a ∧ pkt_pts q = Some b ∧ (a ≤ b)%Z.

(** The pts of the packets do not decrease in mux order. *)
Definition ascending (ps : list Packet) : Prop := StronglySorted pts_le ps.

(** The packets of the stream [i], in mux order. *)
Definition of_stream (i : nat) (ps : list Packet) : list Packet :=
  filter (fun p => pkt_stream p = i) ps.

(** Every packet has a dts equal to its pts, which is one of the first
    [b + 1] readings of the clock, counted in milliseconds from the start
    of the trajectory. *)
Definition clocked (start : Z) (b : nat) (ps : list Packet) : Prop :=
  Forall (fun p => pkt_dts p = pkt_pts p
                   ∧ ∃ k, k ≤ b ∧ pkt_pts p = Some (wall_clock k - start)%Z) ps.

(** What a stream of the writer carries: both metadata keys, the time base
    1/1000 and, with a video codec, the width and the height of the type
    [ftypes] records for its feature. *)
Definition stream_wellformed (ftypes : gmap string FeatureType) (s : Stream)
  : Prop :=
  ∃ n ty ft,
    dict_get (metadata s) "FEATURE_NAME" = Some n
    ∧ dict_get (metadata s) "FEATURE_TYPE" = Some ty
    ∧ time_base s = Some (1, 1000)%Z
    ∧ ftypes !! n = Some ft
    ∧ (is_video (codec_name s) = true →
       ∃ h w, shape ft !! 0 = Some h ∧ shape ft !! 1 = Some w
              ∧ width s = Some w ∧ height s = Some h).

(** [r] is the step [i] of the columns: it maps every key to the [i]-th
    entry of the sequence of the key. *)
Definition row (columns : list (string * PyVal)) (i : nat)
    (r : list (string * PyVal)) : Prop :=
  Forall2 (fun kv kx => kx.1 = kv.1 ∧ py_getitem kv.2 i = inr kx.2) columns r.

(** The calls [add_by_dict(step)] for a list of steps. *)
Definition steps (rows : list (list (string * PyVal))) : list Call :=
  map (fun r => CallAddByDict (VDict r) None) rows.

(** The world after [__init__] opened a trajectory for writing. *)
Definition created (file_path : string) (w : World) : World :=
  {| fs := <[file_path := MkvFile [] [] false]> (fs w);
     tick := S (tick w); next_id := S (next_id w) |}.

(** Every packet has a dts equal to its pts, a reading of the clock counted
    in milliseconds from [start], and within each stream the pts do not
    decrease in mux order. *)
Definition stamped (start : Z) (ps : list Packet) : Prop :=
  Forall (fun p => pkt_dts p = pkt_pts p
                   ∧ ∃ k, pkt_pts p = Some (wall_clock k - start)%Z) ps
  ∧ ∀ i, ascending (of_stream i ps).

(** The packets of a writer carry readings of the clock made before the
    current one, and their pts do not decrease in mux order. *)
Definition timed (e : Env) (ps : list Packet) : Prop :=
  ∃ b, b < tick (world e) ∧ clocked (start_time (self e)) b ps ∧ ascending ps.

(** An array the reader made for [n] steps: [n] slots, and [n] as the
    first entry of its shape. *)
Definition sized (n : nat) (a : DenseArray) : Prop :=
  length (arr_slots a) = n ∧ arr_shape a !! 0 = Some (N.of_nat n).

End Specification.

(** The shape has at least two dimensions and both of the first two are at
    least 100. *)
Definition image_like (sh : list N) : Prop :=
  ∃ d0 d1 rest, sh = d0 :: d1 :: rest ∧ (100 ≤ d0)%N ∧ (100 ≤ d1)%N.


(** * Specification of the reader and of the round trip *)

Section Journal.

Context {platform : Platform}.

(** The values the packets of the stream [i] carry, in mux order. *)
Definition stream_values (i : nat) (ps : list Packet) : list PyVal :=
  omap (fun p =>
          if decide (pkt_stream p = i) then
            match pkt_body p with
            | BPickle v => Some v
            | _ => None
            end
          else None) ps.

(** The type the reader makes of the text in [FEATURE_TYPE]. *)
Definition parsed (ty : string) : FeatureType :=
  match FeatureType_from_str (Some ty) with
  | inr ft => ft
  | inl _ => {| dtype := EmptyString; shape := [] |}
  end.

(** The array of [n] steps of type [ft] whose first slots hold [vals], the
    others nothing. *)
Definition filled (n : nat) (ft : FeatureType) (vals : list PyVal) : DenseArray :=
  {| arr_dtype := arr_dtype (np_empty n ft);
     arr_shape := arr_shape (np_empty n ft);
     arr_slots := map Some vals ++ replicate (n - length vals) None |}.

(** The arrays of a file whose streams are those of [descr]: one array per
    stream, under the name of its feature, with the values of its packets
    in order. *)
Definition decoded_arrays (n : nat) (descr : list (string * string))
    (ps : list Packet) : list (string * DenseArray) :=
  imap (fun i nt => (nt.1, filled n (parsed nt.2) (stream_values i ps))) descr.

(** The leaves a call writes: the feature and value of an [add], the
    flattened map of an [add_by_dict]; a refused call writes nothing. *)
Definition written_leaves (sep : string) (k : Call) : list (string * PyVal) :=
  match k with
  | CallAdd feature data _ => if is_dict data then [] else [(feature, data)]
  | CallAddByDict (VDict d) _ => _flatten_dict d EmptyString sep
  | CallAddByDict _ _ => []
  end.

(** The features in the order of their first write. *)
Definition first_seen (keys : list string) : list string :=
  fold_left (fun acc k => if decide (k ∈ acc) then acc else acc ++ [k]) keys [].

(** The values written for the feature [k], in order. *)
Definition values_of (k : string) (leaves : list (string * PyVal)) : list PyVal :=
  omap (fun kv => if decide (kv.1 = k) then Some kv.2 else None) leaves.

(** The streams of the written [leaves]: one per feature, in the order of
    their first write, each with the text of the type of the first value
    written for it. *)
Definition descr_of (leaves : list (string * PyVal)) : list (string * string) :=
  map (fun k => (k, FeatureType_str
                      (from_data (default VNone (head (values_of k leaves))))))
    (first_seen leaves.*1).

(** Each leaf gave one packet: the pickled value, in the stream of its
    feature. *)
Definition written (descr : list (string * string))
    (leaves : list (string * PyVal)) (ps : list Packet) : Prop :=
  Forall2 (fun kv q => ∃ i ty ts, q = pickled i ts kv.2
                                  ∧ descr !! i = Some (kv.1, ty)) leaves ps.

(** The state of a writer that has written [leaves]. *)
Record journal (e : Env) (c : Container) (leaves : list (string * PyVal))
  : Prop := {
  j_ok : writer_ok e (descr_of leaves) c;
  j_written : written (descr_of leaves) leaves (packets c);
  j_types : ∀ n ft, feature_name_to_feature_type (self e) !! n = Some ft →
      ∃ v, (n, v) ∈ leaves ∧ ft = from_data v
}.

(** The arrays a reader returns for the written [leaves]: one per feature,
    in the order of their first write, each as long as the sequence of the
    first feature. *)
Definition arrays_of_leaves (leaves : list (string * PyVal))
  : list (string * DenseArray) :=
  let n := length (values_of (default EmptyString (head leaves.*1)) leaves) in
  map (fun nt => (nt.1, filled n (parsed nt.2) (values_of nt.1 leaves)))
    (descr_of leaves).

(** The state of the decoding loop of the reader after the packets [pre]
    of a file with the streams of [descr], for arrays of [n] steps. *)
Record decoding_of (n : nat) (descr : list (string * string))
    (pre : list Packet) (st : Decoding) : Prop := {
  dec_cache : np_cache st = decoded_arrays n descr pre;
  dec_cursor : ∀ i name ty, descr !! i = Some (name, ty) →
      d_feature_length st !! name = Some (length (stream_values i pre));
  dec_last : ∃ name, last_feature_name st = Some (Some name) ∧ name ∈ descr.*1
}.

(** The text of every type of [descr] can be read back. *)
Definition readable (descr : list (string * string)) : Prop :=
  Forall (fun nt => ∃ ft, FeatureType_from_str (Some nt.2) = inr ft) descr.

(** The streams [init_feature_streams] makes for a map of feature types:
    each with the codec the selector chooses for its type. *)
Fixpoint declared_streams (lossy : bool) (owner k : nat)
    (spec : list (string * FeatureType)) : list Stream :=
  match spec with
  | [] => []
  | (n, ft) :: rest =>
      transcoded_stream lossy owner k n (FeatureType_str ft) ft
        :: declared_streams lossy owner (S k) rest
  end.

End Journal.

(** * Concrete inputs

    A platform and the programs the concrete statements below run. *)

Definition steady_clock (k : nat) : Z := (1000 + 10 * Z.of_nat k)%Z.

Definition demo : Platform :=
  {| wall_clock := steady_clock;
     path_hash := fun _ => "5f3a";
     codec_delay := fun c => if String.eqb c av1 then 2 else 0;
     codec_samples := fun _ l => l;
     astype_uint8 := fun _ z => (z mod 256)%Z;
     mul255_astype_uint8 := fun z => (z mod 256)%Z;
     reformat := fun _ _ l => l;
     py_repr := fun _ => EmptyString |}.

(** A platform with any clock, codecs and conversions, that names the cache
    file of every path [5f3a.cache]. *)
Definition platform_with (clock : nat → Z) (delay : string → nat)
    (samples : string → list Z → list Z) (cast : string → Z → Z)
    (scale : Z → Z) (convert : string → string → list Z → list Z)
    (repr : PyVal → string) : Platform :=
  {| wall_clock := clock; path_hash := fun _ => "5f3a"; codec_delay := delay;
     codec_samples := samples; astype_uint8 := cast;
     mul255_astype_uint8 := scale; reformat := convert; py_repr := repr |}.

Definition empty_world : World := {| fs := ∅; tick := 0; next_id := 0 |}.

(** A Python float. *)
Definition py_float (x : Z) : PyVal :=
  VArr {| nd_dtype := "float64"; nd_shape := []; nd_data := [x] |}.

Definition float_array (length : nat) (slots : list (option PyVal)) : DenseArray :=
  {| arr_dtype := "float64"; arr_shape := [N.of_nat length]; arr_slots := slots |}.

(** A Python int. *)
Definition py_int (x : Z) : PyVal :=
  VArr {| nd_dtype := "int64"; nd_shape := []; nd_data := [x] |}.

(** [{"x": [1, 2, 3], "y": [4, 5]}] *)
Definition ragged_columns : list (string * PyVal) :=
  [("x", VList [py_int 1; py_int 2; py_int 3]);
   ("y", VList [py_int 4; py_int 5])].

(** [{"x": [1, 2], "y": [3, 4]}] *)
Definition even_columns : list (string * PyVal) :=
  [("x", VList [py_int 1; py_int 2]); ("y", VList [py_int 3; py_int 4])].

(** A step with a state vector and a nested pose, twice. *)
Definition two_steps : list Call :=
  [CallAddByDict (VDict [("state", py_float 1);
                         ("pose", VDict [("pos", py_float 2)])]) None;
   CallAdd "state" (py_float 3) None].

(** A lossless video stream for a 480 x 640 feature. *)
Definition depth_stream : Stream :=
  {| st_owner := 0; index := 0; codec_name := ffv1;
     width := Some 640%N; height := Some 480%N; options := [];
     metadata := [("FEATURE_NAME", "depth");
                  ("FEATURE_TYPE", "dtype=float32; shape=(480, 640)")];
     time_base := Some (1, 1000)%Z; pending := [] |}.

(** A trajectory opened for reading at a path, as [__init__] leaves it
    when the clock reads [start]. *)
Definition reader (file_path : string) (start : Z) : Trajectory :=
  {| path := file_path; feature_name_separator := "/";
     cache_file_name := default_cache_dir +:+ "5f3a" +:+ ".cache";
     feature_name_to_stream := ∅; feature_name_to_feature_type := ∅;
     trajectory_data := None; start_time := start; mode := "r";
     stream_id_to_info := ∅; is_closed := false; lossy_compression := true;
     container_file := None |}.

(** A container file with the streams [a] and [b]: four values of [a], one
    of [b]. *)
Definition late_file : File :=
  MkvFile
    [raw_stream 0 0 "a" "dtype=float64; shape=()";
     raw_stream 0 1 "b" "dtype=float64; shape=()"]
    [pickled 0 10 (py_float 1); pickled 0 20 (py_float 2);
     pickled 0 30 (py_float 3); pickled 0 40 (py_float 4);
     pickled 1 40 (py_float 5)]
    true.

(** A file store that holds [late_file] and no cache. *)
Definition late_world : World :=
  {| fs := {[ "/tmp/robodm/late.vla" := late_file ]}; tick := 0; next_id := 0 |}.

(** A cache file with one dataset. *)
Definition cache_tree : list (string * Tree) :=
  [("a", Leaf (float_array 1 [Some (py_float 1)]))].

(** A file store that holds a cache file and no container, and one whose
    cache file is not an HDF5 file. *)
Definition cached_world : World :=
  {| fs := {[ default_cache_dir +:+ "5f3a" +:+ ".cache" := H5File cache_tree ]};
     tick := 0; next_id := 0 |}.

Definition broken_cache_world : World :=
  {| fs := <[ default_cache_dir +:+ "5f3a" +:+ ".cache" := MkvFile [] [] true ]>
             (fs late_world);
     tick := 0; next_id := 0 |}.

Section Programs.

Context {platform : Platform}.

Local Open Scope py_scope.

(** Open for reading and [load()]. *)
Definition reopen_and_load (file_path : string) : M World Loaded :=
  traj <- __init__ file_path "r" default_cache_dir true "/" ;;
  r <- with_self traj (load true "numpy") ;;
  ret (fst r).

(** Three steps with the feature [a], a fourth step with [a] and [b], close,
    reopen and [load()]. *)
Definition late_feature (x1 x2 x3 x4 x5 : Z) : M World Loaded :=
  from_list_of_dicts
    [VDict [("a", py_float x1)]; VDict [("a", py_float x2)];
     VDict [("a", py_float x3)];
     VDict [("a", py_float x4); ("b", py_float x5)]]
    "/tmp/robodm/late.vla" true ;;;
  reopen_and_load "/tmp/robodm/late.vla".

(** Open for reading and [load()] twice. *)
Definition load_twice (file_path : string) : M World (Loaded * Loaded) :=
  traj <- __init__ file_path "r" default_cache_dir true "/" ;;
  r1 <- with_self traj (load true "numpy") ;;
  r2 <- with_self (snd r1) (load true "numpy") ;;
  ret (fst r1, fst r2).

(** One step with the nested feature [pose] / [pos], close, reopen and
    [load()] twice. *)
Definition nested_feature (x : Z) : M World (Loaded * Loaded) :=
  from_list_of_dicts [VDict [("pose", VDict [("pos", py_float x)])]]
    "/tmp/robodm/pose.vla" true ;;;
  load_twice "/tmp/robodm/pose.vla".

(** [{"pose": {"pos": [p1, p2], "rot": [r1, r2]}, "name": ["left", "right"]}] *)
Definition nested_columns (p1 p2 r1 r2 : Z) : list (string * PyVal) :=
  [("pose", VDict [("pos", VList [py_float p1; py_float p2]);
                   ("rot", VList [py_float r1; py_float r2])]);
   ("name", VList [VStr "left"; VStr "right"])].

(** [from_dict_of_lists], reopen and [load()]. *)
Definition columns_roundtrip (columns : list (string * PyVal)) : M World Loaded :=
  from_dict_of_lists columns "/tmp/robodm/cols.vla" "/" true ;;;
  reopen_and_load "/tmp/robodm/cols.vla".

(** Two calls of [add] on one feature with the timestamps 15 and 5, and
    [close]. *)
Definition supplied_timestamps : M World Trajectory :=
  traj <- __init__ "/tmp/robodm/ts.vla" "w" default_cache_dir true "/" ;;
  r <- with_self traj
         (add "a" (py_float 1) (Some 15%Z) ;;;
          add "a" (py_float 2) (Some 5%Z) ;;;
          close true) ;;
  ret (snd r).

End Programs.

(** ** More inputs *)

(** One value of [a], then two of [b]. *)
Definition uneven_steps : list Call :=
  [CallAdd "a" (py_float 1) None; CallAdd "b" (py_float 2) None;
   CallAdd "b" (py_float 3) None].

(** Calls that write nothing: an empty step and a map handed to [add]. *)
Definition idle_steps : list Call :=
  [CallAddByDict (VDict []) None; CallAdd "x" (VDict []) None].

(** A step with a nested pose and an empty group. *)
Definition nested_step : list (string * PyVal) :=
  [("pose", VDict [("pos", py_float 1); ("rot", py_float 2)]);
   ("extra", VDict []);
   ("grip", py_float 3)].

(** A lossless video stream for a 100 x 100 colour image. *)
Definition colour_stream : Stream :=
  {| st_owner := 0; index := 0; codec_name := ffv1;
     width := Some 100%N; height := Some 100%N; options := [];
     metadata := [("FEATURE_NAME", "image");
                  ("FEATURE_TYPE", "dtype=uint8; shape=(100, 100, 3)")];
     time_base := Some (1, 1000)%Z; pending := [] |}.

(** A new writer, as [__init__] leaves it on the empty file store. *)
Definition new_writer : Env :=
  {| world := {| fs := {[ "/tmp/robodm/w.vla" := MkvFile [] [] false ]};
                 tick := 1; next_id := 1 |};
     self :=
       {| path := "/tmp/robodm/w.vla"; feature_name_separator := "/";
          cache_file_name := default_cache_dir +:+ "5f3a" +:+ ".cache";
          feature_name_to_stream := ∅; feature_name_to_feature_type := ∅;
          trajectory_data := None; start_time := 1000; mode := "w";
          stream_id_to_info := ∅; is_closed := false;
          lossy_compression := true;
          container_file :=
            Some {| c_id := 0; c_path := "/tmp/robodm/w.vla"; c_mode := "w";
                    streams := []; packets := []; c_closed := false |} |} |}.

(** * Properties *)

Section Properties.

Context {platform : Platform}.

Local Open Scope py_scope.

(** ** The monad *)

Lemma bind_inr {S A B} (m : M S A) (k : A → M S B) s a s' :
  m s = (inr a, s') → bind m k s = k a s'.
Proof. intros H. unfold bind. now rewrite H. Qed.

Lemma bind_inl {S A B} (m : M S A) (k : A → M S B) s e s' :
  m s = (inl e, s') → bind m k s = (inl e, s').
Proof. intros H. unfold bind. now rewrite H. Qed.

Lemma for_each_app {S A} (l1 l2 : list A) (body : A → M S unit) s s' :
  for_each l1 body s = (inr tt, s') →
  for_each (l1 ++ l2) body s = for_each l2 body s'.
Proof.
  revert s. induction l1 as [|x l1 IH]; intros s H; simpl in *.
  - unfold ret in H. now inversion H.
  - unfold bind in *. destruct (body x s) as [[e|[]] s1]; [discriminate|].
    now apply IH.
Qed.

(** ** The codec selector *)

Lemma selector_cases (lossy : bool) (v : PyVal) (ft : FeatureType) :
  (image_like (shape ft) ∧
   _get_encoding_of_feature lossy v (Some ft) = (if lossy then av1 else ffv1))
  ∨ (¬ image_like (shape ft) ∧
     _get_encoding_of_feature lossy v (Some ft) = rawvideo).
Proof.
  unfold _get_encoding_of_feature, image_like.
  destruct (shape ft) as [|d0 [|d1 rest]].
  - right. split; [|reflexivity]. intros (? & ? & ? & ? & _); discriminate.
  - right. split; [|reflexivity]. intros (? & ? & ? & ? & _); discriminate.
  - destruct (N.leb_spec 100 d0) as [H0|H0]; simpl.
    + destruct (N.leb_spec 100 d1) as [H1|H1]; simpl.
      * left. split; [|reflexivity]. now exists d0, d1, rest.
      * right. split; [|reflexivity].
        intros (? & ? & ? & E & _ & ?). inversion E; subst. lia.
    + right. split; [|reflexivity].
      intros (? & ? & ? & E & ? & _). inversion E; subst. lia.
Qed.

(** C2. For every FeatureType and lossy flag the codec selector returns
    the video codec ([av1] when lossy, [ffv1] when not) if and only if the
    shape has at least two dimensions and both of the first two are at
    least 100, and [rawvideo] otherwise; the dtype plays no part.  Shape
    (99, 100, 3) gives [rawvideo], shape (100, 100, 3) gives [ffv1] with
    lossy off and [av1] with lossy on, for every dtype. *)
Theorem codec_selector_boundary (lossy : bool) (v : PyVal) (ft : FeatureType) :
  (_get_encoding_of_feature lossy v (Some ft) = (if lossy then av1 else ffv1)
     ↔ image_like (shape ft))
  ∧ (_get_encoding_of_feature lossy v (Some ft) = rawvideo
       ↔ ¬ image_like (shape ft))
  ∧ (∀ ft', shape ft' = shape ft →
       _get_encoding_of_feature lossy v (Some ft')
       = _get_encoding_of_feature lossy v (Some ft))
  ∧ (∀ dt, _get_encoding_of_feature lossy v
             (Some {| dtype := dt; shape := [99; 100; 3]%N |}) = rawvideo)
  ∧ (∀ dt, _get_encoding_of_feature false v
             (Some {| dtype := dt; shape := [100; 100; 3]%N |}) = ffv1)
  ∧ (∀ dt, _get_encoding_of_feature true v
             (Some {| dtype := dt; shape := [100; 100; 3]%N |}) = av1).
Proof.
  repeat split; try reflexivity.
  - intros E. destruct (selector_cases lossy v ft) as [[H _]|[_ H]]; [done|].
    rewrite H in E. destruct lossy; discriminate.
  - intros H. destruct (selector_cases lossy v ft) as [[_ E]|[N _]]; done.
  - intros E I. destruct (selector_cases lossy v ft) as [[_ H]|[N _]]; [|done].
    rewrite H in E. destruct lossy; discriminate.
  - intros N. destruct (selector_cases lossy v ft) as [[I _]|[_ E]]; done.
  - intros ft' E. unfold _get_encoding_of_feature. now rewrite E.
Qed.

(** ** The streams of a writer *)

Lemma raw_streams_length owner k descr :
  length (raw_streams owner k descr) = length descr.
Proof.
  revert k. induction descr as [|[n ty] rest IH]; intros k; simpl; [done|].
  now rewrite IH.
Qed.

Lemma raw_streams_app owner k d1 d2 :
  raw_streams owner k (d1 ++ d2)
  = raw_streams owner k d1 ++ raw_streams owner (k + length d1) d2.
Proof.
  revert k. induction d1 as [|[n ty] rest IH]; intros k; simpl.
  - now rewrite Nat.add_0_r.
  - rewrite IH. do 3 f_equal. lia.
Qed.

Lemma raw_streams_lookup owner k descr i n ty :
  descr !! i = Some (n, ty) →
  raw_streams owner k descr !! i = Some (raw_stream owner (k + i) n ty).
Proof.
  revert k i. induction descr as [|[n' ty'] rest IH]; intros k i H; [done|].
  destruct i as [|i]; simpl in *.
  - inversion H; subst. now rewrite Nat.add_0_r.
  - rewrite (IH (S k) i H). do 2 f_equal. lia.
Qed.

Lemma raw_streams_lookup_inv owner k descr i s :
  raw_streams owner k descr !! i = Some s →
  ∃ n ty, descr !! i = Some (n, ty) ∧ s = raw_stream owner (k + i) n ty.
Proof.
  revert k i. induction descr as [|[n' ty'] rest IH]; intros k i H; [done|].
  destruct i as [|i]; simpl in *.
  - inversion H; subst. exists n', ty'. now rewrite Nat.add_0_r.
  - destruct (IH (S k) i H) as (n & ty & ? & ->). exists n, ty.
    split; [done|]. f_equal. lia.
Qed.

Lemma raw_streams_index owner k descr :
  map index (raw_streams owner k descr) = seq k (length descr).
Proof.
  revert k. induction descr as [|[n ty] rest IH]; intros k; simpl; [done|].
  now rewrite IH.
Qed.

Lemma stream_encode_raw owner i n ty :
  stream_encode (raw_stream owner i n ty) None = ([], raw_stream owner i n ty).
Proof. reflexivity. Qed.

Lemma flush_stream_raw ts c descr i :
  streams c = raw_streams (c_id c) 0 descr →
  flush_stream ts i c = (inr tt, c).
Proof.
  intros Hs. unfold flush_stream.
  destruct (streams c !! i) as [s|] eqn:E; [|done].
  rewrite Hs in E. apply raw_streams_lookup_inv in E as (n & ty & E & ->).
  rewrite stream_encode_raw. simpl. unfold ret. f_equal.
  destruct c; simpl in *. unfold set_streams; simpl. f_equal.
  apply list_insert_id. rewrite Hs. now apply raw_streams_lookup.
Qed.

Lemma flush_streams_logged_raw ts c descr :
  streams c = raw_streams (c_id c) 0 descr →
  flush_streams_logged ts c = (inr tt, c).
Proof.
  intros Hs. unfold flush_streams_logged, stream_positions, bind, gets.
  generalize (seq 0 (length (streams c))). intros l.
  induction l as [|i l IH]; [done|]. simpl. unfold bind, try_except.
  now rewrite (flush_stream_raw ts c descr i Hs).
Qed.

Lemma flush_streams_raw ts c descr :
  streams c = raw_streams (c_id c) 0 descr →
  flush_streams ts c = (inr tt, c).
Proof.
  intros Hs. unfold flush_streams, stream_positions, bind, gets.
  generalize (seq 0 (length (streams c))). intros l.
  induction l as [|i l IH]; [done|]. simpl. unfold bind.
  now rewrite (flush_stream_raw ts c descr i Hs).
Qed.

Lemma set_pending_raw_streams owner k descr :
  map (set_pending []) (raw_streams owner k descr) = raw_streams owner k descr.
Proof.
  revert k. induction descr as [|[n ty] rest IH]; intros k; simpl; [done|].
  now rewrite IH.
Qed.

(** [close(compact=False)] on a writer reads the clock once, writes the
    streams and packets of the live container to the file with its
    trailer, and marks the trajectory closed. *)
Lemma close_false_ok e descr c :
  writer_ok e descr c →
  close false e =
    (inr tt,
     {| world := tick_world (insert (path (self e))
                   (MkvFile (streams c) (packets c) true)) 1 (world e);
        self := closed_self (self e) |}).
Proof.
  intros [Hopen Hlive Hmode Hpath Hnc Hs Hp Hk Hn].
  destruct e as [w t]. simpl in *.
  unfold close, bind, self_get, gets. simpl. rewrite Hopen.
  unfold _get_current_timestamp, bind, in_world, time_time, self_get, gets.
  simpl. unfold on_container_file at 1. simpl. rewrite Hlive.
  rewrite (flush_streams_logged_raw _ c descr Hs).
  unfold close_container_file, bind, on_container_file, get, in_world,
    container_close, self_set, modify, ret. simpl.
  rewrite Hnc, Hmode. simpl.
  unfold bind, modify, ret. simpl.
  rewrite Hs, set_pending_raw_streams, Hpath.
  unfold tick_world, closed_self, set_fs. simpl.
  destruct t; reflexivity.
Qed.

(** ** The remux of [_on_new_stream] *)

Lemma add_raw_stream n ft c :
  _add_stream_to_container n rawvideo ft c
  = (inr (raw_stream (c_id c) (length (streams c)) n (FeatureType_str ft)),
     set_streams (streams c ++
       [raw_stream (c_id c) (length (streams c)) n (FeatureType_str ft)]) c).
Proof. reflexivity. Qed.

Lemma alter_last {A} (f : A → A) (l : list A) (x : A) :
  alter f (length l) (l ++ [x]) = l ++ [f x].
Proof.
  replace (length l) with (length l + 0) at 1 by lia.
  now rewrite alter_app_r.
Qed.

Lemma remux_stream_raw ftypes d o k n ty ft c :
  ftypes !! n = Some ft →
  length (streams c) = k →
  remux_stream ftypes d (raw_stream o k n ty) c
  = (inr (<[k := k]> d),
     set_streams (streams c ++ [raw_stream (c_id c) k n ty]) c).
Proof.
  intros Hft Hk. unfold remux_stream. simpl. rewrite Hft.
  unfold bind. rewrite add_raw_stream. simpl.
  unfold copy_metadata, modify, ret. simpl. rewrite alter_last. simpl.
  rewrite Hk. unfold raw_stream, set_metadata, set_streams. simpl.
  reflexivity.
Qed.

Lemma fold_remux_raw ftypes o rest : ∀ d pre c,
  (∀ i n ty, rest !! i = Some (n, ty) → is_Some (ftypes !! n)) →
  streams c = raw_streams (c_id c) 0 pre →
  ∃ d',
    fold_streams (remux_stream ftypes) d (raw_streams o (length pre) rest) c
    = (inr d', set_streams (raw_streams (c_id c) 0 (pre ++ rest)) c)
    ∧ ∀ i, d' !! i = if decide (length pre ≤ i < length pre + length rest)
                     then Some i else d !! i.
Proof.
  induction rest as [|[n ty] rest IH]; intros d pre c Hft Hs.
  - exists d. simpl. split.
    + unfold ret. rewrite app_nil_r, <- Hs. now destruct c.
    + intros i. case_decide; [lia|done].
  - simpl. destruct (Hft 0 n ty eq_refl) as [ft Hn].
    unfold bind.
    rewrite (remux_stream_raw ftypes d o (length pre) n ty ft c Hn)
      by (now rewrite Hs, raw_streams_length).
    set (c1 := set_streams _ c).
    destruct (IH (<[length pre := length pre]> d) (pre ++ [(n, ty)]) c1)
      as (d' & E & Hd').
    + intros i n' ty' H. apply (Hft (S i) n' ty' H).
    + subst c1. simpl. rewrite Hs, raw_streams_app. simpl. reflexivity.
    + exists d'. split.
      * rewrite length_app in E. simpl in E.
        replace (length pre + 1) with (S (length pre)) in E by lia.
        rewrite E. subst c1. simpl. rewrite <- app_assoc. simpl.
        now destruct c.
      * intros i. rewrite Hd'. rewrite length_app. simpl.
        repeat case_decide; try lia; try done.
        -- assert (i = length pre) as -> by lia. now rewrite lookup_insert_eq.
        -- rewrite lookup_insert_ne by lia. done.
Qed.

Lemma filter_Forall_id {A} (P : A → Prop) `{∀ x, Decision (P x)} (l : list A) :
  Forall P l → filter P l = l.
Proof.
  induction 1 as [|x l Hx Hl IH]; [done|].
  rewrite filter_cons_True by done. now rewrite IH.
Qed.

Lemma set_pkt_stream_id p : set_pkt_stream (pkt_stream p) p = p.
Proof. now destruct p. Qed.

Lemma remux_packet_raw d n p c :
  raw_packet n p →
  d !! pkt_stream p = Some (pkt_stream p) →
  pkt_stream p < length (streams c) →
  remux_packet d p c = (inr tt, set_packets (packets c ++ [p]) c).
Proof.
  intros (_ & Hpts & Hdts & _) Hd Hlt. unfold remux_packet, is_packet_valid.
  rewrite Hdts. rewrite bool_decide_eq_true_2 by done. simpl. rewrite Hd.
  rewrite set_pkt_stream_id. unfold mux. now rewrite decide_True.
Qed.

Lemma remux_packets_raw d n ps : ∀ c,
  Forall (raw_packet n) ps →
  (∀ i, i < n → d !! i = Some i) →
  n ≤ length (streams c) →
  for_each ps (remux_packet d) c = (inr tt, set_packets (packets c ++ ps) c).
Proof.
  induction ps as [|p ps IH]; intros c Hps Hd Hn.
  - simpl. unfold ret. rewrite app_nil_r. now destruct c.
  - inversion Hps as [|? ? Hp Hps']; subst. simpl. unfold bind.
    pose proof Hp as (Hlt & _).
    rewrite (remux_packet_raw d n p c Hp) by (try apply Hd; lia).
    rewrite IH by done. simpl. now rewrite <- app_assoc.
Qed.

Lemma remux_flush_packets d l c :
  for_each (map flush_packet l) (remux_packet d) c = (inr tt, c).
Proof. induction l as [|i l IH]; [done|]. simpl. unfold bind. simpl. apply IH. Qed.

Lemma demux_all c n :
  Forall (raw_packet n) (packets c) →
  demux c (seq 0 n) = packets c ++ map flush_packet (seq 0 n).
Proof.
  intros H. unfold demux. f_equal. apply filter_Forall_id.
  eapply Forall_impl; [exact H|]. intros p (Hlt & _). simpl.
  apply elem_of_seq. lia.
Qed.

Lemma remux_demux_raw d n c0 c :
  Forall (raw_packet n) (packets c0) →
  (∀ i, i < n → d !! i = Some i) →
  n ≤ length (streams c) →
  for_each (demux c0 (seq 0 n)) (remux_packet d) c
  = (inr tt, set_packets (packets c ++ packets c0) c).
Proof.
  intros Hps Hd Hn. rewrite demux_all by done.
  rewrite (for_each_app _ _ _ _ _ (remux_packets_raw d n _ c Hps Hd Hn)).
  apply remux_flush_packets.
Qed.

Lemma retag_raw_streams i owner k descr :
  map (retag i) (raw_streams owner k descr) = raw_streams i k descr.
Proof.
  revert k. induction descr as [|[n ty] rest IH]; intros k; simpl; [done|].
  now rewrite IH.
Qed.

Lemma append_ne (p s : string) : s ≠ EmptyString → p +:+ s ≠ p.
Proof.
  intros Hs E. induction p as [|a p IH]; [done|].
  apply IH. now inversion E.
Qed.

Lemma temp_path_ne p : p +:+ temp_suffix ≠ p.
Proof. now apply append_ne. Qed.

Lemma unchanged_refl e : unchanged e e.
Proof. now split. Qed.

Lemma unchanged_trans e1 e2 e3 : unchanged e1 e2 → unchanged e2 e3 → unchanged e1 e3.
Proof.
  intros [] []. split; try congruence. lia.
Qed.

Lemma raw_packet_mono n m p : n ≤ m → raw_packet n p → raw_packet m p.
Proof. intros Hle (? & ? & ? & ?). repeat split; try done. lia. Qed.

(** [_on_new_stream] for a feature without a stream returns: the live
    container, the old one or the one the remux made, holds the streams
    it held and one more [rawvideo] stream for the feature, and the
    packets it held, in their order. *)
Lemma on_new_stream_ok e descr c f ft :
  writer_ok e descr c →
  feature_name_to_stream (self e) !! f = None →
  is_Some (feature_name_to_feature_type (self e) !! f) →
  ∃ e' c',
    _on_new_stream f rawvideo ft e = (inr tt, e')
    ∧ writer_ok e' (descr ++ [(f, FeatureType_str ft)]) c'
    ∧ packets c' = packets c
    ∧ unchanged e e'
    ∧ feature_name_to_feature_type (self e')
      = feature_name_to_feature_type (self e)
    ∧ feature_name_to_stream (self e')
      = <[f := raw_stream (c_id c') (length descr) f (FeatureType_str ft)]>
          (feature_name_to_stream (self e)).
Proof.
  intros Hok Hnew Hft.
  pose proof Hok as [Hopen Hlive Hmode Hpath Hnc Hs Hp Hk Hn].
  unfold _on_new_stream. unfold bind at 1. unfold self_get at 1, gets at 1.
  rewrite Hnew. rewrite bool_decide_eq_false_2 by (intros [? ?]; done).
  case_bool_decide as Hempty.
  - (* the first feature *)
    assert (descr = []) as ->.
    { destruct descr as [|[n ty] rest]; [done|].
      destruct (Hn 0 n ty eq_refl) as [[s Hs'] _]. rewrite Hempty in Hs'. done. }
    simpl in Hs.
    unfold bind, on_container_file. rewrite Hlive. rewrite add_raw_stream.
    rewrite Hs. simpl.
    eexists _, _. split; [reflexivity|]. simpl.
    split; [split; simpl; try done|].
    + eapply Forall_impl; [exact Hp|]. intros p Hp'. eapply raw_packet_mono; [|exact Hp']. simpl; lia.
    + intros g s Hg. destruct (decide (g = f)) as [->|Hne].
      * rewrite lookup_insert_eq in Hg. inversion Hg; subst.
        now exists (c_id c), 0, (FeatureType_str ft).
      * rewrite lookup_insert_ne in Hg by done. rewrite Hempty in Hg. done.
    + intros [|i] n ty Hi; [|done]. inversion Hi; subst.
      rewrite lookup_insert_eq. split; [eauto|done].
    + repeat split; try done. 
  - rewrite (bind_inr _ _ _ _ _ (close_false_ok e descr c Hok)).
    destruct e as [w t]. simpl in *.
    cbv beta iota delta [bind ret gets modify self_get self_set in_world
      av_open_r av_open_w fresh_id os_rename os_remove container_close
      run_local].
    simpl. rewrite lookup_insert_eq. simpl. rewrite lookup_insert_eq. simpl.
    rewrite Hs, retag_raw_streams.
    set (c1 := {| c_id := S (next_id w); c_path := path t; c_mode := "w";
                  streams := []; packets := []; c_closed := false |}).
    destruct (fold_remux_raw (feature_name_to_feature_type t) (next_id w) descr
                ∅ [] c1) as (d' & E & Hd').
    { intros i n ty Hi. now destruct (Hn i n ty Hi). }
    { reflexivity. }
    simpl in E. rewrite E. simpl. rewrite raw_streams_length.
    rewrite raw_streams_index.
    rewrite (remux_demux_raw _ (length descr)); simpl.
    2:{ exact Hp. }
    2:{ intros i Hi. rewrite lookup_insert_ne by lia. rewrite Hd'. simpl.
        rewrite decide_True by lia. done. }
    2:{ rewrite length_app, raw_streams_length. lia. }
    rewrite lookup_insert_ne by (apply not_eq_sym, temp_path_ne).
    rewrite lookup_insert_eq. simpl.
    eexists _, _. split; [reflexivity|]. simpl.
    split; [split; simpl; try done|].
    + rewrite raw_streams_app. simpl. reflexivity.
    + rewrite length_app. simpl.
      eapply Forall_impl; [exact Hp|]. intros p Hp'.
      eapply raw_packet_mono; [|exact Hp']. lia.
    + intros g s Hg. destruct (decide (g = f)) as [->|Hne].
      * rewrite lookup_insert_eq in Hg. inversion Hg; subst.
        exists (S (next_id w)), (length descr), (FeatureType_str ft).
        split; [done|]. rewrite lookup_app_r by lia.
        now rewrite Nat.sub_diag.
      * rewrite lookup_insert_ne in Hg by done.
        destruct (Hk g s Hg) as (o & i & ty & -> & Hi).
        exists o, i, ty. split; [done|].
        rewrite lookup_app_l; [done|]. now apply lookup_lt_Some in Hi.
    + intros i n ty Hi.
      destruct (decide (i < length descr)) as [Hlt|Hge].
      * rewrite lookup_app_l in Hi by done.
        destruct (Hn i n ty Hi) as [[s Hs'] Hty]. split; [|done].
        destruct (decide (n = f)) as [->|Hne]; [congruence|].
        rewrite lookup_insert_ne by done. eauto.
      * rewrite lookup_app_r in Hi by lia.
        destruct (i - length descr) as [|k] eqn:Ek; [|done].
        inversion Hi; subst. rewrite lookup_insert_eq. split; [eauto|done].
    + repeat split; try done. simpl. lia.
Qed.

(** ** [add] *)

Lemma alter_set_pending_raw owner k descr i :
  alter (set_pending []) i (raw_streams owner k descr) = raw_streams owner k descr.
Proof.
  revert k i. induction descr as [|[n ty] rest IH]; intros k i; [done|].
  destruct i as [|i]; simpl; [done|]. f_equal. apply IH.
Qed.

(** The part of [add] after the stream exists muxes one packet: the
    pickled value, at the timestamp of the call. *)
Lemma add_tail_ok e descr c feature data timestamp s :
  writer_ok e descr c →
  feature_name_to_stream (self e) !! feature = Some s →
  ∃ e' c' i ty stamp,
    add_tail feature data timestamp e = (inr tt, e')
    ∧ writer_ok e' descr c'
    ∧ descr !! i = Some (feature, ty)
    ∧ (∃ owner, s = raw_stream owner i feature ty)
    ∧ packets c' = packets c ++ [pickled i stamp data]
    ∧ c_id c' = c_id c
    ∧ stamp_of e e' timestamp stamp
    ∧ unchanged e e'
    ∧ feature_name_to_feature_type (self e')
      = feature_name_to_feature_type (self e)
    ∧ feature_name_to_stream (self e') = feature_name_to_stream (self e).
Proof.
  intros Hok Hs.
  pose proof Hok as [Hopen Hlive Hmode Hpath Hnc Hss Hp Hk Hn].
  destruct (Hk feature s Hs) as (owner & i & ty & -> & Hi).
  destruct e as [w t]. simpl in *.
  assert (Hlt : i < length descr) by (now apply lookup_lt_Some in Hi).
  unfold add_tail.
  destruct timestamp as [ts|].
  - cbv beta iota delta [bind ret gets self_get lift]. simpl. rewrite Hs. simpl.
    unfold store_stream, self_set, modify, for_each, bind, on_container_file, mux.
    simpl. rewrite Hlive. simpl. rewrite Hss.
    rewrite insert_id by done.
    assert (Hc : (if decide (c_id c = owner)
                  then set_container_file
                         (Some (set_streams
                            (alter (set_pending []) i (raw_streams (c_id c) 0 descr)) c))
                         (set_feature_name_to_stream (feature_name_to_stream t) t)
                  else set_feature_name_to_stream (feature_name_to_stream t) t) = t).
    { rewrite alter_set_pending_raw, <- Hss.
      destruct t, c; simpl in *. case_decide; subst; reflexivity. }
    rewrite Hc, Hlive. rewrite decide_True by (now rewrite Hss, raw_streams_length).
    eexists _, _, i, ty, ts. split; [reflexivity|]. simpl.
    split; [split; simpl; try done|].
    + apply Forall_app. split; [done|]. constructor; [|done].
      repeat split; simpl; eauto.
    + split_and!; try done. eauto.
  - cbv beta iota delta [bind ret gets self_get lift _get_current_timestamp
      in_world time_time]. simpl. rewrite Hs. simpl.
    unfold store_stream, self_set, modify, for_each, bind, on_container_file, mux.
    simpl. rewrite Hlive. simpl. rewrite Hss.
    rewrite insert_id by done.
    assert (Hc : (if decide (c_id c = owner)
                  then set_container_file
                         (Some (set_streams
                            (alter (set_pending []) i (raw_streams (c_id c) 0 descr)) c))
                         (set_feature_name_to_stream (feature_name_to_stream t) t)
                  else set_feature_name_to_stream (feature_name_to_stream t) t) = t).
    { rewrite alter_set_pending_raw, <- Hss.
      destruct t, c; simpl in *. case_decide; subst; reflexivity. }
    rewrite Hc, Hlive. rewrite decide_True by (now rewrite Hss, raw_streams_length).
    eexists _, _, i, ty, _. split; [reflexivity|]. simpl.
    split; [split; simpl; try done|].
    + apply Forall_app. split; [done|]. constructor; [|done].
      repeat split; simpl; eauto.
    + split_and!; try done; eauto.
      all: try (exists (tick w); split; [lia|done]).
      all: try (split; simpl; try done; lia).
Qed.

Lemma add_unfold feature data timestamp :
  add feature data timestamp =
  if is_dict data then raise (ValueError "Use add_by_dict for dictionary")
  else
    bind (self_set (fun t =>
            set_feature_name_to_feature_type
              (<[feature := from_data data]> (feature_name_to_feature_type t)) t))
      (fun _ =>
    bind (self_get feature_name_to_stream) (fun known =>
    bind (if bool_decide (is_Some (known !! feature)) then ret tt
          else _on_new_stream feature rawvideo (from_data data))
      (fun _ => add_tail feature data timestamp))).
Proof. reflexivity. Qed.

Lemma writer_ok_set_type e descr c feature ft :
  writer_ok e descr c →
  writer_ok
    {| world := world e;
       self := set_feature_name_to_feature_type
                 (<[feature := ft]> (feature_name_to_feature_type (self e)))
                 (self e) |} descr c.
Proof.
  intros [Hopen Hlive Hmode Hpath Hnc Hss Hp Hk Hn].
  split; simpl; try done.
  intros i n ty Hi. destruct (Hn i n ty Hi) as [H1 H2]. split; [done|].
  destruct (decide (feature = n)) as [->|Hne].
  - rewrite lookup_insert_eq. eauto.
  - now rewrite lookup_insert_ne.
Qed.

Lemma stamp_of_weaken e1 e2 e3 timestamp stamp :
  unchanged e1 e2 → stamp_of e2 e3 timestamp stamp → stamp_of e1 e3 timestamp stamp.
Proof.
  intros [] H. destruct timestamp as [ts|]; [done|].
  destruct H as (k & Hk & ->). exists k. split; [lia|congruence].
Qed.

(** A call of [add] on a writer, with a value that is not a dict, returns;
    it leaves a writer with the same streams, and one more for a new
    feature, and one more packet: the pickled value, in the stream of the
    feature, at the timestamp of the call. *)
Lemma add_ok e descr c feature data timestamp :
  writer_ok e descr c →
  is_dict data = false →
  ∃ e' descr' c' i ty stamp,
    add feature data timestamp e = (inr tt, e')
    ∧ writer_ok e' descr' c'
    ∧ descr' =
        (if bool_decide (is_Some (feature_name_to_stream (self e) !! feature))
         then descr
         else descr ++ [(feature, FeatureType_str (from_data data))])
    ∧ descr' !! i = Some (feature, ty)
    ∧ packets c' = packets c ++ [pickled i stamp data]
    ∧ stamp_of e e' timestamp stamp
    ∧ unchanged e e'
    ∧ (∃ owner, feature_name_to_stream (self e') !! feature
                = Some (raw_stream owner i feature ty))
    ∧ feature_name_to_feature_type (self e')
      = <[feature := from_data data]> (feature_name_to_feature_type (self e)).
Proof.
  intros Hok Hd. rewrite add_unfold, Hd.
  apply (writer_ok_set_type e descr c feature (from_data data)) in Hok.
  set (e1 := {| world := world e; self := _ |}) in *.
  assert (Hu1 : unchanged e e1) by (now split).
  rewrite (bind_inr _ _ e _ e1) by reflexivity.
  rewrite (bind_inr _ _ e1 _ e1) by reflexivity.
  change (feature_name_to_stream (self e1)) with (feature_name_to_stream (self e)).
  case_bool_decide as Hknown.
  - destruct Hknown as [s Hs].
    rewrite (bind_inr _ _ e1 _ e1) by reflexivity.
    destruct (add_tail_ok e1 descr c feature data timestamp s Hok Hs)
      as (e' & c' & i & ty & stamp & E & Hok' & Hi & [o Ho] & Hp & _ & Hst & Hu
          & Hty & Hmap').
    exists e', descr, c', i, ty, stamp. split_and!; try done.
    + eapply unchanged_trans; eauto.
    + exists o. rewrite Hmap'. simpl. now rewrite Hs, Ho.
  - assert (Hnone : feature_name_to_stream (self e1) !! feature = None).
    { destruct (feature_name_to_stream (self e1) !! feature) eqn:E; [|done].
      exfalso. apply Hknown. eauto. }
    destruct (on_new_stream_ok e1 descr c feature (from_data data) Hok Hnone)
      as (e2 & c2 & E2 & Hok2 & Hp2 & Hu2 & Hty2 & Hmap).
    { simpl. rewrite lookup_insert_eq. eauto. }
    rewrite (bind_inr _ _ e1 _ e2 E2).
    destruct (add_tail_ok e2 _ c2 feature data timestamp _ Hok2
                ltac:(rewrite Hmap; apply lookup_insert_eq))
      as (e' & c' & i & ty & stamp & E & Hok' & Hi & [o Ho] & Hp & _ & Hst & Hu
          & Hty & Hmap').
    exists e', (descr ++ [(feature, FeatureType_str (from_data data))]),
      c', i, ty, stamp.
    split_and!; try done.
    + congruence.
    + eapply stamp_of_weaken; [|exact Hst]. eapply unchanged_trans; eauto.
    + eapply unchanged_trans; [|exact Hu]. eapply unchanged_trans; eauto.
    + exists o. rewrite Hmap', Hmap, lookup_insert_eq. now rewrite Ho.
    + now rewrite Hty, Hty2.
Qed.

(** ** The close-time transcoder *)

Lemma transcode_stream_raw lossy ftypes d o k n ty ft c :
  ftypes !! n = Some ft →
  length (streams c) = k →
  transcode_stream lossy ftypes d (raw_stream o k n ty) c
  = (inr (<[k := k]> d),
     set_streams (streams c ++ [transcoded_stream lossy (c_id c) k n ty ft]) c).
Proof.
  intros Hft Hk. unfold transcode_stream. simpl. rewrite Hft.
  unfold transcoded_stream.
  destruct (selector_cases lossy VNone ft) as [[(d0 & d1 & rest & Hsh & _) E]|[_ E]];
    rewrite E.
  - unfold bind, _add_stream_to_container. rewrite Hsh.
    destruct lossy; simpl; unfold copy_metadata, modify, ret; simpl;
      rewrite alter_last, Hk; reflexivity.
  - unfold bind, _add_stream_to_container. simpl.
    unfold copy_metadata, modify, ret; simpl.
    rewrite alter_last, Hk. reflexivity.
Qed.

Lemma transcoded_streams_app lossy ftypes owner k d1 d2 :
  (∀ i n ty, d1 !! i = Some (n, ty) → is_Some (ftypes !! n)) →
  transcoded_streams lossy ftypes owner k (d1 ++ d2)
  = transcoded_streams lossy ftypes owner k d1
    ++ transcoded_streams lossy ftypes owner (k + length d1) d2.
Proof.
  revert k. induction d1 as [|[n ty] rest IH]; intros k H; simpl.
  - now rewrite Nat.add_0_r.
  - destruct (H 0 n ty eq_refl) as [ft ->]. simpl. rewrite IH.
    + do 3 f_equal. lia.
    + intros i n' ty' Hi. apply (H (S i) n' ty' Hi).
Qed.

Lemma transcoded_streams_length lossy ftypes owner k descr :
  (∀ i n ty, descr !! i = Some (n, ty) → is_Some (ftypes !! n)) →
  length (transcoded_streams lossy ftypes owner k descr) = length descr.
Proof.
  revert k. induction descr as [|[n ty] rest IH]; intros k H; simpl; [done|].
  destruct (H 0 n ty eq_refl) as [ft ->]. simpl. rewrite IH; [done|].
  intros i n' ty' Hi. apply (H (S i) n' ty' Hi).
Qed.

Lemma transcoded_streams_lookup lossy ftypes owner k descr i s :
  transcoded_streams lossy ftypes owner k descr !! i = Some s →
  ∃ n ty ft, descr !! i = Some (n, ty) ∧ ftypes !! n = Some ft
             ∧ s = transcoded_stream lossy owner (k + i) n ty ft.
Proof.
  revert k i. induction descr as [|[n ty] rest IH]; intros k i H; [done|].
  simpl in H. destruct (ftypes !! n) as [ft|] eqn:E; [|done].
  destruct i as [|i]; simpl in *.
  - inversion H; subst. exists n, ty, ft. now rewrite Nat.add_0_r.
  - destruct (IH (S k) i H) as (n' & ty' & ft' & ? & ? & ->).
    exists n', ty', ft'. split_and!; try done. f_equal. lia.
Qed.

Lemma transcoded_streams_indexed lossy ftypes owner descr :
  indexed (transcoded_streams lossy ftypes owner 0 descr).
Proof.
  intros k s H. apply transcoded_streams_lookup in H as (n & ty & ft & _ & _ & ->).
  reflexivity.
Qed.

Lemma fold_transcode_raw lossy ftypes o rest : ∀ d pre c,
  (∀ i n ty, pre !! i = Some (n, ty) → is_Some (ftypes !! n)) →
  (∀ i n ty, rest !! i = Some (n, ty) → is_Some (ftypes !! n)) →
  streams c = transcoded_streams lossy ftypes (c_id c) 0 pre →
  ∃ d',
    fold_streams (transcode_stream lossy ftypes) d
      (raw_streams o (length pre) rest) c
    = (inr d',
       set_streams (transcoded_streams lossy ftypes (c_id c) 0 (pre ++ rest)) c)
    ∧ ∀ i, d' !! i = if decide (length pre ≤ i < length pre + length rest)
                     then Some i else d !! i.
Proof.
  induction rest as [|[n ty] rest IH]; intros d pre c Hpre Hft Hs.
  - exists d. simpl. split.
    + unfold ret. rewrite app_nil_r, <- Hs. now destruct c.
    + intros i. case_decide; [lia|done].
  - simpl. destruct (Hft 0 n ty eq_refl) as [ft Hn].
    unfold bind.
    rewrite (transcode_stream_raw lossy ftypes d o (length pre) n ty ft c Hn)
      by (now rewrite Hs, transcoded_streams_length).
    set (c1 := set_streams _ c).
    destruct (IH (<[length pre := length pre]> d) (pre ++ [(n, ty)]) c1)
      as (d' & E & Hd').
    + intros i n' ty' H. destruct (decide (i < length pre)).
      * rewrite lookup_app_l in H by done. eauto.
      * rewrite lookup_app_r in H by lia.
        destruct (i - length pre); [|done]. inversion H; subst. eauto.
    + intros i n' ty' H. apply (Hft (S i) n' ty' H).
    + subst c1. simpl. rewrite Hs, transcoded_streams_app by done. simpl.
      now rewrite Hn.
    + exists d'. split.
      * rewrite length_app in E. simpl in E.
        replace (length pre + 1) with (S (length pre)) in E by lia.
        rewrite E. subst c1. simpl. rewrite <- app_assoc. simpl.
        now destruct c.
      * intros i. rewrite Hd'. rewrite length_app. simpl.
        repeat case_decide; try lia; try done.
        -- assert (i = length pre) as -> by lia. now rewrite lookup_insert_eq.
        -- rewrite lookup_insert_ne by lia. done.
Qed.

(** What the frame codec returns for a stream: packets of that stream at
    the timestamp, and the stream with another encoder buffer. *)
Lemma stream_encode_spec s frame :
  Forall (fun q => pkt_stream q = index s) (stream_encode s frame).1
  ∧ set_pending [] (stream_encode s frame).2 = set_pending [] s
  ∧ index (stream_encode s frame).2 = index s.
Proof.
  unfold stream_encode. destruct frame as [f|].
  - case_decide; simpl; [done|].
    destruct (pending s ++ [f]) as [|f0 q] eqn:E; simpl; [done|].
    split_and!; try done. now constructor.
  - simpl. split_and!; try done. apply Forall_forall.
    intros q Hq. apply list_elem_of_fmap in Hq as (f & -> & _). done.
Qed.

Lemma encode_frame_spec data s z :
  Forall (fun q => pkt_stream q = index s ∧ pkt_pts q = Some z
                   ∧ pkt_dts q = Some z) (_encode_frame data s z).1
  ∧ set_pending [] (_encode_frame data s z).2 = set_pending [] s
  ∧ index (_encode_frame data s z).2 = index s.
Proof.
  unfold _encode_frame.
  destruct (is_video (codec_name s)).
  - match goal with |- context [stream_encode s ?f] =>
      pose proof (stream_encode_spec s f) as (H1 & H2 & H3);
      destruct (stream_encode s f) as [pkts s'] end.
    simpl in *. split_and!; try done.
    apply Forall_forall. intros q Hq.
    apply list_elem_of_fmap in Hq as (q' & -> & Hq').
    rewrite Forall_forall in H1. simpl. split_and!; try done. now apply H1.
  - simpl. split_and!; try done. now constructor.
Qed.

Lemma same_shell_refl c : same_shell c c.
Proof. now split. Qed.

Lemma same_shell_trans c1 c2 c3 :
  same_shell c1 c2 → same_shell c2 c3 → same_shell c1 c3.
Proof. intros [] []. split; congruence. Qed.

Lemma same_shell_length c c' :
  same_shell c c' → length (streams c') = length (streams c).
Proof.
  intros [_ _ _ _ H]. apply (f_equal length) in H.
  now rewrite !length_map in H.
Qed.

Lemma same_shell_indexed c c' :
  same_shell c c' → indexed (streams c) → indexed (streams c').
Proof.
  intros [_ _ _ _ H] Hi k s' Hs'.
  assert (Hk : map (set_pending []) (streams c') !! k = Some (set_pending [] s'))
    by (now rewrite list_lookup_fmap, Hs').
  rewrite H, list_lookup_fmap in Hk.
  destruct (streams c !! k) as [s|] eqn:E; [|done].
  simpl in Hk. apply Hi in E.
  assert (Hk' : set_pending [] s = set_pending [] s') by congruence.
  apply (f_equal index) in Hk'. simpl in Hk'. congruence.
Qed.

Lemma set_stream_same_shell c j s s' :
  streams c !! j = Some s →
  set_pending [] s' = set_pending [] s →
  same_shell c (set_streams (<[j := s']> (streams c)) c).
Proof.
  intros Hj Hs. split; simpl; try done.
  rewrite list_fmap_insert, Hs. f_equal.
  apply list_insert_id. now rewrite list_lookup_fmap, Hj.
Qed.

Lemma mux_all_ok pkts : ∀ c,
  Forall (fun q => pkt_stream q < length (streams c)) pkts →
  for_each pkts mux c = (inr tt, set_packets (packets c ++ pkts) c).
Proof.
  induction pkts as [|q pkts IH]; intros c H.
  - simpl. unfold ret. rewrite app_nil_r. now destruct c.
  - inversion H; subst. simpl. unfold bind, mux at 1.
    rewrite decide_True by done. rewrite IH by done.
    simpl. now rewrite <- app_assoc.
Qed.

Lemma transcode_packet_raw d n p c :
  raw_packet n p →
  d !! pkt_stream p = Some (pkt_stream p) →
  length (streams c) = n →
  indexed (streams c) →
  ∃ new c',
    transcode_packet d p c = (inr tt, c')
    ∧ reencoded p new
    ∧ packets c' = packets c ++ new
    ∧ same_shell c c'.
Proof.
  intros (Hlt & [z Hz] & Hdts & [v Hv]) Hd Hn Hix.
  unfold transcode_packet, is_packet_valid.
  rewrite Hdts, Hz. rewrite bool_decide_eq_true_2 by eauto. simpl. rewrite Hd.
  unfold bind at 1, gets at 1.
  destruct (streams c !! pkt_stream p) as [s|] eqn:Es.
  2:{ apply lookup_ge_None in Es. lia. }
  pose proof (Hix _ _ Es) as Hidx.
  destruct (is_video (codec_name s)).
  - rewrite Hv. simpl. unfold bind at 1, lift at 1.
    pose proof (encode_frame_spec v s z) as (H1 & H2 & H3).
    destruct (_encode_frame v s z) as [pkts s'] eqn:Eenc. simpl in *.
    unfold bind, set_stream_at, modify.
    rewrite mux_all_ok.
    2:{ simpl. rewrite length_insert, Hn. eapply Forall_impl; [exact H1|].
        intros q (Hq & _). simpl in Hq. lia. }
    eexists pkts, _. split; [reflexivity|]. simpl. split_and!; try done.
    + eapply Forall_impl; [exact H1|]. intros q (? & ? & ?). split_and!; congruence.
    + pose proof (set_stream_same_shell c _ s s' Es H2) as [].
      split; simpl in *; done.
  - unfold mux. simpl. rewrite decide_True by lia.
    eexists [set_pkt_stream (pkt_stream p) p], _. split; [reflexivity|].
    simpl. split_and!; try done.
    constructor; [|done]. simpl. rewrite Hdts, Hz. done.
Qed.

Lemma transcode_packets_raw d n ps : ∀ c,
  Forall (raw_packet n) ps →
  (∀ i, i < n → d !! i = Some i) →
  length (streams c) = n →
  indexed (streams c) →
  ∃ groups c',
    for_each ps (transcode_packet d) c = (inr tt, c')
    ∧ Forall2 reencoded ps groups
    ∧ packets c' = packets c ++ concat groups
    ∧ same_shell c c'.
Proof.
  induction ps as [|p ps IH]; intros c Hps Hd Hn Hix.
  - exists [], c. simpl. split_and!; try done.
    all: try (now rewrite app_nil_r); try apply same_shell_refl.
  - inversion Hps as [|? ? Hp Hps']; subst.
    pose proof Hp as (Hlt & _).
    destruct (transcode_packet_raw d _ p c Hp (Hd _ Hlt) eq_refl Hix)
      as (new & c1 & E1 & Hnew & Hpk1 & Hsh1).
    destruct (IH c1 Hps' Hd) as (groups & c' & E & Hg & Hpk & Hsh).
    { now apply same_shell_length. }
    { eapply same_shell_indexed; eauto. }
    exists (new :: groups), c'. simpl. unfold bind. rewrite E1, E.
    split_and!; try done.
    + now constructor.
    + now rewrite Hpk, Hpk1, <- app_assoc.
    + eapply same_shell_trans; eauto.
Qed.

Lemma transcode_flush_packets d l c :
  for_each (map flush_packet l) (transcode_packet d) c = (inr tt, c).
Proof. induction l as [|i l IH]; [done|]. simpl. unfold bind. simpl. apply IH. Qed.

Lemma flush_stream_ok ts i c :
  indexed (streams c) →
  ∃ new c',
    flush_stream ts i c = (inr tt, c')
    ∧ drained (length (streams c)) ts new
    ∧ packets c' = packets c ++ new
    ∧ same_shell c c'.
Proof.
  intros Hix. unfold flush_stream.
  destruct (streams c !! i) as [s|] eqn:Es.
  2:{ exists [], c. split_and!; try done.
      all: try (now rewrite app_nil_r); try apply same_shell_refl.
      all: try now constructor. }
  pose proof (stream_encode_spec s None) as (H1 & H2 & H3).
  destruct (stream_encode s None) as [pkts s'] eqn:E. simpl in *.
  pose proof (Hix _ _ Es) as Hidx.
  assert (Hlt : i < length (streams c)) by (now apply lookup_lt_Some in Es).
  rewrite mux_all_ok.
  2:{ simpl. rewrite length_insert. apply Forall_forall. intros q Hq.
      apply list_elem_of_fmap in Hq as (q' & -> & Hq'). simpl.
      rewrite Forall_forall in H1. rewrite (H1 _ Hq'). lia. }
  eexists (map (restamp ts) pkts), _. split; [reflexivity|]. simpl.
  split_and!; try done.
  - apply Forall_forall. intros q Hq.
    apply list_elem_of_fmap in Hq as (q' & -> & Hq'). simpl.
    rewrite Forall_forall in H1. rewrite (H1 _ Hq'). split_and!; try done. lia.
  - pose proof (set_stream_same_shell c i s s' Es H2) as [].
    split; simpl in *; done.
Qed.

Lemma flush_positions_ok ts l : ∀ c,
  indexed (streams c) →
  ∃ new c',
    for_each l (flush_stream ts) c = (inr tt, c')
    ∧ drained (length (streams c)) ts new
    ∧ packets c' = packets c ++ new
    ∧ same_shell c c'.
Proof.
  induction l as [|i l IH]; intros c Hix.
  - exists [], c. simpl. split_and!; try done.
    all: try (now rewrite app_nil_r); try apply same_shell_refl.
    all: try now constructor.
  - destruct (flush_stream_ok ts i c Hix) as (new1 & c1 & E1 & Hd1 & Hp1 & Hs1).
    destruct (IH c1) as (new2 & c' & E2 & Hd2 & Hp2 & Hs2).
    { eapply same_shell_indexed; eauto. }
    exists (new1 ++ new2), c'. simpl. unfold bind. rewrite E1, E2.
    split_and!; try done.
    + apply Forall_app. split; [done|].
      now rewrite (same_shell_length _ _ Hs1) in Hd2.
    + now rewrite Hp2, Hp1, <- app_assoc.
    + eapply same_shell_trans; eauto.
Qed.

Lemma flush_streams_ok ts c :
  indexed (streams c) →
  ∃ new c',
    flush_streams ts c = (inr tt, c')
    ∧ drained (length (streams c)) ts new
    ∧ packets c' = packets c ++ new
    ∧ same_shell c c'.
Proof.
  intros Hix. unfold flush_streams, stream_positions, bind, gets.
  now apply flush_positions_ok.
Qed.

Lemma set_pending_transcoded lossy ftypes owner k descr :
  map (set_pending []) (transcoded_streams lossy ftypes owner k descr)
  = transcoded_streams lossy ftypes owner k descr.
Proof.
  revert k. induction descr as [|[n ty] rest IH]; intros k; simpl; [done|].
  destruct (ftypes !! n); [|done]. simpl. now rewrite IH.
Qed.

(** [close] on a writer returns: the trajectory is closed and the file at
    its path holds the transcoded streams and packets, with the trailer. *)
Lemma close_true_ok e descr c :
  writer_ok e descr c →
  ∃ e' out,
    close true e = (inr tt, e')
    ∧ self e' = closed_self (self e)
    ∧ tick (world e') = S (tick (world e))
    ∧ fs (world e') !! path (self e)
      = Some (MkvFile
                (transcoded_streams (lossy_compression (self e))
                   (feature_name_to_feature_type (self e))
                   (S (next_id (world e))) 0 descr) out true)
    ∧ transcoded_packets (packets c) (length descr)
        (wall_clock (tick (world e)) - start_time (self e)) out.
Proof.
  intros Hok.
  pose proof Hok as [Hopen Hlive Hmode Hpath Hnc Hs Hp Hk Hn].
  destruct e as [w t]. simpl in *.
  unfold close, bind, self_get, gets. simpl. rewrite Hopen.
  unfold _get_current_timestamp, bind, in_world, time_time, self_get, gets.
  simpl. unfold on_container_file at 1. simpl. rewrite Hlive.
  rewrite (flush_streams_logged_raw _ c descr Hs).
  unfold close_container_file at 1.
  cbv beta iota delta [bind ret get gets modify self_get self_set in_world
    on_container_file container_close].
  simpl. rewrite Hnc, Hmode. simpl.
  unfold _transcode_pickled_images.
  cbv beta iota delta [bind ret gets modify self_get self_set in_world
    av_open_r av_open_w fresh_id os_rename os_remove container_close
    run_local].
  simpl. rewrite Hpath, lookup_insert_eq. simpl. rewrite lookup_insert_eq. simpl.
  rewrite Hs, set_pending_raw_streams, retag_raw_streams.
  set (c1 := {| c_id := S (next_id w); c_path := path t; c_mode := "w";
                streams := []; packets := []; c_closed := false |}).
  destruct (fold_transcode_raw (lossy_compression t)
              (feature_name_to_feature_type t) (next_id w) descr ∅ [] c1)
    as (d' & E & Hd'); try done.
  { intros i n ty Hi. now destruct (Hn i n ty Hi). }
  simpl in E. rewrite E. simpl.
  rewrite raw_streams_index.
  set (c2 := set_streams _ c1).
  assert (Hlen2 : length (streams c2) = length descr).
  { subst c2. simpl. apply transcoded_streams_length.
    intros i n ty Hi. now destruct (Hn i n ty Hi). }
  assert (Hix2 : indexed (streams c2)) by apply transcoded_streams_indexed.
  rewrite demux_all by done.
  destruct (transcode_packets_raw d' (length descr) (packets c) c2)
    as (groups & c3 & E3 & Hg & Hp3 & Hs3); try done.
  { intros i Hi. rewrite Hd'. simpl. now rewrite decide_True by lia. }
  rewrite (for_each_app _ _ _ _ _ E3), transcode_flush_packets.
  destruct (flush_streams_ok (wall_clock (tick w) - start_time t) c3)
    as (fl & c4 & E4 & Hfl & Hp4 & Hs4).
  { eapply same_shell_indexed; eauto. }
  rewrite E4. simpl.
  rewrite lookup_insert_ne by (apply not_eq_sym, temp_path_ne).
  rewrite lookup_insert_eq. simpl.
  pose proof (same_shell_trans _ _ _ Hs3 Hs4) as [Hid Hpa Hmo Hcl Hst].
  subst c2 c1. simpl in *.
  unfold close_container_file.
  cbv beta iota delta [bind ret get gets modify self_get self_set in_world
    on_container_file container_close].
  simpl. rewrite Hcl, Hmo. simpl.
  eexists _, _. split; [reflexivity|]. simpl.
  split_and!; try done.
  - rewrite Hpa, lookup_insert_eq, Hst, set_pending_transcoded. reflexivity.
  - exists groups, fl. split_and!; try done.
    + pose proof (same_shell_length _ _ Hs3) as Hl3. simpl in Hl3.
      now rewrite Hl3, Hlen2 in Hfl.
    + now rewrite Hp4, Hp3.
Qed.

(** ** [add_by_dict] *)

Lemma dict_set_values {V} (P : V → Prop) (d : list (string * V)) k v :
  Forall (fun kv => P kv.2) d → P v → Forall (fun kv => P kv.2) (dict_set d k v).
Proof.
  induction 1 as [|[k' v'] d Hx Hd IH]; intros Hv; simpl.
  - now constructor.
  - destruct (String.eqb k' k); constructor; auto.
Qed.

Lemma dict_update_values {V} (P : V → Prop) (items : list (string * V)) : ∀ d,
  Forall (fun kv => P kv.2) d → Forall (fun kv => P kv.2) items →
  Forall (fun kv => P kv.2) (dict_update d items).
Proof.
  unfold dict_update.
  induction items as [|[k v] items IH]; intros d Hd Hi; simpl; [done|].
  inversion Hi; subst. apply IH; [|done]. now apply dict_set_values.
Qed.

Lemma flatten_value_leaves : ∀ v key sep,
  Forall (fun kv => is_dict kv.2 = false) (flatten_value key sep v).
Proof.
  fix IH 1. intros [a|s| |l|d] key sep; simpl; try (constructor; done).
  apply (dict_update_values (fun v => is_dict v = false)); [constructor|].
  induction d as [|[k v'] rest IHd]; [constructor|].
  apply Forall_app. split; [apply IH | apply IHd].
Qed.


Lemma leaf_packets_extend descr extra ts l news :
  leaf_packets descr ts l news → leaf_packets (descr ++ extra) ts l news.
Proof.
  intros H. eapply Forall2_impl; [exact H|].
  intros kv q (i & ty & -> & Hi). exists i, ty. split; [done|].
  rewrite lookup_app_l; [done|]. now apply lookup_lt_Some in Hi.
Qed.

Lemma adds_ok ts l : ∀ e descr c,
  writer_ok e descr c →
  Forall (fun kv => is_dict kv.2 = false) l →
  ∃ e' extra c' news,
    for_each l (fun kv => add kv.1 kv.2 (Some ts)) e = (inr tt, e')
    ∧ writer_ok e' (descr ++ extra) c'
    ∧ packets c' = packets c ++ news
    ∧ leaf_packets (descr ++ extra) ts l news
    ∧ unchanged e e'.
Proof.
  induction l as [|[k v] l IH]; intros e descr c Hok Hl.
  - exists e, [], c, []. simpl. rewrite !app_nil_r. split_and!; try done.
    all: try (by constructor); try apply unchanged_refl.
  - inversion Hl as [|? ? Hv Hl']; subst. simpl in Hv.
    destruct (add_ok e descr c k v (Some ts) Hok Hv)
      as (e1 & descr1 & c1 & i & ty & stamp & E1 & Hok1 & Hd1 & Hi1 & Hp1 & Hst
          & Hu1 & _).
    simpl in Hst. subst stamp.
    assert (∃ extra1, descr1 = descr ++ extra1) as [extra1 ->].
    { subst descr1. case_bool_decide; [exists []; now rewrite app_nil_r|eauto]. }
    destruct (IH e1 _ c1 Hok1 Hl') as (e' & extra & c' & news & E & Hok' & Hp & Hn & Hu).
    exists e', (extra1 ++ extra), c', (pickled i ts v :: news).
    simpl. unfold bind. rewrite E1. rewrite app_assoc.
    split_and!; try done.
    + now rewrite Hp, Hp1, <- app_assoc.
    + constructor; [|done]. exists i, ty. split; [done|].
      rewrite lookup_app_l; [done|]. now apply lookup_lt_Some in Hi1.
    + eapply unchanged_trans; eauto.
Qed.

(** A call of [add_by_dict] with a dict returns; every leaf of the
    flattened dict gave one packet, all at the timestamp of the call. *)
Lemma add_by_dict_ok e descr c d timestamp :
  writer_ok e descr c →
  ∃ e' extra c' news stamp,
    add_by_dict (VDict d) timestamp e = (inr tt, e')
    ∧ writer_ok e' (descr ++ extra) c'
    ∧ packets c' = packets c ++ news
    ∧ leaf_packets (descr ++ extra) stamp
        (_flatten_dict d EmptyString (feature_name_separator (self e))) news
    ∧ stamp_of e e' timestamp stamp
    ∧ (timestamp = None → tick (world e) < tick (world e'))
    ∧ unchanged e e'.
Proof.
  intros Hok. unfold add_by_dict.
  rewrite (bind_inr _ _ e _ e) by reflexivity.
  destruct timestamp as [ts|].
  - rewrite (bind_inr _ _ e ts e) by reflexivity.
    destruct (adds_ok ts _ e descr c Hok
                (flatten_value_leaves (VDict d) EmptyString (feature_name_separator (self e))))
      as (e' & extra & c' & news & E & Hok' & Hp & Hn & Hu).
    exists e', extra, c', news, ts. split_and!; done.
  - set (e1 := {| world := {| fs := fs (world e); tick := S (tick (world e));
                              next_id := next_id (world e) |};
                  self := self e |}).
    set (ts := (wall_clock (tick (world e)) - start_time (self e))%Z).
    rewrite (bind_inr _ _ e ts e1) by reflexivity.
    assert (Hok1 : writer_ok e1 descr c) by (destruct Hok; now split).
    destruct (adds_ok ts _ e1 descr c Hok1
                (flatten_value_leaves (VDict d) EmptyString (feature_name_separator (self e))))
      as (e' & extra & c' & news & E & Hok' & Hp & Hn & Hu).
    exists e', extra, c', news, ts. split_and!; try done.
    + exists (tick (world e)). destruct Hu; simpl in *. split; [lia|done].
    + intros _. destruct Hu; simpl in *. lia.
    + destruct Hu. split; simpl in *; try done. lia.
Qed.

(** ** Calls on a writer *)

Lemma Forall2_elem_r {A B} (P : A → B → Prop) l k y :
  Forall2 P l k → y ∈ k → ∃ x, x ∈ l ∧ P x y.
Proof.
  induction 1 as [|x y' l k Hxy Hlk IH]; intros Hy.
  - now apply not_elem_of_nil in Hy.
  - apply elem_of_cons in Hy as [->|Hy].
    + exists x. split; [left|done].
    + destruct (IH Hy) as (x' & ? & ?). exists x'. split; [now right|done].
Qed.

Lemma init_w_ok file_path cache_dir lossy sep w :
  ∃ t w' c,
    __init__ file_path "w" cache_dir lossy sep w = (inr t, w')
    ∧ writer_ok {| world := w'; self := t |} [] c
    ∧ packets c = []
    ∧ path t = file_path
    ∧ start_time t = wall_clock (tick w)
    ∧ tick w' = S (tick w)
    ∧ lossy_compression t = lossy
    ∧ feature_name_separator t = sep
    ∧ fs w' = <[file_path := MkvFile [] [] false]> (fs w).
Proof.
  unfold __init__, bind, time_time, av_open_w, bind, fresh_id, modify, ret.
  simpl.
  eexists _, _, _. split; [reflexivity|]. simpl.
  split_and!; try done.
Qed.

Lemma call_ok e descr c k :
  writer_ok e descr c →
  ∃ extra c' news,
    writer_ok (call k e).2 (descr ++ extra) c'
    ∧ packets c' = packets c ++ news
    ∧ unchanged e (call k e).2
    ∧ (clock_only k →
       ∃ k0, tick (world e) ≤ k0
             ∧ (news ≠ [] → k0 < tick (world (call k e).2))
             ∧ Forall (fun q =>
                 pkt_pts q = Some (wall_clock k0 - start_time (self e))%Z
                 ∧ pkt_dts q = pkt_pts q) news).
Proof.
  intros Hok.
  assert (Hsame : ∃ extra c' news,
    writer_ok e (descr ++ extra) c' ∧ packets c' = packets c ++ news
    ∧ unchanged e e
    ∧ (clock_only k →
       ∃ k0, tick (world e) ≤ k0 ∧ (news ≠ [] → k0 < tick (world e))
             ∧ Forall (fun q =>
                 pkt_pts q = Some (wall_clock k0 - start_time (self e))%Z
                 ∧ pkt_dts q = pkt_pts q) news)).
  { exists [], c, []. rewrite !app_nil_r. split_and!; try done.
    intros _. exists (tick (world e)). split_and!; try done. }
  destruct k as [feature data timestamp|data timestamp]; simpl.
  - destruct (is_dict data) eqn:Hd.
    { rewrite add_unfold, Hd. exact Hsame. }
    destruct (add_ok e descr c feature data timestamp Hok Hd)
      as (e' & descr' & c' & i & ty & stamp & E & Hok' & Hd' & Hi & Hp & Hst
          & Hu & _).
    rewrite E. simpl.
    assert (∃ extra, descr' = descr ++ extra) as [extra ->].
    { subst descr'. case_bool_decide; [exists []; now rewrite app_nil_r|eauto]. }
    exists extra, c', [pickled i stamp data]. split_and!; try done.
    intros ->. destruct Hst as (k0 & Hk0 & ->). exists k0.
    split_and!; try lia. now constructor.
  - destruct data as [a|s| |l|d]; try exact Hsame.
    destruct (add_by_dict_ok e descr c d timestamp Hok)
      as (e' & extra & c' & news & stamp & E & Hok' & Hp & Hn & Hst & Htick & Hu).
    rewrite E. simpl.
    exists extra, c', news. split_and!; try done.
    intros ->. destruct Hst as (k0 & Hk0 & ->). exists k0.
    split_and!; try lia.
    apply Forall_forall. intros q Hq.
    destruct (Forall2_elem_r _ _ _ _ Hn Hq) as (kv & _ & i & ty & -> & _).
    done.
Qed.

(** ** Timestamps *)

Lemma clocked_weaken start b b' ps :
  b ≤ b' → clocked start b ps → clocked start b' ps.
Proof.
  intros Hb H. unfold clocked in *. eapply Forall_impl; [exact H|].
  intros p (Hd & k & Hk & Hp). split; [done|]. exists k. split; [lia|done].
Qed.

Lemma clocked_append start b ps news k0 :
  monotone_clock →
  clocked start b ps → ascending ps → b ≤ k0 →
  Forall (fun q => pkt_pts q = Some (wall_clock k0 - start)%Z
                   ∧ pkt_dts q = pkt_pts q) news →
  clocked start k0 (ps ++ news) ∧ ascending (ps ++ news).
Proof.
  intros Hmono Hc Ha Hb Hn. split.
  - apply Forall_app. split; [now apply (clocked_weaken start b)|].
    eapply Forall_impl; [exact Hn|]. intros q (Hp & Hd). split; [done|].
    exists k0. split; [lia|done].
  - apply StronglySorted_app. split_and!; try done.
    + intros p q Hp Hq. unfold clocked in Hc. rewrite Forall_forall in Hc, Hn.
      destruct (Hc p Hp) as (_ & k & Hk & Hpts). destruct (Hn q Hq) as (Hqts & _).
      eexists _, _. split_and!; try done.
      assert (wall_clock k ≤ wall_clock k0)%Z by (apply Hmono; lia). lia.
    + clear Hc Ha. induction Hn as [|q news (Hq & _) Hn IH]; constructor; [done|].
      eapply Forall_impl; [exact Hn|]. intros q' (Hq' & _).
      eexists _, _. split_and!; try done.
Qed.

Lemma run_calls_ok calls : ∀ e descr c,
  writer_ok e descr c →
  ∃ extra c',
    writer_ok (run_calls calls e) (descr ++ extra) c'
    ∧ unchanged e (run_calls calls e)
    ∧ (monotone_clock → Forall clock_only calls →
       timed e (packets c) → timed (run_calls calls e) (packets c')).
Proof.
  induction calls as [|k calls IH]; intros e descr c Hok.
  - exists [], c. simpl. rewrite app_nil_r. split_and!; try done.
  - destruct (call_ok e descr c k Hok) as (extra1 & c1 & news & Hok1 & Hp1 & Hu1 & Hclk).
    destruct (IH _ _ _ Hok1) as (extra & c' & Hok' & Hu & Ht).
    exists (extra1 ++ extra), c'. simpl. rewrite app_assoc.
    split_and!; try done.
    + eapply unchanged_trans; eauto.
    + intros Hmono Hall (b & Hb & Hc & Ha). inversion Hall as [|? ? Hk Hall']; subst.
      apply Ht; try done.
      destruct (Hclk Hk) as (k0 & Hk0 & Hlt & Hnews).
      destruct Hu1 as [_ _ _ Hstart _ _ Htick].
      unfold timed. rewrite Hp1, Hstart.
      destruct news as [|q news].
      * exists b. rewrite app_nil_r. split_and!; try done. lia.
      * exists k0. split; [now apply Hlt|].
        apply (clocked_append _ b); try done. lia.
Qed.

(** ** Closing twice *)

Lemma close_closed e compact :
  is_closed (self e) = true →
  close compact e = (inl (ValueError "The container file is already closed"), e).
Proof. intros H. unfold close, bind, self_get, gets. simpl. now rewrite H. Qed.

Lemma close_ok e descr c compact :
  writer_ok e descr c →
  ∃ e' ss ps,
    close compact e = (inr tt, e')
    ∧ self e' = closed_self (self e)
    ∧ tick (world e') = S (tick (world e))
    ∧ fs (world e') !! path (self e) = Some (MkvFile ss ps true)
    ∧ (if compact
       then ss = transcoded_streams (lossy_compression (self e))
                   (feature_name_to_feature_type (self e))
                   (S (next_id (world e))) 0 descr
            ∧ transcoded_packets (packets c) (length descr)
                (wall_clock (tick (world e)) - start_time (self e)) ps
       else ss = streams c ∧ ps = packets c).
Proof.
  intros Hok. destruct compact.
  - destruct (close_true_ok e descr c Hok) as (e' & out & E & Hs & Ht & Hf & Hp).
    eexists e', _, out. split_and!; try done.
  - rewrite (close_false_ok e descr c Hok).
    eexists _, _, _. split_and!; try done. simpl. apply lookup_insert_eq.
Qed.


(** ** The encoding chosen by [add] *)

Lemma raw_streams_codec owner k descr :
  Forall (fun s => codec_name s = rawvideo) (raw_streams owner k descr).
Proof.
  revert k. induction descr as [|[n ty] rest IH]; intros k; simpl; constructor;
    [done|apply IH].
Qed.


(** ** Timestamps of a closed file *)

Lemma ascending_filter (P : Packet → Prop) `{∀ p, Decision (P p)} ps :
  ascending ps → ascending (filter P ps).
Proof.
  unfold ascending. induction 1 as [|p ps Hps IH Hp]; [constructor|].
  destruct (decide (P p)).
  - rewrite filter_cons_True by done. constructor; [done|].
    rewrite Forall_forall in *. intros q Hq.
    apply list_elem_of_filter in Hq as [_ Hq]. auto.
  - now rewrite filter_cons_False.
Qed.

Lemma clocked_stamped start b ps :
  clocked start b ps → ascending ps → stamped start ps.
Proof.
  intros Hc Ha. split.
  - eapply Forall_impl; [exact Hc|]. intros p (Hd & k & _ & Hp). eauto.
  - intros i. now apply ascending_filter.
Qed.

Lemma reencoded_concat src groups q :
  Forall2 reencoded src groups → q ∈ concat groups →
  ∃ p, p ∈ src ∧ pkt_pts q = pkt_pts p ∧ pkt_dts q = pkt_pts p.
Proof.
  induction 1 as [|p g src groups Hg Hgs IH]; simpl; intros Hq.
  - now apply not_elem_of_nil in Hq.
  - apply elem_of_app in Hq as [Hq|Hq].
    + unfold reencoded in Hg. rewrite Forall_forall in Hg.
      destruct (Hg q Hq) as (_ & ? & ?). exists p. split; [left|done].
    + destruct (IH Hq) as (p' & ? & ?). exists p'. split; [now right|done].
Qed.

Lemma ascending_concat src groups :
  Forall2 reencoded src groups →
  Forall (fun p => is_Some (pkt_pts p)) src →
  ascending src → ascending (concat groups).
Proof.
  unfold ascending.
  induction 1 as [|p g src groups Hg Hgs IH]; intros Hsome Ha; simpl.
  - constructor.
  - apply StronglySorted_cons in Ha as [Hp Ha].
    inversion Hsome as [|? ? [a Hpa] Hsome']; subst.
    unfold reencoded in Hg. rewrite Forall_forall in Hg, Hp.
    apply StronglySorted_app. split_and!.
    + intros x y Hx Hy. destruct (Hg x Hx) as (_ & Hxp & _).
      destruct (reencoded_concat _ _ _ Hgs Hy) as (q & Hq & Hyq & _).
      destruct (Hp q Hq) as (a' & b' & Ha' & Hb' & Hle).
      exists a', b'. split_and!; congruence.
    + clear IH Hgs Hp.
      induction g as [|x g IHg]; constructor.
      * apply IHg. intros y Hy. apply Hg. now right.
      * apply Forall_forall. intros y Hy.
        destruct (Hg x ltac:(left)) as (_ & Hx & _).
        destruct (Hg y ltac:(now right)) as (_ & Hy' & _).
        exists a, a. split_and!; try congruence. lia.
    + now apply IH.
Qed.

Lemma transcoded_timed start b kT src n out :
  monotone_clock →
  clocked start b src → ascending src → b ≤ kT →
  transcoded_packets src n (wall_clock kT - start) out →
  clocked start kT out ∧ ascending out.
Proof.
  intros Hmono Hc Ha Hb (groups & fl & Hg & Hfl & ->).
  apply (clocked_append start kT); try done.
  - apply Forall_forall. intros q Hq.
    destruct (reencoded_concat _ _ _ Hg Hq) as (p & Hp & Hqp & Hqd).
    unfold clocked in Hc. rewrite Forall_forall in Hc.
    destruct (Hc p Hp) as (_ & k & Hk & Hpts).
    split; [congruence|]. exists k. split; [lia|congruence].
  - apply (ascending_concat src); try done.
    eapply Forall_impl; [exact Hc|]. intros p (_ & k & _ & ->). eauto.
  - eapply Forall_impl; [exact Hfl|]. intros q (_ & Hp & Hd). split; congruence.
Qed.


(** ** [from_dict_of_lists] *)

Lemma init_w_created file_path cache_dir lossy sep w :
  ∃ t, __init__ file_path "w" cache_dir lossy sep w = (inr t, created file_path w).
Proof.
  unfold __init__, bind, time_time, av_open_w, bind, fresh_id, modify, ret.
  simpl. eexists. reflexivity.
Qed.

Lemma from_dict_of_lists_mismatch data file_path sep lossy w lens :
  map_exn (fun kv => py_len kv.2) (_flatten_dict data EmptyString sep) = inr lens →
  length (remove_dups lens) ≠ 1 →
  from_dict_of_lists data file_path sep lossy w
  = (inl (ValueError "All lists must have the same length"),
     created file_path w).
Proof.
  intros Hlens Hne. unfold from_dict_of_lists.
  destruct (init_w_created file_path default_cache_dir lossy sep w) as [t E].
  rewrite (bind_inr _ _ _ _ _ E).
  unfold bind at 1, lift at 1. rewrite Hlens.
  destruct (Nat.eqb_spec (length (remove_dups lens)) 1) as [H1|H1]; [done|].
  reflexivity.
Qed.


Lemma two_lengths (lens : list nat) i j a b :
  lens !! i = Some a → lens !! j = Some b → a ≠ b →
  length (remove_dups lens) ≠ 1.
Proof.
  intros Hi Hj Hab Hlen.
  assert (Ha : a ∈ remove_dups lens)
    by (apply elem_of_remove_dups; eapply list_elem_of_lookup_2; eauto).
  assert (Hb : b ∈ remove_dups lens)
    by (apply elem_of_remove_dups; eapply list_elem_of_lookup_2; eauto).
  destruct (remove_dups lens) as [|x [|y l]]; simpl in Hlen; try lia.
  apply list_elem_of_singleton in Ha, Hb. congruence.
Qed.

Lemma remove_dups_replicate (n L : nat) :
  remove_dups (replicate (S n) L) = [L].
Proof.
  induction n as [|n IH]; [done|].
  change (replicate (S (S n)) L) with (L :: replicate (S n) L).
  cbn [remove_dups]. destruct (decide_rel _ _ _) as [_|Hn]; [exact IH|].
  exfalso. apply Hn. simpl. left.
Qed.

Lemma lengths_all_same (flat : list (string * PyVal)) (L : nat) :
  Forall (fun kv => py_len kv.2 = inr L) flat →
  map_exn (fun kv => py_len kv.2) flat = inr (replicate (length flat) L).
Proof.
  induction 1 as [|kv flat Hkv Hflat IH]; [done|].
  simpl. now rewrite Hkv, IH.
Qed.

Lemma string_get_lt s : ∀ i, i < String.length s → is_Some (String.get i s).
Proof.
  induction s as [|a s IH]; intros i Hi; simpl in *; [lia|].
  destruct i as [|i]; [eauto|]. apply IH. lia.
Qed.

Lemma getitem_ok v L i :
  py_len v = inr L → is_dict v = false → i < L →
  ∃ x, py_getitem v i = inr x.
Proof.
  intros Hlen Hd Hi. destruct v as [a|s| |l|d]; simpl in *; try done.
  - destruct (nd_shape a) as [|n rest]; [done|]. inversion Hlen; subst.
    rewrite decide_True by done. eauto.
  - inversion Hlen; subst. destruct (string_get_lt s i Hi) as [ch ->]. eauto.
  - inversion Hlen; subst. destruct (lookup_lt_is_Some_2 l i Hi) as [x ->]. eauto.
Qed.

Lemma row_exists (flat : list (string * PyVal)) L i :
  Forall (fun kv => py_len kv.2 = inr L) flat →
  Forall (fun kv => is_dict kv.2 = false) flat →
  i < L →
  ∃ r, map_exn (fun kv => match py_getitem kv.2 i with
                          | inl e => inl e
                          | inr x => inr (kv.1, x)
                          end) flat = inr r
       ∧ row flat i r.
Proof.
  intros Hlen Hleaf Hi.
  induction flat as [|[k v] flat IH].
  - exists []. split; [done|constructor].
  - inversion Hlen; subst. inversion Hleaf; subst. simpl in *.
    destruct (getitem_ok v L i) as [x Hx]; try done.
    destruct IH as (r & Er & Hr); try done.
    exists ((k, x) :: r). rewrite Hx, Er. split; [done|].
    constructor; [|done]. simpl. done.
Qed.

Lemma rows_loop (flat : list (string * PyVal)) L l : ∀ e descr c,
  Forall (fun kv => py_len kv.2 = inr L) flat →
  Forall (fun kv => is_dict kv.2 = false) flat →
  Forall (fun i => i < L) l →
  writer_ok e descr c →
  ∃ rows,
    for_each l (fun i =>
      step <- lift (map_exn (fun kv => match py_getitem kv.2 i with
                                       | inl e => inl e
                                       | inr x => inr (kv.1, x)
                                       end) flat) ;;
      add_by_dict (VDict step) None) e
    = (inr tt, run_calls (steps rows) e)
    ∧ Forall2 (row flat) l rows.
Proof.
  induction l as [|i l IH]; intros e descr c Hlen Hleaf Hl Hok.
  - exists []. split; [done|constructor].
  - inversion Hl; subst.
    destruct (row_exists flat L i) as (r & Er & Hr); try done.
    destruct (add_by_dict_ok e descr c r None Hok)
      as (e1 & extra & c1 & news & stamp & E1 & Hok1 & _).
    destruct (IH e1 (descr ++ extra) c1) as (rows & E & Hrows); try done.
    exists (r :: rows). split; [|now constructor].
    cbn [for_each steps map run_calls call].
    unfold bind at 1. unfold bind at 1, lift at 1. rewrite Er.
    cbv beta iota. rewrite E1. cbv beta iota. rewrite E. reflexivity.
Qed.

Lemma Forall2_seq_rows {A} (P : nat → A → Prop) (L : nat) (rows : list A) :
  Forall2 P (seq 0 L) rows →
  length rows = L ∧ ∀ i r, rows !! i = Some r → P i r.
Proof.
  intros H. split.
  - apply Forall2_length in H. now rewrite length_seq in H.
  - intros i r Hr.
    destruct (Forall2_lookup_r _ _ _ _ _ H Hr) as (j & Hj & HP).
    apply lookup_seq in Hj as [-> _]. exact HP.
Qed.


(** ** Stream metadata and dimensions *)

Lemma add_stream_spec name enc ft c s c' :
  _add_stream_to_container name enc ft c = (inr s, c') →
  streams c' = streams c ++ [s]
  ∧ codec_name s = enc
  ∧ dict_get (metadata s) "FEATURE_NAME" = Some name
  ∧ dict_get (metadata s) "FEATURE_TYPE" = Some (FeatureType_str ft)
  ∧ time_base s = Some (1, 1000)%Z
  ∧ (is_video enc = true →
     ∃ h w, shape ft !! 0 = Some h ∧ shape ft !! 1 = Some w
            ∧ width s = Some w ∧ height s = Some h).
Proof.
  unfold _add_stream_to_container.
  destruct (is_video enc) eqn:Ev.
  - destruct (shape ft !! 1) as [w|] eqn:E1; [|discriminate].
    destruct (shape ft !! 0) as [h|] eqn:E0; [|discriminate].
    intros H. inversion H; subst. simpl. split_and!; try done.
    intros _. exists h, w. split_and!; done.
  - intros H. inversion H; subst. simpl. split_and!; done.
Qed.

Lemma raw_streams_wellformed ftypes owner k descr :
  (∀ i n ty, descr !! i = Some (n, ty) → is_Some (ftypes !! n)) →
  Forall (stream_wellformed ftypes) (raw_streams owner k descr).
Proof.
  revert k. induction descr as [|[n ty] rest IH]; intros k H; simpl;
    constructor.
  - destruct (H 0 n ty eq_refl) as [ft Hft]. exists n, ty, ft.
    simpl. split_and!; done.
  - apply IH. intros i n' ty' Hi. apply (H (S i) n' ty' Hi).
Qed.

Lemma transcoded_stream_wellformed lossy ftypes owner k n ty ft :
  ftypes !! n = Some ft →
  stream_wellformed ftypes (transcoded_stream lossy owner k n ty ft).
Proof.
  intros Hft. exists n, ty, ft. simpl. split_and!; try done.
  destruct (selector_cases lossy VNone ft) as [[(d0 & d1 & rest & Hsh & _) E]|[_ E]];
    rewrite E.
  - rewrite Hsh. intros _. exists d0, d1. simpl.
    destruct lossy; simpl; done.
  - discriminate.
Qed.

Lemma transcoded_streams_wellformed lossy ftypes owner k descr :
  Forall (stream_wellformed ftypes)
    (transcoded_streams lossy ftypes owner k descr).
Proof.
  revert k. induction descr as [|[n ty] rest IH]; intros k; simpl; [constructor|].
  destruct (ftypes !! n) as [ft|] eqn:E; constructor; [|apply IH].
  now apply transcoded_stream_wellformed.
Qed.


(** ** float32 features in video streams *)

Lemma encode_frame_float32 a stream ts :
  is_video (codec_name stream) = true →
  nd_dtype a = "float32" →
  _encode_frame (VArr a) stream ts
  = (map (set_stamp (Some ts)
            (time_base (stream_encode stream
               (Some (set_frame_stamp ts (time_base stream)
                        (_create_frame_depth (VArr a) stream)))).2))
       (stream_encode stream
          (Some (set_frame_stamp ts (time_base stream)
                   (_create_frame_depth (VArr a) stream)))).1,
     (stream_encode stream
        (Some (set_frame_stamp ts (time_base stream)
                 (_create_frame_depth (VArr a) stream)))).2).
Proof.
  intros Hv Hd. unfold _encode_frame. rewrite Hv.
  cbn [from_data dtype]. rewrite Hd.
  change ("float32" =? "float32")%string with true. cbv iota.
  destruct (stream_encode stream _) as [pkts s']. reflexivity.
Qed.


(** ** The decoded cache *)

Lemma read_group_is_group root :
  ∃ d, recursively_read_hdf5_group (Node root) = Node d.
Proof. simpl. eauto. Qed.

(** X2. When the cache file exists and is an HDF5 file, [load] returns
    what the file holds and leaves the world and the trajectory as they
    were: no container is opened, whatever is at the path of the
    trajectory. *)
Lemma load_cache_hit e root save :
  fs (world e) !! cache_file_name (self e) = Some (H5File root) →
  ∃ d,
    recursively_read_hdf5_group (Node root) = Node d
    ∧ load save "numpy" e = (inr (LNumpy d), e).
Proof.
  intros Hc. destruct (read_group_is_group root) as [d Hd].
  exists d. split; [done|].
  unfold load, bind, self_get, gets, in_world, os_path_exists, gets. simpl.
  rewrite Hc. rewrite bool_decide_eq_true_2 by eauto.
  unfold load_return. simpl.
  unfold bind, try_except, read_cache, bind, self_get, gets, in_world,
    h5_open_r, bind, gets. simpl.
  rewrite Hc. unfold ret. simpl in Hd. injection Hd as <-.
  now destruct e.
Qed.

(** X3. When the cache file exists and cannot be read as an HDF5 file,
    [load] falls back to the decode of the container. *)
Lemma load_cache_unreadable e ss ps tr save :
  fs (world e) !! cache_file_name (self e) = Some (MkvFile ss ps tr) →
  load save "numpy" e
  = (a <- _load_from_container ;; ret (LNumpy (flat a))) e.
Proof.
  intros Hc.
  unfold load, bind, self_get, gets, in_world, os_path_exists, gets. simpl.
  rewrite Hc. rewrite bool_decide_eq_true_2 by eauto.
  unfold load_return. simpl.
  unfold bind, try_except, read_cache, bind, self_get, gets, in_world,
    h5_open_r, bind, gets, raise. simpl.
  rewrite Hc. simpl.
  destruct e as [w t]. simpl.
  destruct (_load_from_container _) as [[x|a] e']; reflexivity.
Qed.

(** ** The arrays of the reader *)

Lemma dict_get_values {V} (P : V → Prop) (d : list (string * V)) k v :
  Forall (fun kv => P kv.2) d → dict_get d k = Some v → P v.
Proof.
  induction 1 as [|[k' v'] d Hx Hd IH]; simpl; [done|].
  destruct (String.eqb k' k); [|auto].
  intros E. inversion E; subst. exact Hx.
Qed.

Lemma np_empty_sized n ft : sized n (np_empty n ft).
Proof. split; simpl; [apply length_replicate|done]. Qed.

Lemma preallocate_sized n ss : ∀ arrays e r e',
  Forall (fun kv => sized n kv.2) arrays →
  preallocate n ss arrays e = (inr r, e') →
  Forall (fun kv => sized n kv.2) r.
Proof.
  induction ss as [|s ss IH]; intros arrays e r e' Ha H; simpl in H.
  - unfold ret in H. inversion H; subst. done.
  - destruct (dict_get (metadata s) "FEATURE_NAME") as [name|]; [|eauto].
    unfold bind, lift in H.
    destruct (FeatureType_from_str _) as [x|ft]; [discriminate|].
    unfold self_set, modify in H. eapply IH; [|exact H].
    apply (dict_set_values (sized n)); [done|apply np_empty_sized].
Qed.

Lemma store_decoded_sized n name data st :
  Forall (fun kv => sized n kv.2) (np_cache st) →
  Forall (fun kv => sized n kv.2) (np_cache (store_decoded name data st).2).
Proof.
  intros Ha. unfold store_decoded.
  destruct (d_feature_length st !! name) as [cursor|]; [|done].
  destruct (dict_get (np_cache st) name) as [arr|] eqn:Harr; [|done].
  destruct (decide _); [|done]. simpl.
  apply (dict_set_values (sized n)); [done|].
  apply (dict_get_values (sized n)) in Harr as [H1 H2]; [|done].
  split; simpl; [now rewrite length_insert|done].
Qed.

Lemma decode_frames_sized n ft name frames : ∀ st,
  Forall (fun kv => sized n kv.2) (np_cache st) →
  Forall (fun kv => sized n kv.2)
    (np_cache
       (for_each frames (fun frame =>
          bind (lift (decode_frame ft frame))
            (fun data => store_decoded name data)) st).2).
Proof.
  induction frames as [|f frames IH]; intros st Ha; simpl; [done|].
  unfold bind at 1. unfold bind at 1, lift.
  destruct (decode_frame ft f) as [x|data]; simpl; [done|].
  pose proof (store_decoded_sized n name data st Ha) as H1.
  destruct (store_decoded name data st) as [[x|[]] st1]; simpl in *; auto.
Qed.

Lemma decode_packet_sized n ss packet st :
  Forall (fun kv => sized n kv.2) (np_cache st) →
  Forall (fun kv => sized n kv.2) (np_cache (decode_packet ss packet st).2).
Proof.
  intros Ha. unfold decode_packet.
  destruct (ss !! pkt_stream packet) as [stream|]; [|done].
  unfold bind at 1. unfold set_last, modify. simpl.
  destruct (dict_get (metadata stream) "FEATURE_NAME") as [name|]; [|done].
  unfold bind at 1. unfold lift at 1.
  destruct (FeatureType_from_str _) as [x|ft]; [done|].
  destruct (String.eqb (codec_name stream) rawvideo).
  - destruct (body_is_empty _); [done|].
    unfold bind, lift. destruct (pickle_loads _) as [x|data]; [done|].
    now apply store_decoded_sized.
  - unfold bind at 1. unfold lift at 1.
    destruct (packet_decode _) as [x|frames]; [done|].
    now apply decode_frames_sized.
Qed.

Lemma decode_packets_sized n ss pkts : ∀ st,
  Forall (fun kv => sized n kv.2) (np_cache st) →
  Forall (fun kv => sized n kv.2)
    (np_cache (for_each pkts (decode_packet ss) st).2).
Proof.
  induction pkts as [|p pkts IH]; intros st Ha; simpl; [done|].
  unfold bind.
  pose proof (decode_packet_sized n ss p st Ha) as H1.
  destruct (decode_packet ss p st) as [[x|[]] st1]; simpl in *; auto.
Qed.

Lemma demux_one_length c s :
  _get_length_of_stream c s
  = length (filter (fun p => is_Some (pkt_dts p)) (of_stream (index s) (packets c))).
Proof.
  unfold _get_length_of_stream, demux, of_stream.
  rewrite filter_app.
  replace (filter (λ p : Packet, is_Some (pkt_dts p)) (map flush_packet [index s]))
    with (@nil Packet) by reflexivity.
  rewrite app_nil_r. do 2 f_equal.
  apply list_filter_iff. intros p. rewrite list_elem_of_singleton. done.
Qed.

(** X1. Every array [_load_from_container] returns has one slot per
    packet with a dts of the first stream of the file, whatever its own
    stream holds, and that number as the first entry of its shape. *)
Lemma load_from_container_lengths e arrays e' :
  _load_from_container e = (inr arrays, e') →
  ∃ ss ps trailer first,
    fs (world e) !! path (self e) = Some (MkvFile ss ps trailer)
    ∧ ss !! 0 = Some first
    ∧ Forall (fun kv =>
        sized (length (filter (fun p => is_Some (pkt_dts p))
                         (of_stream (index first) ps))) kv.2) arrays.
Proof.
  intros H. destruct e as [w t]. unfold _load_from_container in H.
  cbv beta iota delta [bind self_get gets in_world av_open_r fresh_id] in H.
  simpl in H.
  destruct (fs w !! path t) as [[ss ps trailer|root]|] eqn:Hf;
    simpl in H; try discriminate.
  rewrite list_lookup_fmap in H.
  destruct (ss !! 0) as [first|] eqn:H0; simpl in H; [|discriminate].
  exists ss, ps, trailer, first. split; [done|]. split; [done|].
  rewrite Hf in H. unfold ret at 1 in H. simpl in H.
  rewrite demux_one_length in H. simpl in H.
  set (n := length _) in *.
  destruct (preallocate n _ [] _) as [[x|arrays0] e1] eqn:Hp; [discriminate|].
  apply (preallocate_sized n) in Hp; [|constructor].
  unfold run_local in H.
  match type of H with
  | context [for_each ?pkts (decode_packet ?l) ?st0] =>
      pose proof (decode_packets_sized n l pkts st0 Hp) as Hd;
        destruct (for_each pkts (decode_packet l) st0) as [[x|[]] st1];
        [discriminate|]
  end.
  simpl in Hd.
  destruct (last_length st1) as [[x|[]] st2] eqn:Hl; [discriminate|].
  assert (st2 = st1) as ->.
  { unfold last_length, bind, get in Hl.
    destruct (last_feature_name st1) as [[nm|]|]; try discriminate.
    destruct (bool_decide _); inversion Hl; done. }
  simpl in H. unfold ret in H. inversion H; subst. exact Hd.
Qed.

(** ** Refused calls *)

(** [add] refuses a map and [add_by_dict] refuses everything that is
    not a map: each raises its [ValueError] and leaves the trajectory and
    the files as they were, the clock unread. *)
Lemma invalid_values_refused (feature : string) (d : list (string * PyVal))
    (v : PyVal) (timestamp : option Z) (e : Env) :
  add feature (VDict d) timestamp e
  = (inl (ValueError "Use add_by_dict for dictionary"), e)
  ∧ match v with
    | VDict _ => True
    | _ => add_by_dict v timestamp e
           = (inl (ValueError "Use add for non-dictionary data"), e)
    end.
Proof. split; [reflexivity|]. destruct v; done. Qed.

(** [__init__] raises a [ValueError] for a mode other than [r] and
    [w], and a [FileNotFoundError] in mode [r] when no file is at the path;
    in both cases it has read the clock and left the files as they were. *)
Lemma init_refused (file_path mode cache_dir sep : string) (lossy : bool)
    (w : World) :
  (mode ≠ "w" → mode ≠ "r" →
   __init__ file_path mode cache_dir lossy sep w
   = (inl (ValueError "Invalid mode, must be 'r' or 'w'"),
      {| fs := fs w; tick := S (tick w); next_id := next_id w |}))
  ∧ (fs w !! file_path = None →
     __init__ file_path "r" cache_dir lossy sep w
     = (inl (FileNotFoundError file_path),
        {| fs := fs w; tick := S (tick w); next_id := next_id w |})).
Proof.
  split.
  - intros Hw Hr. unfold __init__, bind, time_time. simpl.
    destruct (String.eqb_spec mode "w"); [done|].
    destruct (String.eqb_spec mode "r"); [done|]. reflexivity.
  - intros Hf. unfold __init__, bind, time_time, os_path_exists, gets. simpl.
    rewrite Hf. rewrite bool_decide_eq_false_2; [reflexivity|].
    intros [x Hx]. discriminate.
Qed.

(** * More properties *)

(** ** Maps as association lists *)

Lemma dict_set_fresh {V} (d : list (string * V)) k v :
  k ∉ d.*1 → dict_set d k v = d ++ [(k, v)].
Proof.
  induction d as [|[k' v'] d IH]; intros Hk; simpl; [done|].
  rewrite fmap_cons, not_elem_of_cons in Hk. destruct Hk as [Hne Hk].
  destruct (String.eqb_spec k' k) as [->|_]; [done|]. now rewrite IH.
Qed.

Lemma dict_get_at {V} (d : list (string * V)) j k a :
  NoDup d.*1 → d !! j = Some (k, a) → dict_get d k = Some a.
Proof.
  revert j. induction d as [|[k' v'] d IH]; intros j Hnd Hj; [done|].
  rewrite fmap_cons in Hnd. apply NoDup_cons in Hnd as [Hk' Hnd].
  destruct j as [|j]; simpl in *.
  - inversion Hj; subst. now rewrite String.eqb_refl.
  - destruct (String.eqb_spec k' k) as [->|_]; [|eauto].
    exfalso. apply Hk'. apply list_elem_of_fmap. exists (k, a).
    split; [done|]. eapply list_elem_of_lookup_2; eauto.
Qed.

Lemma dict_set_at {V} (d : list (string * V)) j k a v :
  NoDup d.*1 → d !! j = Some (k, a) → dict_set d k v = <[j := (k, v)]> d.
Proof.
  revert j. induction d as [|[k' v'] d IH]; intros j Hnd Hj; [done|].
  rewrite fmap_cons in Hnd. apply NoDup_cons in Hnd as [Hk' Hnd].
  destruct j as [|j]; simpl in *.
  - inversion Hj; subst. now rewrite String.eqb_refl.
  - destruct (String.eqb_spec k' k) as [->|_]; [|f_equal; eauto].
    exfalso. apply Hk'. apply list_elem_of_fmap. exists (k, a).
    split; [done|]. eapply list_elem_of_lookup_2; eauto.
Qed.

Lemma dict_get_None {V} (d : list (string * V)) k :
  k ∉ d.*1 → dict_get d k = None.
Proof.
  induction d as [|[k' v'] d IH]; intros Hk; simpl; [done|].
  rewrite fmap_cons, not_elem_of_cons in Hk. destruct Hk as [Hne Hk].
  destruct (String.eqb_spec k' k) as [->|_]; [done|]. auto.
Qed.

(** ** The reader on a file of pickled values *)

Lemma filled_empty n ft : filled n ft [] = np_empty n ft.
Proof. unfold filled. simpl. now rewrite Nat.sub_0_r. Qed.

Lemma decoded_arrays_nil n descr :
  decoded_arrays n descr []
  = map (fun nt => (nt.1, np_empty n (parsed nt.2))) descr.
Proof.
  apply list_eq. intros i. unfold decoded_arrays.
  rewrite list_lookup_imap, list_lookup_fmap.
  destruct (descr !! i) as [[name ty]|]; simpl; [|done].
  now rewrite filled_empty.
Qed.

Lemma decoded_arrays_names n descr ps : (decoded_arrays n descr ps).*1 = descr.*1.
Proof.
  apply list_eq. intros i. unfold decoded_arrays.
  rewrite !list_lookup_fmap, list_lookup_imap.
  now destruct (descr !! i) as [[name ty]|].
Qed.

Lemma readable_parsed descr i name ty :
  readable descr → descr !! i = Some (name, ty) →
  FeatureType_from_str (Some ty) = inr (parsed ty).
Proof.
  intros Hr Hi. eapply Forall_lookup_1 in Hr; [|exact Hi].
  destruct Hr as [ft Hft].
  change (FeatureType_from_str (Some ty) = inr ft) in Hft.
  unfold parsed. now rewrite Hft.
Qed.

Lemma preallocate_raw n o rest : ∀ k arrays e,
  NoDup (arrays.*1 ++ rest.*1) →
  readable rest →
  ∃ e',
    preallocate n (raw_streams o k rest) arrays e
    = (inr (arrays ++ map (fun nt => (nt.1, np_empty n (parsed nt.2))) rest), e')
    ∧ world e' = world e.
Proof.
  induction rest as [|[name ty] rest IH]; intros k arrays e Hnd Hr;
    cbn [raw_streams preallocate map].
  - exists e. now rewrite app_nil_r.
  - inversion Hr as [|? ? [ft Hft] Hr']; subst.
    change (FeatureType_from_str (Some ty) = inr ft) in Hft.
    change (dict_get (metadata (raw_stream o k name ty)) "FEATURE_NAME")
      with (Some name).
    change (dict_get (metadata (raw_stream o k name ty)) "FEATURE_TYPE")
      with (Some ty).
    cbv iota beta.
    unfold bind at 1. unfold lift at 1. rewrite Hft.
    unfold bind at 1. unfold self_set at 1, modify at 1.
    assert (Hfresh : name ∉ arrays.*1).
    { apply NoDup_app in Hnd as (_ & Hd & _). intros Hin.
      apply (Hd _ Hin). rewrite fmap_cons. left. }
    rewrite dict_set_fresh by done.
    destruct (IH (S k) (arrays ++ [(name, np_empty n ft)])
                {| world := world e;
                   self := set_feature_name_to_feature_type
                             (<[name := ft]> (feature_name_to_feature_type (self e)))
                             (self e) |}) as (e' & E & Hw); [|done|].
    { rewrite fmap_app, <- app_assoc. exact Hnd. }
    exists e'. rewrite E, <- app_assoc. split; [|done].
    do 3 f_equal. cbn [map fst snd]. unfold parsed. now rewrite Hft.
Qed.

Lemma stream_values_app i l1 l2 :
  stream_values i (l1 ++ l2) = stream_values i l1 ++ stream_values i l2.
Proof. apply omap_app. Qed.

Lemma stream_values_flush i l :
  stream_values i (map flush_packet l) = [].
Proof.
  induction l as [|j l IH]; [done|]. unfold stream_values in *. simpl.
  destruct (decide (j = i)); exact IH.
Qed.

Lemma raw_length c s n :
  Forall (raw_packet n) (packets c) →
  _get_length_of_stream c s = length (stream_values (index s) (packets c)).
Proof.
  intros H. rewrite demux_one_length. unfold of_stream, stream_values.
  induction H as [|p ps (Hlt & [z Hz] & Hd & [v Hv]) Hps IH]; [done|].
  rewrite filter_cons. simpl.
  destruct (decide (pkt_stream p = index s)) as [E|E].
  - rewrite filter_cons. rewrite decide_True by (rewrite Hd, Hz; eauto).
    rewrite Hv. simpl. now rewrite IH.
  - exact IH.
Qed.

Lemma insert_filled (vals : list PyVal) n v :
  length vals < n →
  <[length vals := Some v]>
    (map Some vals ++ replicate (n - length vals) (@None PyVal))
  = map Some (vals ++ [v]) ++ replicate (n - length (vals ++ [v])) None.
Proof.
  intros Hlt.
  replace (length vals) with (length (map Some vals) + 0) at 1
    by (rewrite length_map; lia).
  rewrite insert_app_r, length_app. simpl.
  replace (n - length vals) with (S (n - (length vals + 1))) by lia.
  simpl. rewrite map_app, <- app_assoc. done.
Qed.

Lemma descr_name_inj (descr : list (string * string)) i j name ty ty' :
  NoDup descr.*1 → descr !! i = Some (name, ty) → descr !! j = Some (name, ty') →
  i = j.
Proof.
  intros Hnd Hi Hj. eapply NoDup_lookup; [exact Hnd| |].
  - rewrite list_lookup_fmap, Hi. reflexivity.
  - rewrite list_lookup_fmap, Hj. reflexivity.
Qed.

Lemma decoded_arrays_lookup n descr ps i name ty :
  descr !! i = Some (name, ty) →
  decoded_arrays n descr ps !! i
  = Some (name, filled n (parsed ty) (stream_values i ps)).
Proof.
  intros Hi. unfold decoded_arrays. now rewrite list_lookup_imap, Hi.
Qed.

(** One packet of the decoding loop: the value goes to the next free slot
    of the array of its feature; when the array is full the loop stops
    with an [IndexError]. *)
Lemma decode_raw_packet n o descr pre st p :
  NoDup descr.*1 → readable descr →
  decoding_of n descr pre st →
  raw_packet (length descr) p →
  length (stream_values (pkt_stream p) pre) ≤ n →
  (length (stream_values (pkt_stream p) pre) < n →
   ∃ st', decode_packet (raw_streams o 0 descr) p st = (inr tt, st')
          ∧ decoding_of n descr (pre ++ [p]) st')
  ∧ (length (stream_values (pkt_stream p) pre) = n →
     ∃ st', decode_packet (raw_streams o 0 descr) p st = (inl IndexError, st')).
Proof.
  intros Hnd Hr [Hcache Hcur Hlast] (Hlt & [z Hz] & Hd & [v Hv]) Hle.
  destruct (lookup_lt_is_Some_2 descr _ Hlt) as [[name ty] Hj].
  pose proof (raw_streams_lookup o 0 descr _ name ty Hj) as Hss.
  pose proof (decoded_arrays_lookup n descr pre _ name ty Hj) as Harr.
  assert (Hget : dict_get (np_cache st) name
                 = Some (filled n (parsed ty) (stream_values (pkt_stream p) pre))).
  { rewrite Hcache. eapply dict_get_at; [|exact Harr].
    now rewrite decoded_arrays_names. }
  assert (Hslots : length (arr_slots (filled n (parsed ty)
                                        (stream_values (pkt_stream p) pre))) = n).
  { simpl. rewrite length_app, length_map, length_replicate. lia. }
  assert (E : decode_packet (raw_streams o 0 descr) p st
              = store_decoded name v
                  {| np_cache := np_cache st;
                     d_feature_length := d_feature_length st;
                     last_feature_name := Some (Some name) |}).
  { unfold decode_packet. rewrite Hss.
    change (dict_get (metadata (raw_stream o (0 + pkt_stream p) name ty))
              "FEATURE_NAME") with (Some name).
    change (dict_get (metadata (raw_stream o (0 + pkt_stream p) name ty))
              "FEATURE_TYPE") with (Some ty).
    change (codec_name (raw_stream o (0 + pkt_stream p) name ty)) with rawvideo.
    rewrite (readable_parsed descr _ name ty Hr Hj), String.eqb_refl, Hv.
    reflexivity. }
  rewrite E. unfold store_decoded. cbn [np_cache d_feature_length last_feature_name].
  rewrite (Hcur _ _ _ Hj), Hget, Hslots.
  split.
  - intros Hlt'. rewrite decide_True by done.
    eexists. split; [reflexivity|].
    split; cbn [np_cache d_feature_length last_feature_name].
    + rewrite Hcache.
      assert (Hnd' : NoDup (decoded_arrays n descr pre).*1)
        by now rewrite decoded_arrays_names.
      rewrite (dict_set_at _ _ _ _ _ Hnd' Harr).
      apply list_eq. intros i.
      destruct (decide (i = pkt_stream p)) as [->|Hne].
      * rewrite list_lookup_insert_eq
          by (apply lookup_lt_is_Some; rewrite Harr; eauto).
        rewrite (decoded_arrays_lookup _ _ _ _ name ty Hj).
        do 2 f_equal. unfold filled. cbn [arr_slots arr_dtype arr_shape np_empty].
        f_equal. rewrite insert_filled by done.
        rewrite stream_values_app. unfold stream_values at 3. simpl.
        rewrite decide_True by done. now rewrite Hv.
      * rewrite list_lookup_insert_ne by done.
        unfold decoded_arrays. rewrite !list_lookup_imap.
        destruct (descr !! i) as [[name' ty']|]; [|done]. simpl.
        rewrite stream_values_app. unfold stream_values at 3. simpl.
        rewrite decide_False by done. now rewrite app_nil_r.
    + intros i name' ty' Hi.
      destruct (decide (i = pkt_stream p)) as [->|Hne].
      * rewrite Hj in Hi. inversion Hi; subst. rewrite lookup_insert_eq.
        rewrite stream_values_app, length_app. unfold stream_values at 3. simpl.
        rewrite decide_True by done. rewrite Hv. simpl. f_equal. lia.
      * rewrite lookup_insert_ne.
        2:{ intros ->. apply Hne. eapply descr_name_inj; eauto. }
        rewrite (Hcur _ _ _ Hi), stream_values_app.
        unfold stream_values at 3. simpl.
        rewrite decide_False by done. now rewrite app_nil_r.
    + exists name. split; [done|]. apply list_elem_of_fmap.
      exists (name, ty). split; [done|]. eapply list_elem_of_lookup_2; eauto.
  - intros ->. rewrite decide_False by lia. eauto.
Qed.

Lemma stream_values_one i p :
  raw_packet (S (pkt_stream p)) p →
  stream_values i [p] = (if decide (pkt_stream p = i)
                         then stream_values (pkt_stream p) [p] else [])
  ∧ length (stream_values (pkt_stream p) [p]) = 1.
Proof.
  intros (_ & _ & _ & [v Hv]). unfold stream_values. simpl.
  rewrite (decide_True (P := pkt_stream p = pkt_stream p)) by done.
  rewrite Hv. split; [|done]. now destruct (decide (pkt_stream p = i)).
Qed.

Lemma decode_raw_packets n o descr :
  NoDup descr.*1 → readable descr →
  ∀ rest pre st,
    decoding_of n descr pre st →
    Forall (raw_packet (length descr)) rest →
    (∀ i, i < length descr → length (stream_values i pre) ≤ n) →
    ((∀ i, i < length descr → length (stream_values i (pre ++ rest)) ≤ n) →
     ∃ st', for_each rest (decode_packet (raw_streams o 0 descr)) st = (inr tt, st')
            ∧ decoding_of n descr (pre ++ rest) st')
    ∧ ((∃ i, i < length descr ∧ n < length (stream_values i (pre ++ rest))) →
       ∃ st', for_each rest (decode_packet (raw_streams o 0 descr)) st
              = (inl IndexError, st')).
Proof.
  intros Hnd Hr. induction rest as [|p rest IH]; intros pre st Hdec Hps Hpre.
  - rewrite app_nil_r. split.
    + intros _. exists st. done.
    + intros (i & Hi & Hn). specialize (Hpre i Hi). lia.
  - inversion Hps as [|? ? Hp Hps']; subst.
    pose proof Hp as (Hlt & Hz & Hd & Hv).
    assert (Hone : raw_packet (S (pkt_stream p)) p) by (split_and!; auto).
    destruct (stream_values_one (pkt_stream p) p Hone) as [_ Hlen1].
    destruct (decode_raw_packet n o descr pre st p Hnd Hr Hdec Hp (Hpre _ Hlt))
      as [Hgo Hstop].
    replace (pre ++ p :: rest) with ((pre ++ [p]) ++ rest)
      by now rewrite <- app_assoc.
    cbn [for_each]. unfold bind.
    destruct (decide (length (stream_values (pkt_stream p) pre) < n)) as [Hc|Hc].
    + destruct (Hgo Hc) as (st1 & E1 & Hdec1). rewrite E1.
      apply IH; [done|done|].
      intros i Hi. rewrite stream_values_app, length_app.
      destruct (stream_values_one i p Hone) as [-> _].
      destruct (decide (pkt_stream p = i)) as [<-|_].
      * rewrite Hlen1. lia.
      * simpl. specialize (Hpre i Hi). lia.
    + assert (Heq : length (stream_values (pkt_stream p) pre) = n)
        by (specialize (Hpre _ Hlt); lia).
      destruct (Hstop Heq) as (st1 & E1). rewrite E1.
      split; [|eauto].
      intros Hall. specialize (Hall _ Hlt).
      rewrite !stream_values_app, !length_app, Hlen1 in Hall. lia.
Qed.

Lemma decode_flush_packets n o descr pre l : ∀ st,
  readable descr →
  decoding_of n descr pre st →
  Forall (fun i => i < length descr) l →
  ∃ st', for_each (map flush_packet l) (decode_packet (raw_streams o 0 descr)) st
         = (inr tt, st')
         ∧ decoding_of n descr pre st'.
Proof.
  induction l as [|j l IH]; intros st Hr Hdec Hl; [exists st; done|].
  inversion Hl as [|? ? Hj Hl']; subst.
  destruct (lookup_lt_is_Some_2 descr _ Hj) as [[name ty] Hdj].
  pose proof (raw_streams_lookup o 0 descr _ name ty Hdj) as Hss.
  cbn [map for_each]. unfold bind at 1.
  assert (E : decode_packet (raw_streams o 0 descr) (flush_packet j) st
              = (inr tt, {| np_cache := np_cache st;
                            d_feature_length := d_feature_length st;
                            last_feature_name := Some (Some name) |})).
  { unfold decode_packet. cbn [pkt_stream flush_packet pkt_body]. rewrite Hss.
    change (dict_get (metadata (raw_stream o (0 + j) name ty)) "FEATURE_NAME")
      with (Some name).
    change (dict_get (metadata (raw_stream o (0 + j) name ty)) "FEATURE_TYPE")
      with (Some ty).
    change (codec_name (raw_stream o (0 + j) name ty)) with rawvideo.
    rewrite (readable_parsed descr _ name ty Hr Hdj), String.eqb_refl.
    reflexivity. }
  rewrite E. apply IH; [done| |done].
  destruct Hdec as [Hc Hcur Hlast]. split; [done|done|].
  exists name. split; [done|]. apply list_elem_of_fmap.
  exists (name, ty). split; [done|]. eapply list_elem_of_lookup_2; eauto.
Qed.

Lemma raw_streams_names o descr : ∀ k,
  omap (fun s => dict_get (metadata s) "FEATURE_NAME") (raw_streams o k descr)
  = descr.*1.
Proof.
  induction descr as [|[name ty] rest IH]; intros k; [done|].
  rewrite fmap_cons, <- (IH (S k)). reflexivity.
Qed.

Lemma zero_cursors_names (l : list string) :
  (map (fun n : string => (n, 0)) l).*1 = l.
Proof. induction l as [|x l IH]; [done|]. simpl. now f_equal. Qed.

Lemma last_length_ok n descr pre st :
  decoding_of n descr pre st → last_length st = (inr tt, st).
Proof.
  intros [_ Hcur (name & Hl & Hin)]. unfold last_length, bind, get.
  apply list_elem_of_fmap in Hin as ([name' ty] & -> & Hin).
  apply list_elem_of_lookup_1 in Hin as [i Hi]. cbn [fst] in Hl.
  rewrite Hl, (Hcur _ _ _ Hi). rewrite bool_decide_eq_true_2 by eauto. done.
Qed.

Lemma load_raw_run e o descr ps tr :
  fs (world e) !! path (self e) = Some (MkvFile (raw_streams o 0 descr) ps tr) →
  descr ≠ [] → NoDup descr.*1 → readable descr →
  Forall (raw_packet (length descr)) ps →
  ∃ st0 e1,
    decoding_of (length (stream_values 0 ps)) descr [] st0
    ∧ fs (world e1) = fs (world e)
    ∧ _load_from_container e
      = match bind (for_each (ps ++ map flush_packet (seq 0 (length descr)))
                      (decode_packet (raw_streams (S (next_id (world e))) 0 descr)))
                (fun _ => last_length) st0 with
        | (inl x, _) => (inl x, e1)
        | (inr _, st') => (inr (np_cache st'), e1)
        end.
Proof.
  intros Hf Hne Hnd Hr Hps. destruct e as [w t]. simpl in Hf.
  destruct descr as [|[name0 ty0] rest0] eqn:Ed; [done|]. rewrite <- Ed in *.
  assert (H0 : descr !! 0 = Some (name0, ty0)) by now rewrite Ed.
  clear Ed.
  unfold _load_from_container.
  cbv beta iota delta [bind self_get gets in_world av_open_r fresh_id].
  simpl. rewrite Hf. simpl.
  rewrite retag_raw_streams, (raw_streams_lookup _ 0 descr 0 name0 ty0 H0).
  rewrite Hf. unfold ret at 1. simpl.
  rewrite retag_raw_streams.
  rewrite (raw_length _ _ (length descr)) by exact Hps.
  simpl.
  set (n := length (stream_values 0 ps)).
  match goal with
  | |- context [preallocate n _ [] ?e0] =>
      destruct (preallocate_raw n (S (next_id w)) descr 0 [] e0)
        as (e1 & Ep & Hw1); [exact Hnd|exact Hr|]; rewrite Ep
  end.
  rewrite raw_streams_index, demux_all by exact Hps.
  rewrite raw_streams_names, app_nil_l, <- decoded_arrays_nil.
  cbn [packets].
  match goal with
  | |- context [run_local _ ?s0 e1] => exists s0, e1
  end.
  split; [|split; [now rewrite Hw1|]].
  2:{ unfold run_local.
      match goal with
      | |- context [for_each ?l ?f ?s] => destruct (for_each l f s) as [[x|[]] st1]
      end; [reflexivity|].
      destruct (last_length st1) as [[x|[]] st2]; [reflexivity|].
      destruct e1; reflexivity. }
  split; cbn [np_cache d_feature_length last_feature_name].
  - reflexivity.
  - intros i name ty Hi. simpl.
    apply elem_of_list_to_map_1.
    + now rewrite zero_cursors_names.
    + apply list_elem_of_fmap. exists name. split; [done|].
      apply list_elem_of_fmap. exists (name, ty). split; [done|].
      eapply list_elem_of_lookup_2; eauto.
  - rewrite last_lookup, raw_streams_length.
    destruct (lookup_lt_is_Some_2 descr (pred (length descr))) as [[nl tl] Hl].
    { destruct descr; [done|]. simpl. lia. }
    rewrite (raw_streams_lookup _ 0 descr _ nl tl Hl). simpl.
    exists nl. split; [done|]. apply list_elem_of_fmap.
    exists (nl, tl). split; [done|]. eapply list_elem_of_lookup_2; eauto.
Qed.

Lemma load_no_streams e ps tr :
  fs (world e) !! path (self e) = Some (MkvFile [] ps tr) →
  _load_from_container e
  = (inl IndexError,
     {| world := {| fs := fs (world e); tick := tick (world e);
                    next_id := S (next_id (world e)) |};
        self := self e |}).
Proof.
  intros Hf. destruct e as [w t]. simpl in *.
  unfold _load_from_container.
  cbv beta iota delta [bind self_get gets in_world av_open_r fresh_id].
  simpl. rewrite Hf. reflexivity.
Qed.

(** The reader on a file of pickled values.  The arrays have as many slots
    as the first stream has packets; every value goes to the next free
    slot of the array of its feature, so a stream with fewer packets
    leaves slots unwritten and a stream with more packets ends the call
    with an [IndexError]. *)
Lemma load_raw_file e o descr ps tr :
  fs (world e) !! path (self e) = Some (MkvFile (raw_streams o 0 descr) ps tr) →
  descr ≠ [] → NoDup descr.*1 → readable descr →
  Forall (raw_packet (length descr)) ps →
  ((∀ i, i < length descr →
         length (stream_values i ps) ≤ length (stream_values 0 ps)) →
   ∃ e', _load_from_container e
         = (inr (decoded_arrays (length (stream_values 0 ps)) descr ps), e')
         ∧ fs (world e') = fs (world e))
  ∧ ((∃ i, i < length descr
           ∧ length (stream_values 0 ps) < length (stream_values i ps)) →
     ∃ e', _load_from_container e = (inl IndexError, e')
           ∧ fs (world e') = fs (world e)).
Proof.
  intros Hf Hne Hnd Hr Hps.
  destruct (load_raw_run e o descr ps tr Hf Hne Hnd Hr Hps)
    as (st0 & e1 & Hdec & Hfs & E).
  set (n := length (stream_values 0 ps)) in *.
  destruct (decode_raw_packets n (S (next_id (world e))) descr Hnd Hr ps [] st0
              Hdec Hps) as [Hgo Hstop].
  { intros i _. simpl. lia. }
  simpl in Hgo, Hstop.
  split.
  - intros Hall. destruct (Hgo Hall) as (st1 & E1 & Hdec1).
    destruct (decode_flush_packets n (S (next_id (world e))) descr ps
                (seq 0 (length descr)) st1 Hr Hdec1) as (st2 & E2 & Hdec2).
    { apply Forall_forall. intros i Hi. apply elem_of_seq in Hi. lia. }
    exists e1. split; [|done]. rewrite E. unfold bind.
    rewrite (for_each_app _ _ _ _ _ E1), E2.
    rewrite (last_length_ok _ _ _ _ Hdec2).
    now destruct Hdec2 as [-> _ _].
  - intros Hbad. destruct (Hstop Hbad) as (st1 & E1).
    exists e1. split; [|done]. rewrite E. unfold bind.
    assert (E' : for_each (ps ++ map flush_packet (seq 0 (length descr)))
                   (decode_packet (raw_streams (S (next_id (world e))) 0 descr)) st0
                 = (inl IndexError, st1)).
    { clear -E1. revert st0 E1. induction ps as [|p ps IH]; intros st0 E1.
      - discriminate.
      - simpl in *. unfold bind in *.
        destruct (decode_packet _ p st0) as [[x|[]] st']; [done|]. now apply IH. }
    now rewrite E'.
Qed.

(** ** Closing a writer of small values *)

Lemma transcoded_streams_plain lossy ftypes o descr : ∀ k,
  (∀ i n ty, descr !! i = Some (n, ty) →
     ∃ ft, ftypes !! n = Some ft ∧ ¬ image_like (shape ft)) →
  transcoded_streams lossy ftypes o k descr = raw_streams o k descr.
Proof.
  induction descr as [|[n ty] rest IH]; intros k H; [done|].
  cbn [transcoded_streams raw_streams].
  destruct (H 0 n ty eq_refl) as (ft & -> & Hft).
  rewrite IH by (intros i n' ty' Hi; apply (H (S i) n' ty' Hi)).
  f_equal. unfold transcoded_stream.
  destruct (selector_cases lossy VNone ft) as [[Him _]|[_ ->]]; [done|].
  reflexivity.
Qed.

Lemma transcode_packets_verbatim d descr ps : ∀ c,
  streams c = raw_streams (c_id c) 0 descr →
  Forall (raw_packet (length descr)) ps →
  (∀ i, i < length descr → d !! i = Some i) →
  for_each ps (transcode_packet d) c
  = (inr tt, set_packets (packets c ++ ps) c).
Proof.
  induction ps as [|p ps IH]; intros c Hs Hps Hd.
  - simpl. rewrite app_nil_r. now destruct c.
  - inversion Hps as [|? ? (Hlt & [z Hz] & Hdts & [v Hv]) Hps']; subst.
    destruct (lookup_lt_is_Some_2 descr _ Hlt) as [[n ty] Hj].
    cbn [for_each]. unfold bind at 1.
    assert (E : transcode_packet d p c
                = (inr tt, set_packets (packets c ++ [p]) c)).
    { unfold transcode_packet, is_packet_valid.
      rewrite Hdts, Hz. rewrite bool_decide_eq_true_2 by eauto. simpl.
      rewrite (Hd _ Hlt). unfold bind at 1, gets at 1.
      rewrite Hs, (raw_streams_lookup _ 0 descr _ n ty Hj). simpl.
      rewrite set_pkt_stream_id. unfold mux.
      rewrite Hs, raw_streams_length. now rewrite decide_True by done. }
    rewrite E, (IH (set_packets (packets c ++ [p]) c)); try done.
    simpl. now rewrite <- app_assoc.
Qed.

(** [close] on a writer none of whose features is image-like leaves the
    streams and the packets of the capture phase in the file: the
    transcoder copies every packet as it is. *)
Lemma close_true_raw e descr c :
  writer_ok e descr c →
  (∀ i n ty, descr !! i = Some (n, ty) →
     ∃ ft, feature_name_to_feature_type (self e) !! n = Some ft
           ∧ ¬ image_like (shape ft)) →
  ∃ e',
    close true e = (inr tt, e')
    ∧ self e' = closed_self (self e)
    ∧ fs (world e') !! path (self e)
      = Some (MkvFile (raw_streams (S (next_id (world e))) 0 descr)
                (packets c) true).
Proof.
  intros Hok Hplain.
  pose proof Hok as [Hopen Hlive Hmode Hpath Hnc Hs Hp Hk Hn].
  destruct e as [w t]. simpl in *.
  unfold close, bind, self_get, gets. simpl. rewrite Hopen.
  unfold _get_current_timestamp, bind, in_world, time_time, self_get, gets.
  simpl. unfold on_container_file at 1. simpl. rewrite Hlive.
  rewrite (flush_streams_logged_raw _ c descr Hs).
  unfold close_container_file at 1.
  cbv beta iota delta [bind ret get gets modify self_get self_set in_world
    on_container_file container_close].
  simpl. rewrite Hnc, Hmode. simpl.
  unfold _transcode_pickled_images.
  cbv beta iota delta [bind ret gets modify self_get self_set in_world
    av_open_r av_open_w fresh_id os_rename os_remove container_close
    run_local].
  simpl. rewrite Hpath, lookup_insert_eq. simpl. rewrite lookup_insert_eq. simpl.
  rewrite Hs, set_pending_raw_streams, retag_raw_streams.
  set (c1 := {| c_id := S (next_id w); c_path := path t; c_mode := "w";
                streams := []; packets := []; c_closed := false |}).
  destruct (fold_transcode_raw (lossy_compression t)
              (feature_name_to_feature_type t) (next_id w) descr ∅ [] c1)
    as (d' & E & Hd'); try done.
  { intros i n ty Hi. now destruct (Hn i n ty Hi). }
  simpl in E. rewrite E. simpl.
  rewrite raw_streams_index.
  rewrite (transcoded_streams_plain _ _ _ descr 0 Hplain).
  set (c2 := set_streams _ c1).
  rewrite demux_all by done.
  rewrite (for_each_app _ _ _ _ _
             (transcode_packets_verbatim d' descr (packets c) c2 eq_refl Hp
                ltac:(intros i Hi; rewrite Hd'; simpl;
                      now rewrite decide_True by lia))).
  rewrite transcode_flush_packets.
  rewrite (flush_streams_raw _ _ descr) by reflexivity.
  simpl.
  rewrite lookup_insert_ne by (apply not_eq_sym, temp_path_ne).
  rewrite lookup_insert_eq. simpl.
  unfold close_container_file.
  cbv beta iota delta [bind ret get gets modify self_get self_set in_world
    on_container_file container_close].
  simpl.
  eexists. split; [reflexivity|]. simpl.
  split; [done|].
  now rewrite lookup_insert_eq, set_pending_raw_streams.
Qed.

(** ** What a writer has written *)

Lemma first_seen_snoc l k :
  first_seen (l ++ [k])
  = if decide (k ∈ first_seen l) then first_seen l else first_seen l ++ [k].
Proof. unfold first_seen. now rewrite fold_left_app. Qed.

Lemma elem_of_first_seen l k : k ∈ first_seen l ↔ k ∈ l.
Proof.
  induction l as [|x l IH] using rev_ind; [done|].
  rewrite first_seen_snoc, elem_of_app, list_elem_of_singleton.
  destruct (decide (x ∈ first_seen l)) as [Hx|Hx].
  - rewrite IH. split; [auto|]. intros [H| ->]; [done|]. now apply IH.
  - rewrite elem_of_app, list_elem_of_singleton, IH. done.
Qed.

Lemma NoDup_first_seen l : NoDup (first_seen l).
Proof.
  induction l as [|x l IH] using rev_ind; [constructor|].
  rewrite first_seen_snoc. destruct (decide (x ∈ first_seen l)) as [Hx|Hx]; [done|].
  apply NoDup_app. split_and!; [done| |apply NoDup_singleton].
  intros y Hy Hy'. apply list_elem_of_singleton in Hy'. now subst.
Qed.

Lemma head_first_seen l : head (first_seen l) = head l.
Proof.
  induction l as [|x l IH] using rev_ind; [done|].
  rewrite first_seen_snoc. destruct l as [|y l].
  - reflexivity.
  - destruct (decide (x ∈ first_seen (y :: l))).
    + rewrite IH. reflexivity.
    + rewrite head_app, IH. reflexivity.
Qed.

Lemma values_of_app k l1 l2 :
  values_of k (l1 ++ l2) = values_of k l1 ++ values_of k l2.
Proof. apply omap_app. Qed.

Lemma values_of_absent k (leaves : list (string * PyVal)) :
  k ∉ leaves.*1 → values_of k leaves = [].
Proof.
  induction leaves as [|[k' v] leaves IH]; intros Hk; [done|].
  rewrite fmap_cons, not_elem_of_cons in Hk. destruct Hk as [Hne Hk].
  unfold values_of in *. simpl. rewrite decide_False by done. auto.
Qed.

Lemma values_of_present k (leaves : list (string * PyVal)) :
  k ∈ leaves.*1 → ∃ v vs, values_of k leaves = v :: vs.
Proof.
  induction leaves as [|[k' v] leaves IH]; intros Hk.
  - now apply not_elem_of_nil in Hk.
  - unfold values_of in *. simpl. destruct (decide (k' = k)) as [->|Hne].
    + eauto.
    + rewrite fmap_cons in Hk. apply elem_of_cons in Hk as [->|Hk]; [done|]. auto.
Qed.

Lemma descr_of_names leaves : (descr_of leaves).*1 = first_seen leaves.*1.
Proof.
  unfold descr_of. generalize (first_seen leaves.*1). intros l.
  induction l as [|x l IH]; [done|]. simpl. now f_equal.
Qed.

Lemma descr_of_snoc leaves f v :
  descr_of (leaves ++ [(f, v)])
  = if decide (f ∈ leaves.*1) then descr_of leaves
    else descr_of leaves ++ [(f, FeatureType_str (from_data v))].
Proof.
  unfold descr_of. rewrite fmap_app. cbn [fmap list_fmap fst].
  rewrite first_seen_snoc.
  assert (Hold : ∀ l, (∀ k, k ∈ l → k ∈ leaves.*1) →
            map (fun k => (k, FeatureType_str
                   (from_data (default VNone
                      (head (values_of k (leaves ++ [(f, v)])))))) ) l
            = map (fun k => (k, FeatureType_str
                   (from_data (default VNone (head (values_of k leaves)))))) l).
  { induction l as [|k l IH]; intros Hl; [done|]. simpl. f_equal.
    - destruct (values_of_present k leaves) as (v0 & vs & E).
      { apply Hl. left. }
      now rewrite values_of_app, E.
    - apply IH. intros k' Hk'. apply Hl. now right. }
  destruct (decide (f ∈ first_seen leaves.*1)) as [Hf|Hf].
  - rewrite decide_True by now apply elem_of_first_seen.
    apply Hold. intros k. apply elem_of_first_seen.
  - rewrite decide_False by (intros H; now apply Hf, elem_of_first_seen).
    rewrite map_app, Hold by (intros k; apply elem_of_first_seen).
    f_equal. simpl. rewrite values_of_app.
    rewrite (values_of_absent f leaves)
      by (intros H; now apply Hf, elem_of_first_seen).
    unfold values_of. simpl. now rewrite decide_True by done.
Qed.

Lemma known_iff_written e c leaves feature :
  journal e c leaves →
  is_Some (feature_name_to_stream (self e) !! feature) ↔ feature ∈ leaves.*1.
Proof.
  intros [Hok _ _]. destruct Hok as [_ _ _ _ _ _ _ Hk Hn]. split.
  - intros [s Hs]. destruct (Hk _ _ Hs) as (owner & i & ty & _ & Hi).
    apply elem_of_first_seen. rewrite <- descr_of_names.
    apply list_elem_of_fmap. exists (feature, ty). split; [done|].
    eapply list_elem_of_lookup_2; eauto.
  - intros Hin. apply elem_of_first_seen in Hin. rewrite <- descr_of_names in Hin.
    apply list_elem_of_fmap in Hin as ([n ty] & -> & Hin).
    apply list_elem_of_lookup_1 in Hin as [i Hi].
    now destruct (Hn i n ty Hi).
Qed.

Lemma written_weaken descr extra leaves ps :
  written descr leaves ps → written (descr ++ extra) leaves ps.
Proof.
  intros H. eapply Forall2_impl; [exact H|].
  intros [k v] q (i & ty & ts & -> & Hi). exists i, ty, ts. split; [done|].
  rewrite lookup_app_l; [done|]. now apply lookup_lt_Some in Hi.
Qed.

(** A call of [add] appends its leaf to what the writer has written. *)
Lemma add_journal e c leaves feature data timestamp :
  journal e c leaves → is_dict data = false →
  ∃ e' c',
    add feature data timestamp e = (inr tt, e')
    ∧ journal e' c' (leaves ++ [(feature, data)])
    ∧ unchanged e e'.
Proof.
  intros Hj Hd. pose proof Hj as [Hok Hw Ht].
  destruct (add_ok e (descr_of leaves) c feature data timestamp Hok Hd)
    as (e' & descr' & c' & i & ty & stamp & E & Hok' & Hd' & Hi & Hp & Hst
        & Hu & _ & Hty).
  assert (Hdescr : descr' = descr_of (leaves ++ [(feature, data)])).
  { rewrite descr_of_snoc, Hd'.
    pose proof (known_iff_written e c leaves feature Hj) as Hiff.
    case_bool_decide as Hb; destruct (decide (feature ∈ leaves.*1)) as [Hin|Hin];
      try done.
    - now apply Hiff in Hb.
    - now apply Hiff in Hin. }
  exists e', c'. split; [done|]. split; [|done]. split.
  - now rewrite <- Hdescr.
  - rewrite <- Hdescr, Hp. apply Forall2_app.
    + rewrite Hd'. case_bool_decide; [done|]. now apply written_weaken.
    + constructor; [|constructor]. exists i, ty, stamp. done.
  - intros n ft. rewrite Hty. destruct (decide (feature = n)) as [->|Hne].
    + rewrite lookup_insert_eq. intros [= <-]. exists data. split; [|done].
      apply elem_of_app. right. left.
    + rewrite lookup_insert_ne by done. intros H.
      destruct (Ht n ft H) as (v & Hv & ->). exists v. split; [|done].
      apply elem_of_app. now left.
Qed.

Lemma adds_journal ts l : ∀ e c leaves,
  journal e c leaves →
  Forall (fun kv => is_dict kv.2 = false) l →
  ∃ e' c',
    for_each l (fun kv => add kv.1 kv.2 (Some ts)) e = (inr tt, e')
    ∧ journal e' c' (leaves ++ l)
    ∧ unchanged e e'.
Proof.
  induction l as [|[k v] l IH]; intros e c leaves Hj Hl.
  - exists e, c. rewrite app_nil_r. split_and!; try done.
    all: apply unchanged_refl.
  - inversion Hl as [|? ? Hv Hl']; subst. simpl in Hv.
    destruct (add_journal e c leaves k v (Some ts) Hj Hv) as (e1 & c1 & E1 & Hj1 & Hu1).
    destruct (IH e1 c1 _ Hj1 Hl') as (e' & c' & E & Hj' & Hu).
    exists e', c'. cbn [for_each]. unfold bind. cbn [fst snd]. rewrite E1, E.
    rewrite <- app_assoc in Hj'. split_and!; try done.
    eapply unchanged_trans; eauto.
Qed.

Lemma journal_tick e c leaves n :
  journal e c leaves →
  journal {| world := {| fs := fs (world e); tick := n;
                         next_id := next_id (world e) |};
             self := self e |} c leaves.
Proof. intros [Hok Hw Ht]. split; [|done|done]. destruct Hok; now split. Qed.

Lemma add_by_dict_journal e c leaves d timestamp :
  journal e c leaves →
  ∃ e' c',
    add_by_dict (VDict d) timestamp e = (inr tt, e')
    ∧ journal e' c'
        (leaves ++ _flatten_dict d EmptyString (feature_name_separator (self e)))
    ∧ unchanged e e'.
Proof.
  intros Hj. unfold add_by_dict.
  rewrite (bind_inr _ _ e _ e) by reflexivity.
  destruct timestamp as [ts|].
  - rewrite (bind_inr _ _ e ts e) by reflexivity.
    apply (adds_journal ts _ e c leaves Hj). apply flatten_value_leaves.
  - set (e1 := {| world := {| fs := fs (world e); tick := S (tick (world e));
                              next_id := next_id (world e) |};
                  self := self e |}).
    set (ts := (wall_clock (tick (world e)) - start_time (self e))%Z).
    rewrite (bind_inr _ _ e ts e1) by reflexivity.
    destruct (adds_journal ts _ e1 c leaves (journal_tick e c leaves _ Hj)
                (flatten_value_leaves (VDict d) EmptyString
                   (feature_name_separator (self e))))
      as (e' & c' & E & Hj' & Hu).
    exists e', c'. split_and!; try done.
    destruct Hu. split; simpl in *; try done. lia.
Qed.

Lemma call_journal e c leaves k :
  journal e c leaves →
  ∃ c',
    journal (call k e).2 c'
      (leaves ++ written_leaves (feature_name_separator (self e)) k)
    ∧ unchanged e (call k e).2.
Proof.
  intros Hj.
  assert (Hsame : ∃ c', journal e c' (leaves ++ []) ∧ unchanged e e).
  { exists c. rewrite app_nil_r. split; [done|apply unchanged_refl]. }
  destruct k as [feature data timestamp|data timestamp]; simpl.
  - destruct (is_dict data) eqn:Hd.
    { rewrite add_unfold, Hd. exact Hsame. }
    destruct (add_journal e c leaves feature data timestamp Hj Hd)
      as (e' & c' & E & Hj' & Hu).
    rewrite E. eauto.
  - destruct data as [a|s| |l|d]; try exact Hsame.
    destruct (add_by_dict_journal e c leaves d timestamp Hj)
      as (e' & c' & E & Hj' & Hu).
    rewrite E. eauto.
Qed.

(** After any calls, a writer holds one packet per written leaf, in the
    order of the writes, each in the stream of its feature. *)
Lemma run_calls_journal calls : ∀ e c leaves,
  journal e c leaves →
  ∃ c',
    journal (run_calls calls e) c'
      (leaves ++ concat (map (written_leaves (feature_name_separator (self e)))
                           calls))
    ∧ unchanged e (run_calls calls e).
Proof.
  induction calls as [|k calls IH]; intros e c leaves Hj.
  - exists c. simpl. rewrite app_nil_r. split; [done|apply unchanged_refl].
  - destruct (call_journal e c leaves k Hj) as (c1 & Hj1 & Hu1).
    destruct (IH _ c1 _ Hj1) as (c' & Hj' & Hu).
    exists c'. cbn [run_calls map concat].
    rewrite <- app_assoc in Hj'. destruct Hu1 as [? Hsep ? ? ? ? ?].
    rewrite Hsep in Hj'. split; [done|].
    eapply unchanged_trans; [|exact Hu]. now split.
Qed.

Lemma init_journal file_path cache_dir lossy sep w :
  ∃ t w' c,
    __init__ file_path "w" cache_dir lossy sep w = (inr t, w')
    ∧ journal {| world := w'; self := t |} c []
    ∧ path t = file_path
    ∧ feature_name_separator t = sep
    ∧ lossy_compression t = lossy.
Proof.
  unfold __init__, bind, time_time, av_open_w, bind, fresh_id, modify, ret.
  simpl.
  eexists _, _, _. split; [reflexivity|]. simpl.
  split_and!; try done.
  split; simpl.
  - split; simpl; try done.
  - constructor.
  - intros n ft H. now rewrite lookup_empty in H.
Qed.

(** ** The text of a type can be read back *)

Lemma split_once_found c s1 : ∀ s2,
  ∃ a b, split_once c (s1 +:+ String c s2) = Some (a, b).
Proof.
  induction s1 as [|x s1 IH]; intros s2; simpl.
  - rewrite Ascii.eqb_refl. eauto.
  - destruct (Ascii.eqb x c); [eauto|].
    destruct (IH s2) as (a & b & ->). eauto.
Qed.

Lemma FeatureType_str_readable ft :
  ∃ ft', FeatureType_from_str (Some (FeatureType_str ft)) = inr ft'.
Proof.
  destruct (split_once_found ";" (dtype ft)
              (" shape=" +:+ string_of_shape (shape ft))) as (a & b & E).
  unfold FeatureType_from_str.
  change (FeatureType_str ft)
    with ("dtype=" +:+ (dtype ft +:+
            String ";" (" shape=" +:+ string_of_shape (shape ft)))).
  remember (dtype ft +:+ String ";" (" shape=" +:+ string_of_shape (shape ft)))
    as X.
  simpl. change (EmptyString +:+ X) with X. rewrite E. simpl. eauto.
Qed.

Lemma descr_of_readable leaves : readable (descr_of leaves).
Proof.
  unfold readable, descr_of. apply Forall_forall. intros [n ty] Hin.
  apply list_elem_of_fmap in Hin as (k & [= -> ->] & _).
  apply FeatureType_str_readable.
Qed.

(** ** From the written leaves to the file and back *)

Lemma stream_values_pickled i j ts v ps :
  stream_values i (pickled j ts v :: ps)
  = if decide (j = i) then v :: stream_values i ps else stream_values i ps.
Proof. unfold stream_values. simpl. now destruct (decide (j = i)). Qed.

Lemma values_of_cons k k' v (l : list (string * PyVal)) :
  values_of k ((k', v) :: l)
  = if decide (k' = k) then v :: values_of k l else values_of k l.
Proof. unfold values_of. simpl. now destruct (decide (k' = k)). Qed.

Lemma written_values descr leaves ps i n ty :
  NoDup descr.*1 → written descr leaves ps → descr !! i = Some (n, ty) →
  stream_values i ps = values_of n leaves.
Proof.
  intros Hnd Hw Hi.
  induction Hw as [|[k v] q leaves ps (j & ty' & ts & -> & Hj) Hw IH]; [done|].
  rewrite stream_values_pickled, values_of_cons, IH. cbn [fst snd] in *.
  destruct (decide (j = i)) as [->|Hne].
  - rewrite Hi in Hj. inversion Hj; subst. now rewrite decide_True by done.
  - rewrite decide_False; [done|]. intros ->. apply Hne.
    eapply descr_name_inj; eauto.
Qed.

Lemma descr_of_head leaves k v rest :
  leaves = (k, v) :: rest →
  descr_of leaves !! 0
  = Some (k, FeatureType_str (from_data v)).
Proof.
  intros ->. unfold descr_of.
  pose proof (head_first_seen ((k, v) :: rest).*1) as Hh.
  rewrite fmap_cons in *. cbn [fst] in *.
  destruct (first_seen (k :: rest.*1)) as [|k' l]; [done|].
  cbn [head] in Hh. inversion Hh; subst. cbn [map lookup list_lookup].
  now rewrite values_of_cons, decide_True by done.
Qed.

Lemma decoded_arrays_of_leaves leaves ps :
  leaves ≠ [] →
  written (descr_of leaves) leaves ps →
  decoded_arrays (length (stream_values 0 ps)) (descr_of leaves) ps
  = arrays_of_leaves leaves.
Proof.
  intros Hne Hw.
  assert (Hnd : NoDup (descr_of leaves).*1)
    by (rewrite descr_of_names; apply NoDup_first_seen).
  destruct leaves as [|[k v] rest] eqn:E; [done|]. rewrite <- E in *.
  pose proof (descr_of_head leaves k v rest E) as H0.
  rewrite (written_values _ _ _ 0 _ _ Hnd Hw H0).
  unfold arrays_of_leaves.
  replace (default EmptyString (head leaves.*1)) with k by now rewrite E.
  apply list_eq. intros i. unfold decoded_arrays.
  rewrite list_lookup_imap, list_lookup_fmap.
  destruct (descr_of leaves !! i) as [[n ty]|] eqn:Hi; [|done]. simpl.
  now rewrite (written_values _ _ _ i _ _ Hnd Hw Hi).
Qed.

(** The file a writer leaves: one [rawvideo] stream per feature, one
    packet per written leaf.  With [compact] the transcoder must find no
    image-like feature. *)
Lemma written_file e c leaves compact :
  journal e c leaves →
  (compact = true →
   Forall (fun kv => ¬ image_like (shape (from_data kv.2))) leaves) →
  ∃ e' o ps,
    close compact e = (inr tt, e')
    ∧ self e' = closed_self (self e)
    ∧ fs (world e') !! path (self e)
      = Some (MkvFile (raw_streams o 0 (descr_of leaves)) ps true)
    ∧ written (descr_of leaves) leaves ps
    ∧ Forall (raw_packet (length (descr_of leaves))) ps.
Proof.
  intros [Hok Hw Ht] Hplain. pose proof Hok as [_ _ _ _ _ Hs Hp _ Hn].
  destruct compact.
  - destruct (close_true_raw e (descr_of leaves) c Hok) as (e' & E & Hself & Hf).
    { intros i n ty Hi. destruct (Hn i n ty Hi) as [_ [ft Hft]].
      exists ft. split; [done|].
      destruct (Ht n ft Hft) as (v & Hv & ->).
      specialize (Hplain eq_refl). rewrite Forall_forall in Hplain.
      apply (Hplain _ Hv). }
    eauto 10.
  - destruct (close_ok e (descr_of leaves) c false Hok)
      as (e' & ss & ps & E & Hself & _ & Hf & -> & ->).
    rewrite Hs in Hf. eauto 10.
Qed.

Lemma written_then_closed file_path cache_dir lossy sep w calls compact :
  (compact = true →
   Forall (fun kv => ¬ image_like (shape (from_data kv.2)))
     (concat (map (written_leaves sep) calls))) →
  ∃ t w0 e1 o ps,
    __init__ file_path "w" cache_dir lossy sep w = (inr t, w0)
    ∧ close compact (run_calls calls {| world := w0; self := t |}) = (inr tt, e1)
    ∧ fs (world e1) !! file_path
      = Some (MkvFile
                (raw_streams o 0 (descr_of (concat (map (written_leaves sep) calls))))
                ps true)
    ∧ written (descr_of (concat (map (written_leaves sep) calls)))
        (concat (map (written_leaves sep) calls)) ps
    ∧ Forall (raw_packet
                (length (descr_of (concat (map (written_leaves sep) calls))))) ps.
Proof.
  intros Hplain.
  destruct (init_journal file_path cache_dir lossy sep w)
    as (t & w0 & c0 & E0 & Hj0 & Hpath & Hsep & _).
  destruct (run_calls_journal calls _ c0 [] Hj0) as (c & Hj & Hu).
  simpl in Hj. rewrite Hsep in Hj.
  destruct (written_file _ c _ compact Hj Hplain)
    as (e1 & o & ps & E1 & _ & Hf & Hw & Hps).
  destruct Hu as [Hp _ _ _ _ _ _]. simpl in Hp. rewrite Hp, Hpath in Hf.
  exists t, w0, e1, o, ps. done.
Qed.




(** ** [_flatten_dict] *)

Lemma dict_set_keys {V} (d : list (string * V)) k v :
  (dict_set d k v).*1 = if decide (k ∈ d.*1) then d.*1 else d.*1 ++ [k].
Proof.
  induction d as [|[k' v'] d IH]; [done|]. cbn [dict_set].
  destruct (String.eqb_spec k' k) as [->|Hne].
  - rewrite !fmap_cons. cbn [fst]. rewrite decide_True by left. done.
  - rewrite !fmap_cons, IH. cbn [fst].
    destruct (decide (k ∈ d.*1)) as [Hin|Hin].
    + rewrite decide_True by now right. done.
    + rewrite decide_False; [done|]. intros H. apply elem_of_cons in H as [->|H]; done.
Qed.

Lemma dict_update_nodup {V} (items : list (string * V)) : ∀ d,
  NoDup d.*1 → NoDup (dict_update d items).*1.
Proof.
  unfold dict_update. induction items as [|[k v] items IH]; intros d Hd; [done|].
  simpl. apply IH. rewrite dict_set_keys.
  destruct (decide (k ∈ d.*1)); [done|].
  apply NoDup_app. split_and!; [done| |apply NoDup_singleton].
  intros x Hx Hx'. apply list_elem_of_singleton in Hx'. now subst.
Qed.

Lemma dict_update_fresh {V} (items : list (string * V)) : ∀ d,
  NoDup (d ++ items).*1 → dict_update d items = d ++ items.
Proof.
  unfold dict_update. induction items as [|[k v] items IH]; intros d Hd; simpl.
  - now rewrite app_nil_r.
  - rewrite dict_set_fresh.
    + rewrite IH; rewrite <- app_assoc; done.
    + rewrite fmap_app in Hd. apply NoDup_app in Hd as (_ & Hd & _).
      intros Hin. apply (Hd _ Hin). left.
Qed.

Lemma flat_items_fixed sep (d : list (string * PyVal)) :
  Forall (fun kv => is_dict kv.2 = false) d →
  (fix items (d : list (string * PyVal)) : list (string * PyVal) :=
     match d with
     | [] => []
     | (k, v') :: rest =>
         flatten_value (new_key EmptyString sep k) sep v' ++ items rest
     end) d = d.
Proof.
  induction 1 as [|[k v] d Hv Hd IH]; [done|]. rewrite IH.
  simpl in Hv. destruct v; try done.
Qed.

Lemma flat_items_app key sep (d1 d2 : list (string * PyVal)) :
  (fix items (d : list (string * PyVal)) : list (string * PyVal) :=
     match d with
     | [] => []
     | (k, v') :: rest =>
         flatten_value (new_key key sep k) sep v' ++ items rest
     end) (d1 ++ d2)
  = (fix items (d : list (string * PyVal)) : list (string * PyVal) :=
       match d with
       | [] => []
       | (k, v') :: rest =>
           flatten_value (new_key key sep k) sep v' ++ items rest
       end) d1
    ++ (fix items (d : list (string * PyVal)) : list (string * PyVal) :=
          match d with
          | [] => []
          | (k, v') :: rest =>
              flatten_value (new_key key sep k) sep v' ++ items rest
          end) d2.
Proof.
  induction d1 as [|[k v] d1 IH]; [done|].
  cbn [app]. rewrite IH. now rewrite <- app_assoc.
Qed.

(** X7. [_flatten_dict] returns a map whose keys are distinct and none of
    whose values is a map, whatever it is given.  A map that is already
    flat comes back as it is, so flattening twice is flattening once.  A
    key whose value is the empty map leaves no trace in the result. *)
Theorem flatten_dict_laws (d : list (string * PyVal)) (parent_key sep : string) :
  NoDup (_flatten_dict d parent_key sep).*1
  ∧ Forall (fun kv => is_dict kv.2 = false) (_flatten_dict d parent_key sep)
  ∧ (NoDup d.*1 → Forall (fun kv => is_dict kv.2 = false) d →
     ∀ sep', _flatten_dict d EmptyString sep' = d)
  ∧ (∀ sep', _flatten_dict (_flatten_dict d parent_key sep) EmptyString sep'
             = _flatten_dict d parent_key sep)
  ∧ (∀ d1 d2 k, d = d1 ++ (k, VDict []) :: d2 →
       _flatten_dict d parent_key sep = _flatten_dict (d1 ++ d2) parent_key sep).
Proof.
  assert (Hnd : ∀ d p s, NoDup (_flatten_dict d p s).*1).
  { intros. unfold _flatten_dict. cbn [flatten_value]. unfold dict_of_items.
    apply dict_update_nodup. constructor. }
  assert (Hfix : ∀ d s, NoDup d.*1 → Forall (fun kv => is_dict kv.2 = false) d →
                        _flatten_dict d EmptyString s = d).
  { intros d0 s Hd Hl. unfold _flatten_dict. cbn [flatten_value].
    rewrite flat_items_fixed by done. unfold dict_of_items.
    now rewrite dict_update_fresh. }
  split_and!.
  - apply Hnd.
  - apply flatten_value_leaves.
  - intros Hd Hl sep'. now apply Hfix.
  - intros sep'. apply Hfix; [apply Hnd|apply flatten_value_leaves].
  - intros d1 d2 k ->. unfold _flatten_dict. cbn [flatten_value].
    rewrite !flat_items_app. reflexivity.
Qed.

(** ** What the reader leaves as it was *)

(** Two states of a trajectory that differ in the recorded feature types
    only. *)
Lemma preallocate_frame n l : ∀ arrays e r e',
  preallocate n l arrays e = (r, e') →
  world e' = world e
  ∧ ∃ m, self e' = set_feature_name_to_feature_type m (self e).
Proof.
  induction l as [|s l IH]; intros arrays e r e' H; cbn [preallocate] in H.
  - unfold ret in H. inversion H; subst. split; [done|].
    exists (feature_name_to_feature_type (self e')). now destruct (self e').
  - destruct (dict_get (metadata s) "FEATURE_NAME") as [name|]; [|eauto].
    unfold bind at 1 in H. unfold lift at 1 in H.
    destruct (FeatureType_from_str _) as [x|ft].
    + inversion H; subst. split; [done|].
      exists (feature_name_to_feature_type (self e')). now destruct (self e').
    + unfold bind at 1 in H. unfold self_set at 1, modify at 1 in H.
      apply IH in H as [Hw [m Hm]]. simpl in *. split; [done|].
      exists m. rewrite Hm. reflexivity.
Qed.

Lemma load_from_container_frame e r e' :
  _load_from_container e = (r, e') →
  fs (world e') = fs (world e)
  ∧ tick (world e') = tick (world e)
  ∧ ∃ m, self e' = set_feature_name_to_feature_type m (self e).
Proof.
  intros H. destruct e as [w t].
  assert (Hid : ∃ m, t = set_feature_name_to_feature_type m t)
    by (exists (feature_name_to_feature_type t); now destruct t).
  unfold _load_from_container in H.
  cbv beta iota delta [bind self_get gets in_world av_open_r fresh_id] in H.
  simpl in H.
  destruct (fs w !! path t) as [[ss ps trailer|root]|] eqn:Hf;
    simpl in H; try (inversion H; subst; simpl; done).
  rewrite list_lookup_fmap in H.
  destruct (ss !! 0) as [first|] eqn:H0; simpl in H;
    [|inversion H; subst; simpl; done].
  rewrite Hf in H. unfold ret at 1 in H. simpl in H.
  match type of H with
  | context [preallocate ?n ?l [] ?e0] =>
      destruct (preallocate n l [] e0) as [[x|arrays0] e1] eqn:Hp;
        apply preallocate_frame in Hp as [Hw [m Hm]]; simpl in Hw, Hm
  end.
  { inversion H; subst. rewrite Hw. simpl. eauto. }
  unfold run_local in H.
  match type of H with
  | context [for_each ?pkts (decode_packet ?l) ?st0] =>
      destruct (for_each pkts (decode_packet l) st0) as [[x|[]] st1]
  end.
  { inversion H; subst. rewrite Hw. simpl. eauto. }
  destruct (last_length st1) as [[x|[]] st2].
  { inversion H; subst. rewrite Hw. simpl. eauto. }
  simpl in H. unfold ret in H. inversion H; subst. simpl. rewrite Hw. simpl. eauto.
Qed.

(** ** [load] with the default return type *)

Lemma load_return_numpy a e r e' :
  load_return "numpy" a e = (inr r, e') → ∃ d, r = LNumpy d.
Proof.
  unfold load_return. simpl.
  destruct a as [[|kv rest]|].
  - unfold bind, try_except.
    destruct (read_cache e) as [[x|d] e1].
    + destruct (_load_from_container e1) as [[y|a] e2]; simpl; [done|].
      unfold ret. intros [= <- <-]. eauto.
    + unfold ret. intros [= <- <-]. eauto.
  - unfold ret. intros [= <- <-]. eauto.
  - unfold bind, try_except.
    destruct (read_cache e) as [[x|d] e1].
    + destruct (_load_from_container e1) as [[y|a] e2]; simpl; [done|].
      unfold ret. intros [= <- <-]. eauto.
    + unfold ret. intros [= <- <-]. eauto.
Qed.

Lemma load_numpy_is_map save e r e' :
  load save "numpy" e = (inr r, e') → ∃ d, r = LNumpy d.
Proof.
  unfold load. unfold bind at 1. unfold self_get at 1, gets at 1.
  unfold bind at 1. unfold in_world at 1, os_path_exists, gets.
  cbn [world self fst snd].
  destruct (bool_decide _).
  - apply load_return_numpy.
  - unfold bind at 1. destruct (_load_from_container _) as [[x|arrays] e1]; [done|].
    destruct save.
    + unfold bind at 1.
      destruct (_write_to_cache arrays e1) as [[x|[r0 arrays']] e2]; [done|].
      cbn [fst snd]. destruct r0 as [x|[]].
      * unfold ret. intros [= <- <-]. eauto.
      * apply load_return_numpy.
    + apply load_return_numpy.
Qed.

(** ** [__getitem__] *)

Lemma getitem_cached key d e :
  trajectory_data (self e) = Some (Node d) →
  __getitem__ key e
  = (match dict_get d key with
     | Some v => inr v
     | None => inl (KeyError key)
     end, e).
Proof.
  intros Hd. unfold __getitem__, bind, self_get, gets, ret. rewrite Hd.
  simpl. rewrite Hd. now destruct (dict_get d key).
Qed.

(** X8. Indexing loads once.  On a trajectory that holds no data yet,
    [t[key]] calls [load()]; when that raises, so does the indexing.
    Otherwise the map [load] returned is kept in [trajectory_data], the
    value under [key] is returned, or [KeyError] raised when the map has
    no such key, and every later indexing is answered from the kept map
    and leaves the files and the trajectory as they are. *)
Theorem getitem_loads_once (key : string) (e e1 : Env) (res : Exn + Tree) :
  trajectory_data (self e) = None →
  __getitem__ key e = (res, e1) →
  (∃ x, res = inl x ∧ load true "numpy" e = (inl x, e1))
  ∨ (∃ d e0,
       load true "numpy" e = (inr (LNumpy d), e0)
       ∧ world e1 = world e0
       ∧ self e1 = set_trajectory_data (Some (Node d)) (self e0)
       ∧ res = match dict_get d key with
               | Some v => inr v
               | None => inl (KeyError key)
               end
       ∧ ∀ key', __getitem__ key' e1
                 = (match dict_get d key' with
                    | Some v => inr v
                    | None => inl (KeyError key')
                    end, e1)).
Proof.
  intros Hnone H. unfold __getitem__ in H.
  unfold bind at 1 in H. unfold self_get at 1, gets at 1 in H.
  rewrite Hnone in H. unfold bind at 1 in H. unfold bind at 1 in H.
  destruct (load true "numpy" e) as [[x|r] e0] eqn:El.
  - left. inversion H; subst. eauto.
  - right. destruct (load_numpy_is_map _ _ _ _ El) as [d ->].
    unfold self_set, modify, bind, self_get, gets in H. simpl in H.
    exists d, e0. split; [done|].
    assert (He1 : e1 = {| world := world e0;
                          self := set_trajectory_data (Some (Node d)) (self e0) |}).
    { destruct (dict_get d key); unfold ret, raise in H; now inversion H. }
    subst e1. simpl. split_and!; try done.
    + destruct (dict_get d key); unfold ret, raise in H; now inversion H.
    + intros key'. now apply getitem_cached.
Qed.

(** ** [to_hdf5] *)

Lemma set_types_twice m m' t :
  set_feature_name_to_feature_type m' (set_feature_name_to_feature_type m t)
  = set_feature_name_to_feature_type m' t.
Proof. reflexivity. Qed.

Lemma set_types_same t :
  t = set_feature_name_to_feature_type (feature_name_to_feature_type t) t.
Proof. now destruct t. Qed.

Lemma read_cache_frame e r e' : read_cache e = (r, e') → e' = e.
Proof.
  unfold read_cache, bind, self_get, gets, in_world, h5_open_r, bind, gets.
  simpl. destruct (fs (world e) !! cache_file_name (self e)) as [[ss ps tr|root]|];
    simpl; intros H.
  - inversion H; subst. now destruct e.
  - destruct (recursively_read_hdf5_group (Node root)); inversion H; subst;
      now destruct e.
  - inversion H; subst. now destruct e.
Qed.

Lemma write_to_cache_frame arrays e :
  ∃ r arrays' g,
    _write_to_cache arrays e
    = (inr (r, arrays'),
       {| world := set_fs (insert (cache_file_name (self e)) (H5File g)) (world e);
          self := self e |}).
Proof.
  unfold _write_to_cache, bind, self_get, gets, in_world, modify. simpl.
  destruct (for_each (map fst arrays) write_feature
              {| cw_arrays := arrays; cw_file := [] |}) as [r st].
  simpl. unfold ret. eexists r, (cw_arrays st), (cw_file st). f_equal. f_equal.
  unfold set_fs. simpl. f_equal. now rewrite insert_insert_eq.
Qed.

Lemma load_return_frame a e r e' :
  load_return "numpy" a e = (r, e') →
  fs (world e') = fs (world e)
  ∧ ∃ m, self e' = set_feature_name_to_feature_type m (self e).
Proof.
  assert (Hsame : fs (world e) = fs (world e)
                  ∧ ∃ m, self e = set_feature_name_to_feature_type m (self e))
    by (split; [done|eexists; apply set_types_same]).
  assert (Hcache : (bind (try_except read_cache
                            (fun _ => bind _load_from_container
                                        (fun a => ret (flat a))))
                      (fun d => ret (LNumpy d))) e = (r, e') →
            fs (world e') = fs (world e)
            ∧ ∃ m, self e' = set_feature_name_to_feature_type m (self e)).
  { unfold bind, try_except.
    destruct (read_cache e) as [[x|d] e1] eqn:Er;
      apply read_cache_frame in Er; subst e1.
    - destruct (_load_from_container e) as [[y|a'] e2] eqn:El;
        apply load_from_container_frame in El as (Hf & _ & Hm);
        unfold ret; intros [= <- <-]; done.
    - unfold ret. intros [= <- <-]. exact Hsame. }
  unfold load_return. simpl. destruct a as [[|kv rest]|]; try exact Hcache.
  unfold ret. intros [= <- <-]. exact Hsame.
Qed.

(** After [load()] has returned, the cache file exists, and the trajectory
    differs in the recorded feature types only. *)
Lemma load_leaves_cache e r e' :
  load true "numpy" e = (inr r, e') →
  is_Some (fs (world e') !! cache_file_name (self e))
  ∧ ∃ m, self e' = set_feature_name_to_feature_type m (self e).
Proof.
  unfold load. unfold bind at 1. unfold self_get at 1, gets at 1.
  unfold bind at 1. unfold in_world at 1, os_path_exists, gets.
  cbn [world self fst snd].
  case_bool_decide as Hex.
  - intros H. apply load_return_frame in H as [Hf Hm]. cbn [world] in Hf.
    now rewrite Hf.
  - unfold bind at 1.
    destruct (_load_from_container _) as [[x|arrays] e1] eqn:El; [done|].
    apply load_from_container_frame in El as (Hf1 & _ & m1 & Hm1).
    cbn [world self] in Hf1, Hm1.
    unfold bind at 1.
    destruct (write_to_cache_frame arrays e1) as (r0 & arrays' & g & ->).
    cbn [fst snd].
    assert (Hc : cache_file_name (self e1) = cache_file_name (self e))
      by now rewrite Hm1.
    destruct r0 as [x|[]].
    + unfold ret. intros [= <- <-]. simpl. rewrite Hc, lookup_insert_eq.
      split; [eauto|]. rewrite Hm1. eauto.
    + intros H. apply load_return_frame in H as [Hf [m Hm]].
      simpl in Hf, Hm. rewrite Hf, Hc, lookup_insert_eq. split; [eauto|].
      rewrite Hm, Hm1. eauto.
Qed.

(** X9. [to_hdf5] moves the cache file.  On a trajectory that holds no
    data, [to_hdf5(p)] calls [load()]; when that returns, the cache file
    exists and is renamed to [p]: the cache is gone, and the data [load]
    returned are not kept.  On a trajectory that holds data, [load] is not
    called, and a missing cache file ends the call with
    [FileNotFoundError], nothing changed. *)
Theorem to_hdf5_moves_cache (p : string) (e e1 : Env) (r : Loaded) :
  (is_falsy (trajectory_data (self e)) = true →
   load true "numpy" e = (inr r, e1) →
   ∃ f,
     fs (world e1) !! cache_file_name (self e) = Some f
     ∧ to_hdf5 p e
       = (inr tt,
          {| world := set_fs (fun m => <[p := f]> (delete (cache_file_name (self e)) m))
                        (world e1);
             self := self e1 |})
     ∧ trajectory_data (self e1) = trajectory_data (self e))
  ∧ (is_falsy (trajectory_data (self e)) = false →
     fs (world e) !! cache_file_name (self e) = None →
     to_hdf5 p e = (inl (FileNotFoundError (cache_file_name (self e))), e)).
Proof.
  split.
  - intros Hfalsy El.
    destruct (load_leaves_cache e r e1 El) as [[f Hf] [m Hm]].
    exists f. split; [done|]. split; [|now rewrite Hm].
    unfold to_hdf5, bind, self_get, gets. rewrite Hfalsy, El.
    unfold ret, in_world, os_rename. simpl.
    rewrite Hm. simpl. rewrite Hf. rewrite <- Hm. reflexivity.
  - intros Htruthy Hmiss.
    unfold to_hdf5, bind, self_get, gets. rewrite Htruthy.
    unfold ret, in_world, os_rename. simpl. rewrite Hmiss. now destruct e.
Qed.

(** ** [init_feature_streams] *)

Lemma add_selected_stream lossy n ft c :
  _add_stream_to_container n (_get_encoding_of_feature lossy VNone (Some ft)) ft c
  = (inr (transcoded_stream lossy (c_id c) (length (streams c)) n
            (FeatureType_str ft) ft),
     set_streams
       (streams c ++ [transcoded_stream lossy (c_id c) (length (streams c)) n
                        (FeatureType_str ft) ft]) c).
Proof.
  unfold transcoded_stream.
  destruct (selector_cases lossy VNone ft) as [[(d0 & d1 & rest & Hsh & _) E]|[_ E]];
    rewrite E.
  - unfold _add_stream_to_container. rewrite Hsh.
    destruct lossy; reflexivity.
  - reflexivity.
Qed.

Lemma declared_streams_app lossy owner spec1 : ∀ k spec2,
  declared_streams lossy owner k (spec1 ++ spec2)
  = declared_streams lossy owner k spec1
    ++ declared_streams lossy owner (k + length spec1) spec2.
Proof.
  induction spec1 as [|[n ft] spec1 IH]; intros k spec2; simpl.
  - now rewrite Nat.add_0_r.
  - rewrite IH. do 3 f_equal. lia.
Qed.

Lemma init_feature_streams_run spec : ∀ e c,
  container_file (self e) = Some c →
  ∃ m,
    init_feature_streams spec e
    = (inr tt,
       {| world := world e;
          self := set_feature_name_to_stream m
                    (set_container_file
                       (Some (set_streams
                                (streams c
                                 ++ declared_streams (lossy_compression (self e))
                                      (c_id c) (length (streams c)) spec) c))
                       (self e)) |})
    ∧ ∀ f, is_Some (m !! f)
           ↔ is_Some (feature_name_to_stream (self e) !! f) ∨ f ∈ spec.*1.
Proof.
  induction spec as [|[n ft] spec IH]; intros e c Hc.
  - exists (feature_name_to_stream (self e)). split.
    + unfold init_feature_streams. simpl. unfold ret. f_equal.
      destruct e as [w t]. simpl in *. f_equal. rewrite app_nil_r.
      destruct t. simpl in *. subst. f_equal. now destruct c.
    + intros f. split; [auto|]. intros [H|H]; [done|].
      now apply not_elem_of_nil in H.
  - unfold init_feature_streams. cbn [for_each].
    unfold bind at 1. unfold bind at 1. unfold self_get at 1, gets at 1.
    unfold bind at 1. unfold on_container_file at 1. rewrite Hc.
    cbn [fst snd]. rewrite add_selected_stream.
    unfold self_set at 1, modify at 1.
    remember (transcoded_stream (lossy_compression (self e)) (c_id c)
                (length (streams c)) n (FeatureType_str ft) ft) as s eqn:Hs.
    match goal with
    | |- context [for_each spec _ ?e0] =>
        destruct (IH e0 (set_streams (streams c ++ [s]) c) eq_refl)
          as (m & E & Hm)
    end.
    fold (init_feature_streams spec). rewrite E. clear E. exists m. split.
    + assert (Hstreams :
        (streams c ++ [s])
        ++ declared_streams (lossy_compression (self e)) (c_id c)
             (length (streams c ++ [s])) spec
        = streams c
          ++ declared_streams (lossy_compression (self e)) (c_id c)
               (length (streams c)) ((n, ft) :: spec)).
      { rewrite <- app_assoc, length_app. cbn [length app declared_streams].
        rewrite Nat.add_1_r, Hs. reflexivity. }
      cbn [world self set_container_file set_feature_name_to_stream
           lossy_compression set_streams streams c_id c_path c_mode packets
           c_closed path feature_name_separator cache_file_name
           feature_name_to_stream feature_name_to_feature_type trajectory_data
           start_time mode stream_id_to_info is_closed container_file].
      rewrite Hstreams. reflexivity.
    + intros f. rewrite Hm. cbn [self set_feature_name_to_stream
        feature_name_to_stream]. rewrite fmap_cons, elem_of_cons.
      cbn [fst]. destruct (decide (n = f)) as [->|Hne].
      * rewrite lookup_insert_eq. split; [|eauto]. intros _. right. now left.
      * rewrite lookup_insert_ne by done. split; intros [H|H]; try tauto.
        destruct H as [->|H]; [done|tauto].
Qed.

(** ** Features declared before any value is written *)

Lemma declared_streams_idle lossy owner spec : ∀ k,
  Forall (fun s => pending s = []) (declared_streams lossy owner k spec).
Proof.
  induction spec as [|[n ft] spec IH]; intros k; constructor; [done|apply IH].
Qed.

Lemma set_pending_idle (l : list Stream) :
  Forall (fun s => pending s = []) l → map (set_pending []) l = l.
Proof.
  induction 1 as [|s l Hs Hl IH]; [done|]. simpl. rewrite IH. f_equal.
  destruct s. simpl in *. now subst.
Qed.

Lemma flush_stream_idle ts c i :
  Forall (fun s => pending s = []) (streams c) →
  flush_stream ts i c = (inr tt, c).
Proof.
  intros H. unfold flush_stream.
  destruct (streams c !! i) as [s|] eqn:Es; [|done].
  eapply Forall_lookup_1 in H; [|exact Es]. unfold stream_encode.
  rewrite H. simpl. unfold ret. f_equal.
  rewrite list_insert_id.
  - now destruct c.
  - rewrite Es. f_equal. destruct s. simpl in *. now subst.
Qed.

Lemma flush_streams_logged_idle ts c :
  Forall (fun s => pending s = []) (streams c) →
  flush_streams_logged ts c = (inr tt, c).
Proof.
  intros H. unfold flush_streams_logged, stream_positions, bind, gets.
  generalize (seq 0 (length (streams c))). intros l.
  induction l as [|i l IH]; [done|]. simpl. unfold bind, try_except.
  now rewrite (flush_stream_idle ts c i H).
Qed.

Lemma close_missing_type e c s0 ss n :
  is_closed (self e) = false →
  container_file (self e) = Some c →
  c_mode c = "w" → c_closed c = false → c_path c = path (self e) →
  streams c = s0 :: ss →
  Forall (fun s => pending s = []) (streams c) →
  dict_get (metadata s0) "FEATURE_NAME" = Some n →
  feature_name_to_feature_type (self e) !! n = None →
  ∃ e2,
    close true e = (inl (KeyError n), e2)
    ∧ is_closed (self e2) = false
    ∧ fs (world e2) !! path (self e) = Some (MkvFile [] [] false)
    ∧ fs (world e2) !! (path (self e) +:+ temp_suffix)
      = Some (MkvFile (streams c) (packets c) true).
Proof.
  intros Hopen Hlive Hmode Hnc Hpath Hs Hidle Hname Hft.
  destruct e as [w t]. simpl in *.
  unfold close, bind, self_get, gets. simpl. rewrite Hopen.
  unfold _get_current_timestamp, bind, in_world, time_time, self_get, gets.
  simpl. unfold on_container_file at 1. simpl. rewrite Hlive.
  rewrite (flush_streams_logged_idle _ c Hidle).
  unfold close_container_file at 1.
  cbv beta iota delta [bind ret get gets modify self_get self_set in_world
    on_container_file container_close].
  simpl. rewrite Hnc, Hmode. simpl.
  unfold _transcode_pickled_images.
  cbv beta iota delta [bind ret gets modify self_get self_set in_world
    av_open_r av_open_w fresh_id os_rename os_remove container_close
    run_local].
  simpl. rewrite Hpath, lookup_insert_eq. simpl. rewrite lookup_insert_eq. simpl.
  rewrite (set_pending_idle _ Hidle), Hs. simpl.
  unfold transcode_stream at 1. cbn [retag metadata]. rewrite Hname, Hft.
  unfold bind at 1, raise at 1.
  eexists. split; [reflexivity|]. simpl.
  split; [done|]. split.
  - now rewrite lookup_insert_eq.
  - rewrite lookup_insert_ne by (apply not_eq_sym, temp_path_ne).
    now rewrite lookup_insert_eq.
Qed.


(** ** After [close] *)

Lemma close_returns_closed compact e e' :
  close compact e = (inr tt, e') →
  is_closed (self e') = true ∧ container_file (self e') = None.
Proof.
  unfold close. unfold bind at 1. unfold self_get at 1, gets at 1.
  destruct (is_closed (self e)); [done|].
  unfold bind at 1. destruct (_get_current_timestamp e) as [[x|ts] e1]; [done|].
  unfold bind at 1.
  destruct (on_container_file (flush_streams_logged ts) e1) as [[x|[]] e2]; [done|].
  unfold bind at 1. destruct (close_container_file e2) as [[x|[]] e3]; [done|].
  unfold bind at 1.
  destruct ((if compact then _transcode_pickled_images ts else ret tt) e3)
    as [[x|[]] e4]; [done|].
  unfold bind at 1. destruct (close_container_file e4) as [[x|[]] e5]; [done|].
  unfold bind, self_set, modify. simpl. intros [= <-]. done.
Qed.

Lemma for_each_mux_closed (ps : list Packet) e :
  container_file (self e) = None →
  for_each ps (fun packet => on_container_file (mux packet)) e
  = (match ps with [] => inr tt | _ => inl AttributeError end, e).
Proof.
  intros H. destruct ps as [|p ps]; [done|]. simpl.
  unfold bind, on_container_file. now rewrite H.
Qed.

Lemma encode_frame_raw (data : PyVal) (stream : Stream) (ts : Z) :
  is_video (codec_name stream) = false →
  (_encode_frame data stream ts).1 ≠ [].
Proof. intros H. unfold _encode_frame. now rewrite H. Qed.


(** ** [load] without a cache file *)

Lemma load_uncached save rt e :
  fs (world e) !! cache_file_name (self e) = None →
  load save rt e
  = (arrays <- _load_from_container ;;
     if save then
       written <- _write_to_cache arrays ;;
       match fst written with
       | inl _ => ret (LNumpy (flat (snd written)))
       | inr _ => load_return rt (Some (snd written))
       end
     else load_return rt (Some arrays)) e.
Proof.
  intros Hn. unfold load. unfold bind at 1. unfold self_get at 1, gets at 1.
  unfold bind at 1. unfold in_world at 1, os_path_exists, gets.
  cbn [world self fst snd]. rewrite Hn.
  rewrite bool_decide_eq_false_2 by (intros [? ?]; done).
  now destruct e.
Qed.

Lemma open_missing_cache e :
  fs (world e) !! cache_file_name (self e) = None →
  (name <- self_get cache_file_name ;; in_world (h5_open_r name)) e
  = (inl (FileNotFoundError (cache_file_name (self e))), e).
Proof.
  intros Hn. unfold bind, self_get, gets, in_world, h5_open_r, bind, gets.
  simpl. rewrite Hn. simpl. now destruct e.
Qed.

(** X12. [load(save_to_cache=False)] without a cache file decodes the
    container and writes no file.  With the return type [numpy] it returns
    the decoded arrays; with [hdf5] and [tensor] it raises
    [FileNotFoundError] for the cache file it did not write, and with
    [cache_name] it returns the name of a file that does not exist. *)
Theorem load_nothing_cached (e e1 : Env) (arrays : list (string * DenseArray)) :
  fs (world e) !! cache_file_name (self e) = None →
  _load_from_container e = (inr arrays, e1) →
  fs (world e1) = fs (world e)
  ∧ (arrays ≠ [] → load false "numpy" e = (inr (LNumpy (flat arrays)), e1))
  ∧ load false "hdf5" e
    = (inl (FileNotFoundError (cache_file_name (self e))), e1)
  ∧ load false "tensor" e
    = (inl (FileNotFoundError (cache_file_name (self e))), e1)
  ∧ load false "cache_name" e = (inr (LName (cache_file_name (self e))), e1).
Proof.
  intros Hn Hl.
  pose proof (load_from_container_frame _ _ _ Hl) as (Hf & _ & m & Hm).
  assert (Hc : cache_file_name (self e1) = cache_file_name (self e))
    by now rewrite Hm.
  assert (Hn1 : fs (world e1) !! cache_file_name (self e1) = None)
    by now rewrite Hf, Hc.
  split; [done|].
  split_and!.
  - intros Hne. rewrite load_uncached by done. unfold bind at 1. rewrite Hl.
    unfold load_return. simpl. now destruct arrays.
  - rewrite load_uncached by done. unfold bind at 1. rewrite Hl.
    unfold load_return. simpl.
    pose proof (open_missing_cache e1 Hn1) as Ho.
    unfold bind in Ho |- *. unfold bind.
    destruct (self_get cache_file_name e1) as [[x|name] e2] eqn:E;
      unfold self_get, gets in E; inversion E; subst.
    rewrite Ho. now rewrite Hc.
  - rewrite load_uncached by done. unfold bind at 1. rewrite Hl.
    unfold load_return. simpl.
    pose proof (open_missing_cache e1 Hn1) as Ho.
    unfold bind in Ho |- *.
    destruct (self_get cache_file_name e1) as [[x|name] e2] eqn:E;
      unfold self_get, gets in E; inversion E; subst.
    rewrite Ho. now rewrite Hc.
  - rewrite load_uncached by done. unfold bind at 1. rewrite Hl.
    unfold load_return. simpl. unfold bind, self_get, gets, ret. now rewrite Hc.
Qed.

(** X13. Without a cache file [load] decodes the container before it
    looks at the return type: a raise of the decode is the raise of
    [load], whatever was asked for, and a return type that is none of the
    five is refused only after the decode and after the cache file was
    written (or, when writing the cache raised, not refused at all: the
    arrays are returned). *)
Theorem load_decodes_first (save : bool) (rt : string) (e : Env) :
  fs (world e) !! cache_file_name (self e) = None →
  (∀ x e1, _load_from_container e = (inl x, e1) →
     load save rt e = (inl x, e1))
  ∧ (∀ arrays e1, _load_from_container e = (inr arrays, e1) →
     rt ≠ "hdf5" → rt ≠ "numpy" → rt ≠ "cache_name" → rt ≠ "container" →
     rt ≠ "tensor" →
     ∃ r e2,
       load true rt e = (r, e2)
       ∧ (r = inl (ValueError "Invalid return_type")
          ∨ ∃ d, r = inr (LNumpy d))
       ∧ ∃ g, fs (world e2)
              = <[cache_file_name (self e) := H5File g]> (fs (world e))).
Proof.
  intros Hn. split.
  - intros x e1 Hl. rewrite load_uncached by done. unfold bind at 1.
    now rewrite Hl.
  - intros arrays e1 Hl H1 H2 H3 H4 H5.
    pose proof (load_from_container_frame _ _ _ Hl) as (Hf & _ & m & Hm).
    assert (Hc : cache_file_name (self e1) = cache_file_name (self e))
      by now rewrite Hm.
    rewrite load_uncached by done. unfold bind at 1. rewrite Hl.
    unfold bind at 1.
    destruct (write_to_cache_frame arrays e1) as (r0 & arrays' & g & ->).
    cbn [fst snd]. destruct r0 as [x|[]].
    + eexists _, _. split; [reflexivity|]. split; [eauto|].
      exists g. simpl. now rewrite Hc, Hf.
    + unfold load_return.
      apply String.eqb_neq in H1, H2, H3, H4, H5.
      rewrite H1, H2, H3, H4, H5.
      eexists _, _. split; [reflexivity|]. split; [eauto|].
      exists g. simpl. now rewrite Hc, Hf.
Qed.

(** ** Colour images in video streams *)


End Properties.

(** ** The first stream decides the length of every array *)

Section Scenarios.

Variables (clock : nat → Z) (delay : string → nat)
  (samples : string → list Z → list Z) (cast : string → Z → Z)
  (scale : Z → Z) (convert : string → string → list Z → list Z)
  (repr : PyVal → string).

Local Abbreviation any_platform :=
  (platform_with clock delay samples cast scale convert repr).

(** C1, with the length the reader gives the second array.  After three
    steps that hold the feature [a] only and a fourth step that holds [a]
    and the new feature [b], all Python floats, written to an empty file
    store, closed, reopened for reading and loaded, the map has two
    arrays, both of length 4: the reader counts the packets of the first
    stream and gives every array that length.  The array of [a] holds the
    four values; of the array of [b] the first entry holds the value and
    the other three were never written. *)
Theorem late_feature_lengths (x1 x2 x3 x4 x5 : Z) :
  (late_feature (platform := any_platform) x1 x2 x3 x4 x5 empty_world).1
  = inr (LNumpy
           [("a", Leaf (float_array 4
                          [Some (py_float x1); Some (py_float x2);
                           Some (py_float x3); Some (py_float x4)]));
            ("b", Leaf (float_array 4
                          [Some (py_float x5); None; None; None]))]).
Proof. vm_compute. reflexivity. Qed.

(** C7, at a nested feature.  After one step that holds the feature [pos]
    inside [pose], the first [load()] returns the map decoded from the
    container, with the flat key [pose/pos]; the second one returns what
    the cache file holds, the map [pose] with the key [pos] inside: the two
    maps are not equal. *)
Theorem load_twice_nested_feature (x : Z) :
  ∃ a,
    (nested_feature (platform := any_platform) x empty_world).1
    = inr (LNumpy [("pose/pos", Leaf a)],
           LNumpy [("pose", Node [("pos", Leaf a)])])
    ∧ LNumpy [("pose/pos", Leaf a)] ≠ LNumpy [("pose", Node [("pos", Leaf a)])].
Proof. eexists. split; [vm_compute; reflexivity|discriminate]. Qed.

(** [from_dict_of_lists] and then [load] give the columns back under
    their flattened keys: the two sequences of floats nested under [pose]
    come back as the arrays [pose/pos] and [pose/rot], the sequence of
    strings as an object array, each with its entries in order. *)
Theorem columns_roundtrip_nested (p1 p2 r1 r2 : Z) :
  (columns_roundtrip (platform := any_platform) (nested_columns p1 p2 r1 r2)
     empty_world).1
  = inr (LNumpy
           [("pose/pos", Leaf (float_array 2 [Some (py_float p1);
                                               Some (py_float p2)]));
            ("pose/rot", Leaf (float_array 2 [Some (py_float r1);
                                               Some (py_float r2)]));
            ("name", Leaf {| arr_dtype := "object"; arr_shape := [2%N];
                             arr_slots := [Some (VStr "left");
                                           Some (VStr "right")] |})]).
Proof. vm_compute. reflexivity. Qed.

End Scenarios.

(** * Concrete instances *)

(** The claim C1 as it is written fails after the four steps 1, 2, 3 and
    (4, 5): the array of [b] has length 4, not 1. *)
Lemma late_feature_b_has_length_4 :
  ∃ a b,
    (late_feature (platform := demo) 1 2 3 4 5 empty_world).1
    = inr (LNumpy [("a", Leaf a); ("b", Leaf b)])
    ∧ length (arr_slots a) = 4
    ∧ length (arr_slots b) = 4
    ∧ length (arr_slots b) ≠ 1.
Proof.
  eexists _, _. split; [vm_compute; reflexivity|]. simpl. split_and!; lia.
Qed.



Lemma steady_clock_monotone : monotone_clock (platform := demo).
Proof. intros i j Hij. simpl. unfold steady_clock. lia. Defined.

Lemma codec_selector_boundary_witness :
  _get_encoding_of_feature false VNone
    (Some {| dtype := "uint8"; shape := [100; 100; 3]%N |}) = ffv1
  ∧ _get_encoding_of_feature true VNone
      (Some {| dtype := "uint8"; shape := [99; 100; 3]%N |}) = rawvideo.
Proof.
  split.
  - apply (codec_selector_boundary false VNone
             {| dtype := "uint8"; shape := [100; 100; 3]%N |}).
  - apply (codec_selector_boundary true VNone
             {| dtype := "uint8"; shape := [99; 100; 3]%N |}).
Defined.








Lemma load_from_container_lengths_witness :
  ∃ arrays e' ss ps trailer first,
    _load_from_container (platform := demo)
      {| world := late_world; self := reader "/tmp/robodm/late.vla" 0 |}
    = (inr arrays, e')
    ∧ fs late_world !! "/tmp/robodm/late.vla" = Some (MkvFile ss ps trailer)
    ∧ ss !! 0 = Some first
    ∧ Forall (fun kv => sized 4 kv.2) arrays.
Proof.
  destruct (_load_from_container (platform := demo)
              {| world := late_world; self := reader "/tmp/robodm/late.vla" 0 |})
    as [[x|arrays] e'] eqn:H; [vm_compute in H; discriminate|].
  destruct (load_from_container_lengths (platform := demo) _ arrays e' H)
    as (ss & ps & trailer & first & Hf & H0 & Hs).
  exists arrays, e', ss, ps, trailer, first.
  split; [reflexivity|]. split; [exact Hf|]. split; [exact H0|].
  vm_compute in Hf. inversion Hf; subst ss ps trailer.
  vm_compute in H0. inversion H0; subst first. exact Hs.
Defined.

Lemma load_cache_hit_witness :
  ∃ d,
    load (platform := demo) true "numpy"
      {| world := cached_world; self := reader "/tmp/robodm/gone.vla" 0 |}
    = (inr (LNumpy d),
       {| world := cached_world; self := reader "/tmp/robodm/gone.vla" 0 |})
    ∧ fs cached_world !! "/tmp/robodm/gone.vla" = None.
Proof.
  destruct (load_cache_hit (platform := demo)
              {| world := cached_world; self := reader "/tmp/robodm/gone.vla" 0 |}
              cache_tree true) as (d & _ & H); [reflexivity|].
  exists d. split; [exact H|reflexivity].
Defined.

Lemma load_cache_unreadable_witness :
  load (platform := demo) true "numpy"
    {| world := broken_cache_world; self := reader "/tmp/robodm/late.vla" 0 |}
  = bind (_load_from_container (platform := demo))
      (fun a => ret (LNumpy (flat a)))
      {| world := broken_cache_world; self := reader "/tmp/robodm/late.vla" 0 |}.
Proof.
  apply (load_cache_unreadable (platform := demo)
           {| world := broken_cache_world;
              self := reader "/tmp/robodm/late.vla" 0 |} [] [] true true).
  reflexivity.
Defined.

Lemma init_refused_witness :
  __init__ (platform := demo) "/tmp/robodm/w.vla" "a" default_cache_dir true "/"
    empty_world
  = (inl (ValueError "Invalid mode, must be 'r' or 'w'"),
     {| fs := ∅; tick := 1; next_id := 0 |})
  ∧ __init__ (platform := demo) "/tmp/robodm/w.vla" "r" default_cache_dir true
      "/" empty_world
    = (inl (FileNotFoundError "/tmp/robodm/w.vla"),
       {| fs := ∅; tick := 1; next_id := 0 |}).
Proof.
  split.
  - apply (proj1 (init_refused (platform := demo) "/tmp/robodm/w.vla" "a"
                    default_cache_dir "/" true empty_world)); discriminate.
  - apply (proj2 (init_refused (platform := demo) "/tmp/robodm/w.vla" "a"
                    default_cache_dir "/" true empty_world)). reflexivity.
Defined.

(** * Instances of the further properties *)




Lemma flatten_dict_laws_witness :
  _flatten_dict [("grip", py_float 3); ("arm", py_float 4)] EmptyString "."
  = [("grip", py_float 3); ("arm", py_float 4)]
  ∧ _flatten_dict nested_step EmptyString "/"
    = _flatten_dict
        [("pose", VDict [("pos", py_float 1); ("rot", py_float 2)]);
         ("grip", py_float 3)] EmptyString "/".
Proof.
  split.
  - apply (proj1 (proj2 (proj2
             (flatten_dict_laws [("grip", py_float 3); ("arm", py_float 4)]
                EmptyString "/")))).
    + apply (bool_decide_unpack _). vm_compute. exact I.
    + repeat (apply Forall_cons_2; [reflexivity|]). apply Forall_nil_2.
  - apply (proj2 (proj2 (proj2 (proj2
             (flatten_dict_laws nested_step EmptyString "/"))))
             [("pose", VDict [("pos", py_float 1); ("rot", py_float 2)])]
             [("grip", py_float 3)] "extra").
    reflexivity.
Defined.

Lemma getitem_loads_once_witness :
  ∃ d e0 e1,
    load (platform := demo) true "numpy"
      {| world := cached_world; self := reader "/tmp/robodm/gone.vla" 0 |}
    = (inr (LNumpy d), e0)
    ∧ __getitem__ (platform := demo) "a"
        {| world := cached_world; self := reader "/tmp/robodm/gone.vla" 0 |}
      = (inr (Leaf (float_array 1 [Some (py_float 1)])), e1)
    ∧ __getitem__ (platform := demo) "b" e1 = (inl (KeyError "b"), e1).
Proof.
  destruct (__getitem__ (platform := demo) "a"
              {| world := cached_world; self := reader "/tmp/robodm/gone.vla" 0 |})
    as [res e1] eqn:H.
  destruct (getitem_loads_once (platform := demo) "a"
              {| world := cached_world; self := reader "/tmp/robodm/gone.vla" 0 |}
              e1 res eq_refl H)
    as [(x & _ & Hl)|(d & e0 & Hl & _ & _ & Hres & Hnext)].
  - vm_compute in Hl. discriminate.
  - exists d, e0, e1. split; [exact Hl|].
    vm_compute in Hl. inversion Hl; subst d e0.
    split; [now rewrite Hres|]. apply (Hnext "b").
Defined.

Lemma to_hdf5_moves_cache_witness :
  ∃ e1,
    to_hdf5 (platform := demo) "/tmp/robodm/out.h5"
      {| world := cached_world; self := reader "/tmp/robodm/gone.vla" 0 |}
    = (inr tt, e1)
    ∧ fs (world e1) !! "/tmp/robodm/out.h5" = Some (H5File cache_tree)
    ∧ fs (world e1) !! (default_cache_dir +:+ "5f3a" +:+ ".cache") = None.
Proof.
  destruct (load (platform := demo) true "numpy"
              {| world := cached_world; self := reader "/tmp/robodm/gone.vla" 0 |})
    as [[x|r] e0] eqn:Hl; [vm_compute in Hl; discriminate|].
  destruct (proj1 (to_hdf5_moves_cache (platform := demo) "/tmp/robodm/out.h5"
                     {| world := cached_world;
                        self := reader "/tmp/robodm/gone.vla" 0 |} e0 r)
              eq_refl Hl) as (f & Hf & E & _).
  eexists. split; [exact E|].
  vm_compute in Hl. inversion Hl; subst r e0.
  vm_compute in Hf. inversion Hf; subst f.
  split; reflexivity.
Defined.


Lemma load_nothing_cached_witness :
  ∃ arrays e1,
    _load_from_container (platform := demo)
      {| world := late_world; self := reader "/tmp/robodm/late.vla" 0 |}
    = (inr arrays, e1)
    ∧ fs (world e1) = fs late_world
    ∧ load (platform := demo) false "numpy"
        {| world := late_world; self := reader "/tmp/robodm/late.vla" 0 |}
      = (inr (LNumpy (flat arrays)), e1)
    ∧ load (platform := demo) false "hdf5"
        {| world := late_world; self := reader "/tmp/robodm/late.vla" 0 |}
      = (inl (FileNotFoundError (default_cache_dir +:+ "5f3a" +:+ ".cache")), e1).
Proof.
  destruct (_load_from_container (platform := demo)
              {| world := late_world; self := reader "/tmp/robodm/late.vla" 0 |})
    as [[x|arrays] e1] eqn:Hl; [vm_compute in Hl; discriminate|].
  destruct (load_nothing_cached (platform := demo)
              {| world := late_world; self := reader "/tmp/robodm/late.vla" 0 |}
              e1 arrays eq_refl Hl)
    as (Hf & Hn & Hh & _).
  exists arrays, e1. split; [reflexivity|]. split; [exact Hf|].
  split; [|exact Hh]. apply Hn.
  vm_compute in Hl. inversion Hl; subst arrays. discriminate.
Defined.

Lemma load_decodes_first_witness :
  (∃ e1,
     load (platform := demo) true "container"
       {| world := empty_world; self := reader "/tmp/robodm/none.vla" 0 |}
     = (inl (FileNotFoundError "/tmp/robodm/none.vla"), e1))
  ∧ ∃ e2 g,
      load (platform := demo) true "json"
        {| world := late_world; self := reader "/tmp/robodm/late.vla" 0 |}
      = (inl (ValueError "Invalid return_type"), e2)
      ∧ fs (world e2)
        = <[default_cache_dir +:+ "5f3a" +:+ ".cache" := H5File g]>
            (fs late_world).
Proof.
  split.
  - destruct (_load_from_container (platform := demo)
                {| world := empty_world; self := reader "/tmp/robodm/none.vla" 0 |})
      as [[x|arrays] e1] eqn:Hl; [|vm_compute in Hl; discriminate].
    exists e1.
    rewrite (proj1 (load_decodes_first (platform := demo) true "container"
                      {| world := empty_world;
                         self := reader "/tmp/robodm/none.vla" 0 |}
                      eq_refl) x e1 Hl).
    vm_compute in Hl. now inversion Hl.
  - destruct (_load_from_container (platform := demo)
                {| world := late_world; self := reader "/tmp/robodm/late.vla" 0 |})
      as [[x|arrays] e1] eqn:Hl; [vm_compute in Hl; discriminate|].
    destruct (proj2 (load_decodes_first (platform := demo) true "json"
                       {| world := late_world;
                          self := reader "/tmp/robodm/late.vla" 0 |}
                       eq_refl) arrays e1 Hl)
      as (r & e2 & E & Hr & g & Hg); try discriminate.
    exists e2, g. split; [|exact Hg].
    rewrite E. f_equal. destruct Hr as [->|[d ->]]; [done|].
    vm_compute in E. discriminate.
Defined.

